(** * DTMF tone detection (vDSPExamples/DTMF.c): a shallow embedding

    The C program synthesises a noisy two-tone signal for a telephone key,
    runs it through an external real FFT and picks, in each of the two DTMF
    frequency groups, the candidate whose spectral bin carries most energy.

    C [float] is IEEE-754 binary32 and C [double] (and [double_t]) is
    binary64; both are modelled with the executable specification of
    [SpecFloat] (round to nearest, ties to even), every operation being
    evaluated in the type C gives it (FLT_EVAL_METHOD 0).  [int] and
    [uint32_t] are [Z] with the wrap-around written out.  A read outside an
    array, and a conversion to [int] of a value that does not fit, is
    undefined behaviour: the function returns [None]. *)

From Stdlib Require Import ZArith List Bool Ascii String Lia.
From Stdlib Require Import QArith Qround.
From Stdlib Require Import SpecFloat.
Import ListNotations.

Local Open Scope Z_scope.

(** ** Floating point *)

Definition float32 := spec_float.
Definition float64 := spec_float.

Module F32.
Definition prec : Z := 24.
Definition emax : Z := 128.

Definition add : float32 -> float32 -> float32 := SFadd prec emax.
Definition mul : float32 -> float32 -> float32 := SFmul prec emax.
Definition div : float32 -> float32 -> float32 := SFdiv prec emax.
Definition ltb : float32 -> float32 -> bool := SFltb.
Definition eqb : float32 -> float32 -> bool := SFeqb.

(** Conversion of an integer to [float] (C 6.3.1.4), correctly rounded. *)
Definition of_Z (n : Z) : float32 := binary_normalize prec emax n 0 false.

(** Conversion [double] to [float], correctly rounded. *)
Definition of_f64 (x : float64) : float32 :=
  match x with
  | S754_finite s m e => binary_round prec emax s m e
  | _ => x
  end.
End F32.

Module F64.
Definition prec : Z := 53.
Definition emax : Z := 1024.

Definition add : float64 -> float64 -> float64 := SFadd prec emax.
Definition mul : float64 -> float64 -> float64 := SFmul prec emax.

(** Conversion [float] to [double]: exact, the mantissa is re-aligned. *)
Definition of_f32 (x : float32) : float64 :=
  match x with
  | S754_finite s m e => binary_round prec emax s m e
  | _ => x
  end.

(** The literal [.5]. *)
Definition half : float64 := binary_normalize prec emax 1 (-1) false.

(** Conversion [double] to [int] (C 6.3.1.4): the fractional part is
    discarded (truncation toward zero); undefined when the integral part
    is not an [int], and for infinities and NaN. *)
Definition to_int (x : float64) : option Z :=
  match x with
  | S754_zero _ => Some 0
  | S754_finite s m e =>
      let n := cond_Zopp s (match e with
                            | Z0 => Zpos m
                            | Zpos p => Zpos m * Z.pow_pos 2 p
                            | Zneg p => Zpos m / Z.pow_pos 2 p
                            end) in
      if (-2147483648 <=? n) && (n <=? 2147483647) then Some n else None
  | _ => None
  end.
End F64.

(** The real number a finite float stands for, [(-1)^s * m * 2^e]
    (0 for the values that are not finite). *)
Definition SF2Q (x : spec_float) : Q :=
  match x with
  | S754_finite s m e =>
      match e with
      | Z0 => inject_Z (cond_Zopp s (Zpos m))
      | Zpos p => inject_Z (cond_Zopp s (Zpos m) * Z.pow_pos 2 p)
      | Zneg p => Qmake (cond_Zopp s (Zpos m)) (Pos.pow 2 p)
      end
  | _ => 0%Q
  end.

(** A shift record with no bit lost. *)
Definition exact_record (m : positive) : shr_record :=
  {| shr_m := Zpos m; shr_r := false; shr_s := false |}.

Definition is_nan (x : spec_float) : bool :=
  match x with S754_nan => true | _ => false end.

Definition is_finite (x : spec_float) : bool :=
  match x with S754_zero _ | S754_finite _ _ _ => true | _ => false end.

(** Sign bit clear: +0, a positive finite number or +infinity. *)
Definition sign_clear (x : spec_float) : bool :=
  match x with
  | S754_zero s | S754_infinity s | S754_finite s _ _ => negb s
  | S754_nan => false
  end.

(** ** Program constants *)

Definition Log2SampleLength : Z := 8.
Definition SampleLength : Z := Z.shiftl 1 Log2SampleLength.
Definition SamplingFrequency : Z := 3266.

(** ** The key table *)

Record FrequencyPair := { Frequency0 : float32; Frequency1 : float32 }.

Definition NUL : ascii := Ascii.zero.

(** [static char Keys[] = "123A456B789C*0#D"]: 16 characters and the
    terminating NUL. *)
Definition Keys : list ascii :=
  list_ascii_of_string "123A456B789C*0#D" ++ [NUL].

Definition DTMF0 : list float32 := map F32.of_Z [1209; 1336; 1477; 1633].
Definition DTMF1 : list float32 := map F32.of_Z [697; 770; 852; 941].

(** [strchr]: position of the first occurrence of [c] in a NUL-terminated
    string, the terminator being part of the string. *)
Fixpoint strchr (s : list ascii) (c : ascii) : option nat :=
  match s with
  | [] => None
  | x :: s' =>
      if Ascii.eqb x c then Some O
      else if Ascii.eqb x NUL then None
      else option_map S (strchr s' c)
  end.

(** [ConvertKeyToFrequencies]: [None] is an out-of-bounds table read. *)
Definition ConvertKeyToFrequencies (Key : ascii) : option FrequencyPair :=
  match strchr Keys Key with
  | None =>
      Some {| Frequency0 := F32.of_Z 0; Frequency1 := F32.of_Z 0 |}
  | Some n =>
      match nth_error DTMF0 (n mod 4), nth_error DTMF1 (n / 4) with
      | Some f0, Some f1 => Some {| Frequency0 := f0; Frequency1 := f1 |}
      | _, _ => None
      end
  end.

(** The pair returned for a key that is not in the table. *)
Definition zero_pair : FrequencyPair :=
  {| Frequency0 := F32.of_Z 0; Frequency1 := F32.of_Z 0 |}.

(** The test [F.Frequency[0] != 0] the callers apply to the result. *)
Definition is_valid_key (F : FrequencyPair) : bool :=
  negb (F32.eqb (Frequency0 F) (F32.of_Z 0)).

(** The 16-symbol alphabet: [Keys] without its terminator. *)
Definition alphabet : list ascii := list_ascii_of_string "123A456B789C*0#D".

(** ** The pseudo-random number generator *)

(** [Random]: the new value of the global [Seed] and the returned [float].
    [uint32_t] arithmetic wraps modulo 2^32. *)
Definition Random (Seed : Z) : Z * float32 :=
  let Seed' := (1664525 * Seed + 1013904223) mod 2 ^ 32 in
  (Seed',
   F32.mul (F32.of_Z (Z.shiftr Seed' 8))
           (F32.div (F32.of_Z 1) (F32.of_Z 16777216))).

(** The constant [1.f/16777216]. *)
Definition inv_2_24 : float32 := F32.div (F32.of_Z 1) (F32.of_Z 16777216).

(** The state after [k] calls, and the value the call number [k] (from 0)
    returns. *)
Fixpoint Seed_after (k : nat) (Seed : Z) : Z :=
  match k with
  | O => Seed
  | S k' => Seed_after k' (fst (Random Seed))
  end.

Definition draw (k : nat) (Seed : Z) : float32 :=
  snd (Random (Seed_after k Seed)).

(** ** Arrays and pointers *)

(** A [float *]: the array it points into and the position in it. *)
Record float_ptr := { block : list float32; offset : Z }.

Definition load (p : float_ptr) (i : Z) : option float32 :=
  let k := offset p + i in
  if k <? 0 then None else nth_error (block p) (Z.to_nat k).

Record DSPSplitComplex := { realp : float_ptr; imagp : float_ptr }.

(** [a[i]] for an array given whole; [None] outside it. *)
Definition element {A} (a : list A) (i : Z) : option A :=
  if i <? 0 then None else nth_error a (Z.to_nat i).

(** [a[i] = v]; [None] outside the array. *)
Fixpoint store_nat (a : list float32) (i : nat) (v : float32)
  : option (list float32) :=
  match a, i with
  | [], _ => None
  | _ :: a', O => Some (v :: a')
  | x :: a', S i' => option_map (cons x) (store_nat a' i' v)
  end.

Definition store (a : list float32) (i : Z) (v : float32)
  : option (list float32) :=
  if i <? 0 then None else store_nat a (Z.to_nat i) v.

(** ** The tone classifier *)

(** The DFT bin of a frequency:
    [int index = Frequencies[i] / SamplingFrequency * SampleLength + .5].
    The quotient and the product are [float], the sum is [double]. *)
Definition scaled (f : float32) : float32 :=
  F32.mul (F32.div f (F32.of_Z SamplingFrequency)) (F32.of_Z SampleLength).

Definition bin_sum (f : float32) : float64 :=
  F64.add (F64.of_f32 (scaled f)) F64.half.

Definition bin_index (f : float32) : option Z := F64.to_int (bin_sum f).

(** [re*re + im*im]. *)
Definition amplitude2 (re im : float32) : float32 :=
  F32.add (F32.mul re re) (F32.mul im im).

Record ToneState := {
  MaximumValue : float32;
  MaximumIndex : Z;
  bins_read : list Z   (* instrumentation: the bins read so far, in order *)
}.

(** One iteration of the loop of [FindTone], for candidate [i]. *)
Definition FindTone_body (Buffer : DSPSplitComplex)
    (Frequencies : list float32) (i : Z) (st : ToneState)
  : option ToneState :=
  if i <? 0 then None else
  match nth_error Frequencies (Z.to_nat i) with
  | None => None
  | Some f =>
      match bin_index f with
      | None => None
      | Some index =>
          match load (realp Buffer) index, load (imagp Buffer) index with
          | Some re, Some im =>
              let Value := amplitude2 re im in
              if F32.ltb (MaximumValue st) Value
              then Some {| MaximumValue := Value; MaximumIndex := i;
                           bins_read := bins_read st ++ [index] |}
              else Some {| MaximumValue := MaximumValue st;
                           MaximumIndex := MaximumIndex st;
                           bins_read := bins_read st ++ [index] |}
          | _, _ => None
          end
      end
  end.

(** [for (int i = ...; i < N; ++i)], with [n] iterations left. *)
Fixpoint FindTone_loop (Buffer : DSPSplitComplex)
    (Frequencies : list float32) (n : nat) (i : Z) (st : ToneState)
  : option ToneState :=
  match n with
  | O => Some st
  | S n' =>
      match FindTone_body Buffer Frequencies i st with
      | None => None
      | Some st' => FindTone_loop Buffer Frequencies n' (i + 1) st'
      end
  end.

Definition FindTone_run (Buffer : DSPSplitComplex)
    (Frequencies : list float32) (N : Z) : option ToneState :=
  FindTone_loop Buffer Frequencies (Z.to_nat N) 0
    {| MaximumValue := F32.of_Z (-1); MaximumIndex := 0; bins_read := [] |}.

Definition FindTone (Buffer : DSPSplitComplex)
    (Frequencies : list float32) (N : Z) : option Z :=
  option_map MaximumIndex (FindTone_run Buffer Frequencies N).

(** ** Signal synthesis *)

(** [static const double_t TwoPi = 0x3.243f6a8885a308d313198a2e03707344ap1]:
    the hexadecimal literal has 33 fractional digits, so it denotes
    [0x3243f6a8885a308d313198a2e03707344a * 2^(1 - 4*33)], rounded. *)
Definition TwoPi : float64 :=
  binary_normalize F64.prec F64.emax
    0x3243f6a8885a308d313198a2e03707344a (-131) false.

(** The first loop of [Demonstrate]: [Signal[i] = 4 * Random()]. *)
Fixpoint noise_loop (n : nat) (i : Z) (Signal : list float32) (Seed : Z)
  : option (list float32 * Z) :=
  match n with
  | O => Some (Signal, Seed)
  | S n' =>
      let (Seed', r) := Random Seed in
      match store Signal i (F32.mul (F32.of_Z 4) r) with
      | None => None
      | Some Signal' => noise_loop n' (i + 1) Signal' Seed'
      end
  end.

Section Synthesis.
(** [sin] of the C library. *)
Variable sin : float64 -> float64.

(** [sin((i*f / SamplingFrequency + Phase) * TwoPi)]: the argument up to
    the sum is [float], the product with [TwoPi] is [double]. *)
Definition tone (i : Z) (f Phase : float32) : float64 :=
  sin (F64.mul
         (F64.of_f32
            (F32.add (F32.div (F32.mul (F32.of_Z i) f)
                              (F32.of_Z SamplingFrequency))
                     Phase))
         TwoPi).

(** [Signal[i] += d] with [d] a [double]: the sum is computed in
    [double] and converted back. *)
Definition add_assign (x : float32) (d : float64) : float32 :=
  F32.of_f64 (F64.add (F64.of_f32 x) d).

(** The loops adding a tone: [Signal[i] += sin(...)]. *)
Fixpoint tone_loop (n : nat) (i : Z) (f Phase : float32)
    (Signal : list float32) : option (list float32) :=
  match n with
  | O => Some Signal
  | S n' =>
      match load {| block := Signal; offset := 0 |} i with
      | None => None
      | Some x =>
          match store Signal i (add_assign x (tone i f Phase)) with
          | None => None
          | Some Signal' => tone_loop n' (i + 1) f Phase Signal'
          end
      end
  end.

(** Lines 182-196 of [Demonstrate], the macro [SampleLength] replaced by
    the parameter [len]: noise, then one tone per frequency, each with a
    phase drawn once.  Returns the signal and the new [Seed]. *)
Definition synthesize (len : Z) (F : FrequencyPair)
    (Signal : list float32) (Seed : Z) : option (list float32 * Z) :=
  match noise_loop (Z.to_nat len) 0 Signal Seed with
  | None => None
  | Some (Signal1, Seed1) =>
      let (Seed2, Phase0) := Random Seed1 in
      match tone_loop (Z.to_nat len) 0 (Frequency0 F) Phase0 Signal1 with
      | None => None
      | Some Signal2 =>
          let (Seed3, Phase1) := Random Seed2 in
          match tone_loop (Z.to_nat len) 0 (Frequency1 F) Phase1 Signal2 with
          | None => None
          | Some Signal3 => Some (Signal3, Seed3)
          end
      end
  end.
End Synthesis.

(** ** The process: state, outcomes and a small monad *)

Inductive Message :=
| Prompt                                    (* "Please enter a key ..." *)
| Generating                                (* "\tGenerating signal ..." *)
| Analyzing                                 (* "\tAnalyzing signal..." *)
| Found (f0 f1 : float32) (key : ascii)     (* "\tFound frequencies ..." *)
| Simulating (key : ascii)                  (* "Simulating key %c." *)
| NotRecognized (key : ascii)               (* "Error, key %c not recognized." *)
| NoMemory                                  (* "Error, unable to allocate memory." *)
| NoSetup                                   (* "Error, unable to create FFT setup." *)
| Usage (program : list ascii)              (* "Usage:  %s [...]" *)
| Newline.

Inductive Library := CreateSetup | Ctoz | FFT | DestroySetup.

Inductive Event :=
| Stdout (m : Message)
| Stderr (m : Message)
| Call (f : Library).

Record World := {
  Seed : Z;                (* the generator's global state *)
  stdin : list ascii;      (* the characters not yet read *)
  heap : list bool;        (* whether the next calls of malloc succeed *)
  trace : list Event       (* output and library calls so far *)
}.

Inductive Outcome (A : Type) : Type :=
| Done (a : A)
| Exit (status : Z)        (* exit(status) was called *)
| Undefined                (* undefined behaviour *)
| OutOfFuel.
Arguments Done {A} a.
Arguments Exit {A} status.
Arguments Undefined {A}.
Arguments OutOfFuel {A}.

Definition M (A : Type) : Type := World -> World * Outcome A.

Definition ret {A} (a : A) : M A := fun w => (w, Done a).

Definition bind {A B} (c : M A) (k : A -> M B) : M B :=
  fun w =>
    match c w with
    | (w', Done a) => k a w'
    | (w', Exit status) => (w', Exit status)
    | (w', Undefined) => (w', Undefined)
    | (w', OutOfFuel) => (w', OutOfFuel)
    end.

Declare Scope prog_scope.
Delimit Scope prog_scope with prog.
Notation "x <- c ;; k" := (bind c (fun x => k))
  (at level 61, c at next level, right associativity) : prog_scope.
Notation "c ;; k" := (bind c (fun _ => k))
  (at level 61, right associativity) : prog_scope.

Definition EXIT_FAILURE : Z := 1.

Definition log (e : Event) : M unit :=
  fun w => ({| Seed := Seed w; stdin := stdin w; heap := heap w;
               trace := trace w ++ [e] |}, Done tt).

Definition printf (m : Message) : M unit := log (Stdout m).
Definition fprintf_stderr (m : Message) : M unit := log (Stderr m).
Definition exit {A} (status : Z) : M A := fun w => (w, Exit status).
Definition out_of_fuel {A} : M A := fun w => (w, OutOfFuel).

(** A partial operation: [None] is undefined behaviour. *)
Definition defined {A} (o : option A) : M A :=
  fun w => match o with Some a => (w, Done a) | None => (w, Undefined) end.

(** Consume input with a scanner of the remaining characters. *)
Definition scan {A} (f : list ascii -> A * list ascii) : M A :=
  fun w => let (a, rest) := f (stdin w) in
           ({| Seed := Seed w; stdin := rest; heap := heap w;
               trace := trace w |}, Done a).

(** A state transformer on the generator. *)
Definition with_Seed {A} (f : Z -> option (A * Z)) : M A :=
  fun w => match f (Seed w) with
           | Some (a, s) => ({| Seed := s; stdin := stdin w; heap := heap w;
                                trace := trace w |}, Done a)
           | None => (w, Undefined)
           end.

(** [InitializeRandom]: [Seed = time(NULL)], the time converted to
    [uint32_t]. *)
Definition InitializeRandom (now : Z) : M unit :=
  with_Seed (fun _ => Some (tt, now mod 2 ^ 32)).

Section Process.
(** The routines of the C library and of vDSP the program calls. *)
Variable sin : float64 -> float64.
(** [vDSP_ctoz]: from the signal and the buffer, the new buffer. *)
Variable vDSP_ctoz : list float32 -> list float32 -> list float32.
(** [vDSP_fft_zrip]: the buffer after the in-place transform. *)
Variable vDSP_fft_zrip : list float32 -> list float32.
(** What a freshly allocated [float] holds. *)
Variable indeterminate : float32.

(** [malloc(n * sizeof(float))]: [None] is the null pointer. *)
Definition malloc (n : Z) : M (option (list float32)) :=
  fun w =>
    match heap w with
    | false :: h =>
        ({| Seed := Seed w; stdin := stdin w; heap := h;
            trace := trace w |}, Done None)
    | h =>
        ({| Seed := Seed w; stdin := stdin w; heap := tl h;
            trace := trace w |},
         Done (Some (repeat indeterminate (Z.to_nat n))))
    end.

(** [Demonstrate]: the [Setup] argument is only handed to the transform.
    [Buffer] points into [BufferMemory], real parts in the first half and
    imaginary parts in the second; it is read after the transform. *)
Definition Demonstrate (F : FrequencyPair) : M unit :=
  (Signal <- malloc SampleLength ;;
   match Signal with
   | None => fprintf_stderr NoMemory ;; exit EXIT_FAILURE
   | Some Signal =>
       printf Generating ;;
       Signal <- with_Seed (synthesize sin SampleLength F Signal) ;;
       BufferMemory <- malloc SampleLength ;;
       match BufferMemory with
       | None => fprintf_stderr NoMemory ;; exit EXIT_FAILURE
       | Some BufferMemory =>
           log (Call Ctoz) ;;
           let BufferMemory := vDSP_ctoz Signal BufferMemory in
           printf Analyzing ;;
           log (Call FFT) ;;
           let BufferMemory := vDSP_fft_zrip BufferMemory in
           let Buffer :=
             {| realp := {| block := BufferMemory; offset := 0 |};
                imagp := {| block := BufferMemory;
                            offset := SampleLength / 2 |} |} in
           Tone0 <- defined (FindTone Buffer DTMF0 (Z.of_nat (List.length DTMF0))) ;;
           Tone1 <- defined (FindTone Buffer DTMF1 (Z.of_nat (List.length DTMF1))) ;;
           f0 <- defined (element DTMF0 Tone0) ;;
           f1 <- defined (element DTMF1 Tone1) ;;
           key <- defined (element Keys (Tone1 * 4 + Tone0)) ;;
           printf (Found f0 f1 key)
       end
   end)%prog.

(** [toupper] and [isspace] of the C library, in the "C" locale. *)
Definition toupper (c : ascii) : ascii :=
  let n := N_of_ascii c in
  if ((97 <=? n) && (n <=? 122))%N then ascii_of_N (n - 32) else c.

Definition isspace (c : ascii) : bool :=
  let n := N_of_ascii c in
  ((n =? 32) || ((9 <=? n) && (n <=? 13)))%N.

Definition newline : ascii := ascii_of_N 10.

(** [do c = getchar(); while (c != '\n' && isspace(c));]
    [None] is [EOF]. *)
Fixpoint skip_spaces (input : list ascii) : option ascii * list ascii :=
  match input with
  | [] => (None, [])
  | c :: rest =>
      if negb (Ascii.eqb c newline) && isspace c then skip_spaces rest
      else (Some c, rest)
  end.

(** [do c = getchar(); while (c != EOF && c != '\n');] *)
Fixpoint skip_line (input : list ascii) : option ascii * list ascii :=
  match input with
  | [] => (None, [])
  | c :: rest =>
      if Ascii.eqb c newline then (Some c, rest) else skip_line rest
  end.

(** The [while (1)] loop of the interactive mode; returns the last value
    of [c]. *)
Fixpoint interactive_loop (fuel : nat) : M (option ascii) :=
  match fuel with
  | O => out_of_fuel
  | S fuel' =>
      (printf Prompt ;;
       c <- scan skip_spaces ;;
       match c with
       | None => ret c
       | Some k =>
           if Ascii.eqb k newline then ret c
           else
             F <- defined (ConvertKeyToFrequencies (toupper k)) ;;
             (if is_valid_key F then Demonstrate F else ret tt) ;;
             c <- scan skip_line ;;
             match c with
             | None => ret c
             | Some _ => interactive_loop fuel'
             end
       end)%prog
  end.

(** [for (char *p = argv[1]; *p; ++p)]. *)
Fixpoint argument_loop (p : list ascii) : M unit :=
  match p with
  | [] => ret tt
  | c :: p' =>
      if Ascii.eqb c NUL then ret tt
      else
        (F <- defined (ConvertKeyToFrequencies (toupper c)) ;;
         (if is_valid_key F
          then printf (Simulating c) ;; Demonstrate F
          else fprintf_stderr (NotRecognized c)) ;;
         argument_loop p')%prog
  end.

(** [main]: [now] is what [time(NULL)] returns, [setup_ok] whether
    [vDSP_create_fftsetup] succeeds; [fuel] bounds the iterations of the
    interactive loop (one more than the number of characters of the input
    is enough). *)
Definition main (argv : list (list ascii)) (now : Z) (setup_ok : bool)
    (fuel : nat) : M Z :=
  (InitializeRandom now ;;
   log (Call CreateSetup) ;;
   (if setup_ok then ret tt
    else fprintf_stderr NoSetup ;; exit EXIT_FAILURE) ;;
   (if Z.of_nat (List.length argv) <=? 1 then
      c <- interactive_loop fuel ;;
      match c with
      | Some k => if Ascii.eqb k newline then ret tt else printf Newline
      | None => printf Newline
      end
    else if Z.of_nat (List.length argv) =? 2 then
      argument_loop (nth 1 argv [])
    else
      fprintf_stderr (Usage (nth 0 argv [])) ;; exit EXIT_FAILURE) ;;
   log (Call DestroySetup) ;;
   ret 0)%prog.
End Process.

(** ** Notions used in the statements *)

(** The comparison of floats is the lexicographic order of these keys. *)
Definition SFkey (x : spec_float) : Z * Z * Z :=
  match x with
  | S754_infinity true => (-2, 0, 0)
  | S754_finite true m e => (-1, - e, - Zpos m)
  | S754_zero _ => (0, 0, 0)
  | S754_nan => (0, 0, 0)
  | S754_finite false m e => (1, e, Zpos m)
  | S754_infinity false => (2, 0, 0)
  end.

Definition lex_lt (a b : Z * Z * Z) : Prop :=
  let '(a1, a2, a3) := a in
  let '(b1, b2, b3) := b in
  a1 < b1 \/ (a1 = b1 /\ (a2 < b2 \/ (a2 = b2 /\ a3 < b3))).

(** [x] is NaN or has sign bit [s]. *)
Definition signed_as (s : bool) (x : spec_float) : Prop :=
  match x with
  | S754_nan => True
  | S754_zero s' | S754_infinity s' | S754_finite s' _ _ => s' = s
  end.

(** The score of a candidate frequency: [None] when the bin is not an
    [int] or lies outside the buffer. *)
Definition score (Buffer : DSPSplitComplex) (f : float32) : option float32 :=
  match bin_index f with
  | None => None
  | Some index =>
      match load (realp Buffer) index, load (imagp Buffer) index with
      | Some re, Some im => Some (amplitude2 re im)
      | _, _ => None
      end
  end.

Definition candidate_score (Buffer : DSPSplitComplex)
    (Frequencies : list float32) (j : nat) : option float32 :=
  match nth_error Frequencies j with
  | Some f => score Buffer f
  | None => None
  end.

(** The bin the specification names: the floor of the sum. *)
Definition bin_floor (f : float32) : Z := Qfloor (SF2Q (bin_sum f)).

(** What holds of the loop state of [FindTone] when [k] candidates have
    been examined. *)
Definition FindTone_inv (Buffer : DSPSplitComplex)
    (Frequencies : list float32) (k : nat) (st : ToneState) : Prop :=
  (forall j v, (j < k)%nat -> candidate_score Buffer Frequencies j = Some v ->
               F32.ltb (MaximumValue st) v = false) /\
  ((MaximumIndex st = 0 /\ MaximumValue st = F32.of_Z (-1)) \/
   (exists m, (m < k)%nat /\ MaximumIndex st = Z.of_nat m /\
              candidate_score Buffer Frequencies m = Some (MaximumValue st) /\
              forall j v, (j < m)%nat ->
                          candidate_score Buffer Frequencies j = Some v ->
                          SFleb (MaximumValue st) v = false)) /\
  Forall2 (fun f index => bin_index f = Some index)
          (firstn k Frequencies) (bins_read st).

(** A buffer of 129 bins all holding 1 + 1i, for the examples. *)
Definition flat_buffer : DSPSplitComplex :=
  {| realp := {| block := repeat (F32.of_Z 1) 129; offset := 0 |};
     imagp := {| block := repeat (F32.of_Z 1) 129; offset := 0 |} |}.

(** [j] is one of the [n] indices from [i]. *)
Definition in_range (i n j : nat) : bool := (i <=? j)%nat && (j <? i + n)%nat.

(** The world with one more event in its trace. *)
Definition logged (w : World) (e : Event) : World :=
  {| Seed := Seed w; stdin := stdin w; heap := heap w;
     trace := trace w ++ [e] |}.

(** The world with its input replaced. *)
Definition with_stdin (w : World) (input : list ascii) : World :=
  {| Seed := Seed w; stdin := input; heap := heap w; trace := trace w |}.

(** A world for the examples: seed 0, no input, every allocation
    succeeds, nothing printed yet. *)
Definition quiet_world : World :=
  {| Seed := 0; stdin := []; heap := []; trace := [] |}.

(** A computation that leaves the input alone and does not loop. *)
Definition input_safe {A} (c : M A) : Prop :=
  forall w, stdin (fst (c w)) = stdin w /\ snd (c w) <> OutOfFuel.

(** ** Further notions used in the statements *)

(** The characters [main] accepts as keys. *)
Definition accepted_keys : list ascii :=
  alphabet ++ list_ascii_of_string "abcd".

(** Candidate [j] exists, its bin is an [int] and both parts of the bin
    lie inside the buffer. *)
Definition readable (Buffer : DSPSplitComplex) (Frequencies : list float32)
    (j : nat) : Prop :=
  exists f index re im,
    nth_error Frequencies j = Some f /\ bin_index f = Some index /\
    load (realp Buffer) index = Some re /\
    load (imagp Buffer) index = Some im.

(** The buffer of [Demonstrate]: real parts in the first half of
    [BufferMemory], imaginary parts in the second. *)
Definition split_buffer (BufferMemory : list float32) : DSPSplitComplex :=
  {| realp := {| block := BufferMemory; offset := 0 |};
     imagp := {| block := BufferMemory; offset := SampleLength / 2 |} |}.

(** A buffer of 129 bins holding 1 + 1i, except 3 + 1i in bin 116. *)
Definition peak_buffer : DSPSplitComplex :=
  {| realp := {| block := repeat (F32.of_Z 1) 116 ++ [F32.of_Z 3]
                          ++ repeat (F32.of_Z 1) 12;
                 offset := 0 |};
     imagp := {| block := repeat (F32.of_Z 1) 129; offset := 0 |} |}.

(** The world after [Demonstrate] has synthesised its signal: the generator
    has made [SampleLength + 2] draws, [k] allocations are gone from the
    oracle and [events] have been added to the trace. *)
Definition demonstrated (w : World) (k : nat) (events : list Event) : World :=
  {| Seed := Seed_after (Z.to_nat SampleLength + 2) (Seed w);
     stdin := stdin w;
     heap := skipn k (heap w);
     trace := trace w ++ events |}.

(** A computation that only adds to the trace, neither creates nor
    destroys the FFT setup, and exits with [EXIT_FAILURE] if it exits. *)
Definition orderly {A} (c : M A) : Prop :=
  forall w,
    (exists events,
       trace (fst (c w)) = trace w ++ events /\
       ~ In (Call CreateSetup) events /\ ~ In (Call DestroySetup) events) /\
    (forall status, snd (c w) = Exit status -> status = EXIT_FAILURE).

(** White space other than the newline. *)
Definition blank (c : ascii) : Prop := isspace c = true /\ c <> newline.

(** The world [main] leaves: the generator seeded from the clock, [input]
    still to be read, [events] added to the trace. *)
Definition after_main (w : World) (now : Z) (input : list ascii)
    (events : list Event) : World :=
  {| Seed := now mod 2 ^ 32; stdin := input; heap := heap w;
     trace := trace w ++ events |}.

(** ** DemonstrateFFT.c: comparing two complex vectors *)

(** [float] subtraction, [double] division and square root. *)
Definition F32_sub : float32 -> float32 -> float32 := SFsub F32.prec F32.emax.
Definition F64_div : float64 -> float64 -> float64 := SFdiv F64.prec F64.emax.
Definition F64_sqrt : float64 -> float64 := SFsqrt F64.prec F64.emax.

(** Conversion of an integer to [double]. *)
Definition F64_of_Z (n : Z) : float64 :=
  binary_normalize F64.prec F64.emax n 0 false.

(** The accumulators of [CompareComplexVectors], both [double_t]. *)
Record CompareState := { Error : float64; Magnitude : float64 }.

(** One iteration of its loop: the elements are [float], [re] and [im] are
    [double_t]; the differences are computed in [float]. *)
Definition Compare_body (Expected Observed : DSPSplitComplex) (i : Z)
    (st : CompareState) : option CompareState :=
  match load (realp Expected) i, load (imagp Expected) i,
        load (realp Observed) i, load (imagp Observed) i with
  | Some er, Some ei, Some or, Some oi =>
      let re := F64.of_f32 er in
      let im := F64.of_f32 ei in
      let Magnitude' :=
        F64.add (Magnitude st) (F64.add (F64.mul re re) (F64.mul im im)) in
      let re := F64.of_f32 (F32_sub er or) in
      let im := F64.of_f32 (F32_sub ei oi) in
      Some {| Error :=
                F64.add (Error st) (F64.add (F64.mul re re) (F64.mul im im));
              Magnitude := Magnitude' |}
  | _, _, _, _ => None
  end.

(** [for (i = 0; i < Length; ++i)], with [n] iterations left. *)
Fixpoint Compare_loop (Expected Observed : DSPSplitComplex) (n : nat)
    (i : Z) (st : CompareState) : option CompareState :=
  match n with
  | O => Some st
  | S n' =>
      match Compare_body Expected Observed i st with
      | None => None
      | Some st' => Compare_loop Expected Observed n' (i + 1) st'
      end
  end.

(** The whole loop, from [Error = 0, Magnitude = 0]. *)
Definition Compare_run (Expected Observed : DSPSplitComplex) (Length : Z)
  : option CompareState :=
  Compare_loop Expected Observed (Z.to_nat Length) 0
    {| Error := F64_of_Z 0; Magnitude := F64_of_Z 0 |}.

(** [CompareComplexVectors]: the number it prints,
    [sqrt(Error / Magnitude)]. *)
Definition CompareComplexVectors (Expected Observed : DSPSplitComplex)
    (Length : Z) : option float64 :=
  option_map (fun st => F64_sqrt (F64_div (Error st) (Magnitude st)))
             (Compare_run Expected Observed Length).

(** +0 or -0. *)
Definition is_zero (x : spec_float) : bool :=
  match x with S754_zero _ => true | _ => false end.

(** ** DemonstrateFFT.c: the expected results of the complex transforms *)

(** [Log2N], [N] and [TwoPi] of DemonstrateFFT.c. *)
Module FFT.
Definition Log2N : Z := 10.
Definition N : Z := Z.shiftl 1 Log2N.

(** [static const float_t TwoPi], written with the same hexadecimal
    constant as in DTMF.c: a [double] constant, converted to [float]. *)
Definition TwoPi : float32 := F32.of_f64 TwoPi.
End FFT.

(** [(int) Frequency] for a [float]: truncation, as for a [double]. *)
Definition float_to_int (x : float32) : option Z := F64.to_int x.

(** [for (i = 0; i < N/2; ++i) Expected.realp[i] = Expected.imagp[i] = 0;]
    with [n] iterations left. *)
Fixpoint zero_loop (n : nat) (i : Z) (re im : list float32)
  : option (list float32 * list float32) :=
  match n with
  | O => Some (re, im)
  | S n' =>
      match store im i (F32.of_Z 0) with
      | None => None
      | Some im' =>
          match store re i (F32.of_Z 0) with
          | None => None
          | Some re' => zero_loop n' (i + 1) re' im'
          end
      end
  end.

Section ExpectedResults.

(** [cos] and [sin] of math.h. *)
Variables cos sin : float64 -> float64.

(** [N * cos(Phase * TwoPi)] converted to [float]: the product of the
    phase is [float], the rest is [double]. *)
Definition peak (trig : float64 -> float64) (Phase : float32) : float32 :=
  F32.of_f64
    (F64.mul (F64_of_Z FFT.N) (trig (F64.of_f32 (F32.mul Phase FFT.TwoPi)))).

(** [Expected.realp[(int) Frequency] = N * cos(Phase * TwoPi);
     Expected.imagp[(int) Frequency] = N * sin(Phase * TwoPi);] *)
Definition add_frequency (Frequency Phase : float32)
    (E : list float32 * list float32)
  : option (list float32 * list float32) :=
  match float_to_int Frequency with
  | None => None
  | Some k =>
      match store (fst E) k (peak cos Phase) with
      | None => None
      | Some re' =>
          match store (snd E) k (peak sin Phase) with
          | None => None
          | Some im' => Some (re', im')
          end
      end
  end.

(** The expected results of [DemonstratevDSP_fft_zip] and
    [DemonstratevDSP_fft_zop], written into the two arrays as [malloc]
    returned them. *)
Definition prepare_Expected (Frequency0 Frequency1 Frequency2 : float32)
    (Phase0 Phase1 Phase2 : float32) (re im : list float32)
  : option (list float32 * list float32) :=
  match zero_loop (Z.to_nat (FFT.N / 2)) 0 re im with
  | None => None
  | Some E =>
      match add_frequency Frequency0 Phase0 E with
      | None => None
      | Some E =>
          match add_frequency Frequency1 Phase1 E with
          | None => None
          | Some E => add_frequency Frequency2 Phase2 E
          end
      end
  end.

End ExpectedResults.

(** An array, as the pointer to its first element. *)
Definition array (a : list float32) : float_ptr :=
  {| block := a; offset := 0 |}.

(** ** The arithmetic and the formulas of the specification

    The formulas of the specification are read in IEEE-754 arithmetic,
    rounding to nearest even: the operations below are those of
    [SpecFloat] at the precisions of binary32 ([float]) and binary64
    ([double]).  The statements compare what the program computes with
    these formulas. *)

Module IEEE.
Definition add32 : spec_float -> spec_float -> spec_float := SFadd 24 128.
Definition mul32 : spec_float -> spec_float -> spec_float := SFmul 24 128.
Definition div32 : spec_float -> spec_float -> spec_float := SFdiv 24 128.
Definition add64 : spec_float -> spec_float -> spec_float := SFadd 53 1024.
Definition mul64 : spec_float -> spec_float -> spec_float := SFmul 53 1024.

(** An integer, as a binary32 and as a binary64 number. *)
Definition int32 (n : Z) : spec_float := binary_normalize 24 128 n 0 false.
Definition int64 (n : Z) : spec_float := binary_normalize 53 1024 n 0 false.

(** [m * 2^e] as a binary64 number. *)
Definition dyadic64 (m e : Z) : spec_float :=
  binary_normalize 53 1024 m e false.

(** A binary32 number as a binary64 number (exact), and a binary64
    number rounded to binary32. *)
Definition to64 (x : spec_float) : spec_float :=
  match x with
  | S754_finite s m e => binary_round 53 1024 s m e
  | _ => x
  end.

Definition to32 (x : spec_float) : spec_float :=
  match x with
  | S754_finite s m e => binary_round 24 128 s m e
  | _ => x
  end.
End IEEE.

(** The specification's bin of a candidate frequency,
    [floor (f / samplingRateHz * sampleCount + 0.5)] with
    [samplingRateHz] = 3266 and [sampleCount] = 256: the quotient and the
    product are binary32, the sum is binary64, the floor is exact. *)
Definition spec_bin (f : float32) : Z :=
  Qfloor
    (SF2Q (IEEE.add64
             (IEEE.to64 (IEEE.mul32 (IEEE.div32 f (IEEE.int32 3266))
                                    (IEEE.int32 256)))
             (IEEE.dyadic64 1 (-1)))).

(** The specification's score of a candidate: [re*re + im*im], in
    binary32, for [(re, im)] read at its bin. *)
Definition spec_score (Buffer : DSPSplitComplex) (f : float32)
  : option float32 :=
  match load (realp Buffer) (spec_bin f), load (imagp Buffer) (spec_bin f) with
  | Some re, Some im => Some (IEEE.add32 (IEEE.mul32 re re) (IEEE.mul32 im im))
  | _, _ => None
  end.

Definition spec_candidate_score (Buffer : DSPSplitComplex)
    (Frequencies : list float32) (j : nat) : option float32 :=
  match nth_error Frequencies j with
  | Some f => spec_score Buffer f
  | None => None
  end.

(** A buffer whose 129 bins all hold NaN. *)
Definition nan_buffer : DSPSplitComplex :=
  {| realp := {| block := repeat S754_nan 129; offset := 0 |};
     imagp := {| block := repeat S754_nan 129; offset := 0 |} |}.

(** The buffer of [Demonstrate] after a transform that left 1 in each of
    its [SampleLength] = 256 floats: the real parts are the first 128
    floats, the imaginary parts the last 128. *)
Definition ones_buffer : DSPSplitComplex :=
  {| realp := {| block := repeat (F32.of_Z 1) 256; offset := 0 |};
     imagp := {| block := repeat (F32.of_Z 1) 256; offset := 128 |} |}.

(** The specification's [2 pi]: the binary64 number nearest to it,
    7074237752028440 * 2^-50 = 6.283185307179586... *)
Definition spec_two_pi : float64 := S754_finite false 7074237752028440 (-50).

(** The specification's tone [sin (2 pi (i f / samplingRateHz + phase))]
    with [samplingRateHz] = 3266: the argument up to the sum is binary32,
    its product with [2 pi] is binary64. *)
Definition spec_tone (sin : float64 -> float64) (i : Z) (f phase : float32)
  : float64 :=
  sin (IEEE.mul64
         (IEEE.to64
            (IEEE.add32
               (IEEE.div32 (IEEE.mul32 (IEEE.int32 i) f) (IEEE.int32 3266))
               phase))
         spec_two_pi).

(** The specification's sample
    [4 * noise + sin (2 pi (i f0 / samplingRateHz + phase0))
               + sin (2 pi (i f1 / samplingRateHz + phase1))]:
    the terms are added from left to right, each sum computed in binary64
    and held in binary32. *)
Definition spec_sample (sin : float64 -> float64) (i : Z)
    (f0 f1 noise phase0 phase1 : float32) : float32 :=
  IEEE.to32
    (IEEE.add64
       (IEEE.to64
          (IEEE.to32
             (IEEE.add64 (IEEE.to64 (IEEE.mul32 (IEEE.int32 4) noise))
                         (spec_tone sin i f0 phase0))))
       (spec_tone sin i f1 phase1)).

(** The value expected in the bin of a tone of phase [Phase]:
    [N * trig (Phase * 2 pi)] with [N] = 1024 and [2 pi] the binary32
    number 13176795 * 2^-21 = 6.2831855; the product with the phase is
    binary32, the rest is binary64, and the result is held in binary32. *)
Definition spec_peak (trig : float64 -> float64) (Phase : float32)
  : float32 :=
  IEEE.to32
    (IEEE.mul64 (IEEE.int64 1024)
       (trig (IEEE.to64
                (IEEE.mul32 Phase (S754_finite false 13176795 (-21)))))).

(** A positive binary64 number whose exponent is at least -1074, the least
    one of the format, or +infinity; and such a number or +0. *)
Definition above_emin (x : float64) : Prop :=
  match x with
  | S754_infinity false => True
  | S754_finite false _ e => -1074 <= e
  | _ => False
  end.

Definition zero_or_above (x : float64) : Prop :=
  x = S754_zero false \/ above_emin x.

(** * Properties *)

(** ** Exact cases of IEEE rounding

    [SpecFloat] rounds a mantissa by shifting it right to the exponent the
    format prescribes.  When every bit shifted out is zero, or when the
    mantissa only has to be shifted left, the value is unchanged. *)

Lemma pos_pow2_xO (n : positive) : (2 ^ n~0 = 2 ^ n * 2 ^ n)%positive.
Proof.
  apply Pos2Z.inj. rewrite Pos2Z.inj_mul, !Pos2Z.inj_pow, <- Z.pow_add_r by lia.
  f_equal; lia.
Qed.

Lemma pos_pow2_xI (n : positive) : (2 ^ n~1 = (2 ^ n * 2 ^ n)~0)%positive.
Proof.
  apply Pos2Z.inj. rewrite Pos2Z.inj_xO, Pos2Z.inj_mul, !Pos2Z.inj_pow.
  rewrite <- Z.pow_add_r, <- Z.pow_succ_r by lia. f_equal; lia.
Qed.

Lemma shr_1_exact (m : positive) : shr_1 (exact_record m~0) = exact_record m.
Proof. reflexivity. Qed.

Lemma iter_shr_1_exact (n m : positive) :
  iter_pos shr_1 n (exact_record (m * 2 ^ n)) = exact_record m.
Proof.
  revert m; induction n as [n IH | n IH | ]; intro m; cbn [iter_pos].
  - rewrite pos_pow2_xI.
    replace (m * (2 ^ n * 2 ^ n)~0)%positive
      with ((m * 2 ^ n * 2 ^ n)~0)%positive by lia.
    rewrite shr_1_exact, !IH. reflexivity.
  - rewrite pos_pow2_xO, Pos.mul_assoc, !IH. reflexivity.
  - replace (m * 2 ^ 1)%positive with (m~0)%positive by lia. reflexivity.
Qed.

Lemma digits2_pos_size (m : positive) : digits2_pos m = Pos.size m.
Proof. induction m; simpl; congruence. Qed.

Lemma digits2_pos_xO_iter (n m : positive) :
  digits2_pos (m * 2 ^ n) = (digits2_pos m + n)%positive.
Proof.
  induction n using Pos.peano_ind.
  - replace (m * 2 ^ 1)%positive with (m~0)%positive by lia. simpl. lia.
  - rewrite Pos.pow_succ_r.
    replace (m * (2 * 2 ^ n))%positive with ((m * 2 ^ n)~0)%positive by lia.
    simpl. rewrite IHn. lia.
Qed.

Lemma iter_xO_pow (n m : positive) : Pos.iter xO m n = (m * 2 ^ n)%positive.
Proof.
  induction n using Pos.peano_ind.
  - simpl. lia.
  - rewrite Pos.iter_succ, IHn, Pos.pow_succ_r. lia.
Qed.

Section Exact.
Variables prec emax : Z.

(** Rounding a mantissa whose discarded bits are all zero loses nothing. *)
Lemma binary_round_aux_shift (s : bool) (m : positive) (e : Z) (n : positive) :
  fexp prec emax (Zpos (digits2_pos m) + Zpos n + e) = e + Zpos n ->
  binary_round_aux prec emax s (Zpos (m * 2 ^ n)) e loc_Exact =
  if e + Zpos n <=? emax - prec then S754_finite s m (e + Zpos n)
  else S754_infinity s.
Proof.
  intro Hf. unfold binary_round_aux, shr_fexp at 1.
  unfold Zdigits2. rewrite digits2_pos_xO_iter, Pos2Z.inj_add, Hf.
  replace (e + Zpos n - e) with (Zpos n) by lia.
  unfold shr, shr_record_of_loc. fold (exact_record (m * 2 ^ n)).
  rewrite iter_shr_1_exact. simpl shr_m. simpl loc_of_shr_record.
  unfold round_nearest_even, shr_fexp, Zdigits2.
  replace (Zpos (digits2_pos m) + (e + Zpos n))
    with (Zpos (digits2_pos m) + Zpos n + e) by lia.
  rewrite Hf, Z.sub_diag. reflexivity.
Qed.

Lemma binary_round_aux_keep (s : bool) (m : positive) (e : Z) :
  fexp prec emax (Zpos (digits2_pos m) + e) <= e ->
  binary_round_aux prec emax s (Zpos m) e loc_Exact =
  if e <=? emax - prec then S754_finite s m e else S754_infinity s.
Proof.
  intro Hf.
  assert (Hs : shr_fexp prec emax (Zpos m) e loc_Exact = (exact_record m, e)).
  { unfold shr_fexp, Zdigits2, shr.
    destruct (fexp prec emax (Zpos (digits2_pos m) + e) - e) eqn:E;
      try lia; reflexivity. }
  unfold binary_round_aux. rewrite Hs. cbn [exact_record shr_m loc_of_shr_record round_nearest_even].
  rewrite Hs. reflexivity.
Qed.

Lemma binary_round_shl (s : bool) (m : positive) (e : Z) (n : positive) :
  fexp prec emax (Zpos (digits2_pos m) + e) = e - Zpos n ->
  binary_round prec emax s m e =
  if e - Zpos n <=? emax - prec then S754_finite s (m * 2 ^ n) (e - Zpos n)
  else S754_infinity s.
Proof.
  intro Hf. unfold binary_round, shl_align. rewrite Hf.
  replace (e - Zpos n - e) with (Zneg n) by lia.
  rewrite iter_xO_pow. apply binary_round_aux_keep.
  rewrite digits2_pos_xO_iter, Pos2Z.inj_add.
  replace (Zpos (digits2_pos m) + Zpos n + (e - Zpos n))
    with (Zpos (digits2_pos m) + e) by lia.
  lia.
Qed.

Lemma binary_round_shr (s : bool) (m : positive) (e : Z) (n : positive) :
  fexp prec emax (Zpos (digits2_pos m) + Zpos n + e) = e + Zpos n ->
  binary_round prec emax s (m * 2 ^ n) e =
  if e + Zpos n <=? emax - prec then S754_finite s m (e + Zpos n)
  else S754_infinity s.
Proof.
  intro Hf. unfold binary_round, shl_align.
  rewrite digits2_pos_xO_iter, Pos2Z.inj_add, Hf.
  replace (e + Zpos n - e) with (Zpos n) by lia.
  apply binary_round_aux_shift; assumption.
Qed.

Lemma binary_round_keep (s : bool) (m : positive) (e : Z) :
  fexp prec emax (Zpos (digits2_pos m) + e) = e ->
  binary_round prec emax s m e =
  if e <=? emax - prec then S754_finite s m e else S754_infinity s.
Proof.
  intro Hf. unfold binary_round, shl_align. rewrite Hf, Z.sub_diag.
  apply binary_round_aux_keep. lia.
Qed.
End Exact.

Lemma digits2_pos_bounds (p : positive) :
  2 ^ (Zpos (digits2_pos p) - 1) <= Zpos p < 2 ^ Zpos (digits2_pos p).
Proof.
  rewrite digits2_pos_size. split.
  - pose proof (Pos.size_le p) as H.
    assert (H' : 2 ^ Zpos (Pos.size p) <= 2 * Zpos p) by lia.
    replace (Zpos (Pos.size p)) with (Z.succ (Zpos (Pos.size p) - 1)) in H' by lia.
    rewrite Z.pow_succ_r in H' by lia. lia.
  - pose proof (Pos.size_gt p). lia.
Qed.

Lemma digits2_pos_le (p : positive) (k : Z) :
  Zpos p < 2 ^ k -> Zpos (digits2_pos p) <= k.
Proof.
  intro H. destruct (Z_le_gt_dec (Zpos (digits2_pos p)) k) as [|G]; [assumption|].
  pose proof (digits2_pos_bounds p) as [L _].
  assert (0 <= k) by (destruct k; try lia; simpl in H; lia).
  assert (2 ^ k <= 2 ^ (Zpos (digits2_pos p) - 1)) by (apply Z.pow_le_mono_r; lia).
  lia.
Qed.

(** An integer of at most 24 bits converts to [float] exactly: the mantissa
    is the integer shifted to 24 bits. *)
Lemma F32_of_Z_24 (p : positive) :
  Zpos p < 2 ^ 24 ->
  exists (P : positive) (E : Z),
    F32.of_Z (Zpos p) = S754_finite false P E /\
    digits2_pos P = 24%positive /\ -24 < E <= 0 /\
    Zpos P = Zpos p * 2 ^ (- E).
Proof.
  intro Hp. pose proof (digits2_pos_le p 24 Hp) as Hd.
  unfold F32.of_Z, binary_normalize.
  destruct (Z.eq_dec (Zpos (digits2_pos p)) 24) as [E24 | N24].
  - exists p, 0. rewrite binary_round_keep.
    + repeat split; try reflexivity; try lia.
    + rewrite E24. reflexivity.
  - remember (Z.to_pos (24 - Zpos (digits2_pos p))) as n eqn:En.
    assert (Hn : Zpos n = 24 - Zpos (digits2_pos p)) by lia.
    exists (p * 2 ^ n)%positive, (0 - Zpos n).
    rewrite (binary_round_shl F32.prec F32.emax false p 0 n).
    + unfold F32.emax, F32.prec.
      replace (0 - Zpos n <=? 128 - 24) with true by (symmetry; apply Z.leb_le; lia).
      repeat split; try lia.
      all: try (rewrite digits2_pos_xO_iter; lia).
      all: rewrite Pos2Z.inj_mul, Pos2Z.inj_pow; f_equal; f_equal; lia.
    + unfold fexp, emin, F32.prec, F32.emax. lia.
Qed.

Lemma inv_2_24_eq : inv_2_24 = S754_finite false (1 * 2 ^ 23) (-47).
Proof. reflexivity. Qed.

Lemma F32_mul_inv_2_24 (P : positive) (E : Z) :
  digits2_pos P = 24%positive -> -24 < E <= 0 ->
  F32.mul (S754_finite false P E) inv_2_24 = S754_finite false P (E - 24).
Proof.
  intros HP HE. rewrite inv_2_24_eq. unfold F32.mul, SFmul.
  change (xorb false false) with false.
  replace (P * (1 * 2 ^ 23))%positive with (P * 2 ^ 23)%positive by lia.
  rewrite binary_round_aux_shift.
  - replace (E + -47 + 23) with (E - 24) by lia.
    replace (E - 24 <=? F32.emax - F32.prec) with true; [reflexivity|].
    symmetry; apply Z.leb_le. unfold F32.emax, F32.prec. lia.
  - rewrite HP. unfold fexp, emin, F32.prec, F32.emax. lia.
Qed.

Lemma SF2Q_neg_exp (s : bool) (m : positive) (e : Z) :
  e < 0 -> SF2Q (S754_finite s m e) = Qmake (cond_Zopp s (Zpos m)) (Z.to_pos (2 ^ (- e))).
Proof.
  intro He. destruct e as [|q|q]; try lia. simpl SF2Q. f_equal.
  change (- Zneg q) with (Zpos q). rewrite <- Pos2Z.inj_pow. reflexivity.
Qed.

(** The value [Random] computes from the 24 high bits [m] of the state. *)
Lemma Random_value (m : Z) :
  0 <= m < 2 ^ 24 ->
  let r := F32.mul (F32.of_Z m) inv_2_24 in
  is_finite r = true /\ sign_clear r = true /\
  (SF2Q r == m # 2 ^ 24)%Q /\
  F32.ltb r (F32.of_Z 1) = true /\ F32.ltb r (F32.of_Z 0) = false.
Proof.
  intros Hm r. subst r. destruct m as [|p|p]; try lia.
  - repeat split; reflexivity.
  - destruct (F32_of_Z_24 p) as (P & E & -> & HP & HE & HPp); [lia|].
    rewrite F32_mul_inv_2_24 by assumption.
    repeat split; try reflexivity.
    + rewrite SF2Q_neg_exp by lia. unfold Qeq. cbn [Qnum Qden cond_Zopp].
      rewrite Z2Pos.id by (apply Z.pow_pos_nonneg; lia).
      rewrite HPp. replace (- (E - 24)) with (- E + 24) by lia.
      rewrite Z.pow_add_r by lia. change (Zpos (2 ^ 24)) with (2 ^ 24). ring.
    + change (F32.of_Z 1) with (S754_finite false 8388608 (-23)).
      unfold F32.ltb, SFltb, SFcompare.
      replace (E - 24 ?= -23) with Lt; [reflexivity|].
      symmetry; apply Z.compare_lt_iff; lia.
Qed.

Lemma Seed_after_S (k : nat) (s : Z) :
  Seed_after (S k) s = fst (Random (Seed_after k s)).
Proof.
  revert s; induction k as [|k IH]; intro s; [reflexivity|].
  change (Seed_after (S (S k)) s) with (Seed_after (S k) (fst (Random s))).
  rewrite IH. reflexivity.
Qed.

Lemma Random_high_bits (s : Z) :
  0 <= Z.shiftr (fst (Random s)) 8 < 2 ^ 24.
Proof.
  unfold Random, fst. rewrite Z.shiftr_div_pow2 by lia.
  pose proof (Z.mod_pos_bound (1664525 * s + 1013904223) (2 ^ 32) ltac:(lia)).
  split.
  - apply Z.div_pos; lia.
  - apply Z.div_lt_upper_bound; lia.
Qed.

(** C5.  A call of [Random] replaces the state [s] by
    [(1664525 * s + 1013904223) mod 2^32] and returns a finite [float]
    whose value is exactly [(newState >> 8) / 2^24], which is in [0, 1)
    (as a real number and for the [float] comparison); hence the state and
    the value of every later call are fixed by the seed through the same
    recurrence. *)
Theorem Random_spec (s : Z) :
  let s' := fst (Random s) in
  let r := snd (Random s) in
  s' = (1664525 * s + 1013904223) mod 2 ^ 32 /\
  is_finite r = true /\
  (SF2Q r == Z.shiftr s' 8 # 2 ^ 24)%Q /\
  (0 <= SF2Q r)%Q /\ (SF2Q r < 1)%Q /\
  F32.ltb r (F32.of_Z 0) = false /\ F32.ltb r (F32.of_Z 1) = true /\
  forall k : nat,
    Seed_after (S k) s = (1664525 * Seed_after k s + 1013904223) mod 2 ^ 32 /\
    (SF2Q (draw k s) == Z.shiftr (Seed_after (S k) s) 8 # 2 ^ 24)%Q.
Proof.
  assert (V : forall t, is_finite (snd (Random t)) = true /\
                        (SF2Q (snd (Random t)) == Z.shiftr (fst (Random t)) 8 # 2 ^ 24)%Q /\
                        F32.ltb (snd (Random t)) (F32.of_Z 0) = false /\
                        F32.ltb (snd (Random t)) (F32.of_Z 1) = true).
  { intro t. pose proof (Random_high_bits t) as Hb.
    destruct (Random_value _ Hb) as (F & _ & Q & L1 & L0).
    repeat split; assumption. }
  intros s' r. subst s' r.
  destruct (V s) as (F & Q & L0 & L1).
  pose proof (Random_high_bits s) as Hb.
  split; [reflexivity|]. split; [exact F|]. split; [exact Q|].
  split; [|split].
  - rewrite Q. unfold Qle; cbn [Qnum Qden]. lia.
  - rewrite Q. unfold Qlt; cbn [Qnum Qden].
    change (Zpos (2 ^ 24)) with (2 ^ 24). lia.
  - split; [exact L0|]. split; [exact L1|].
    intro k. rewrite Seed_after_S. split; [reflexivity|].
    unfold draw. apply V.
Qed.

(** ** The key table *)

Lemma strchr_absent (s : list ascii) (c : ascii) :
  ~ In c s -> strchr s c = None.
Proof.
  induction s as [|x s IH]; intro H; [reflexivity|]. simpl.
  destruct (Ascii.eqb_spec x c) as [->|_].
  - exfalso; apply H; left; reflexivity.
  - destruct (Ascii.eqb x NUL); [reflexivity|].
    rewrite IH; [reflexivity|]. intro; apply H; right; assumption.
Qed.

(** C2.  The symbol at position [i] of the alphabet maps to
    [(lowGroup[i mod 4], highGroup[i / 4])] with
    lowGroup = {1209, 1336, 1477, 1633} and
    highGroup = {697, 770, 852, 941}. *)
Theorem ConvertKeyToFrequencies_alphabet (i : nat) :
  (i < 16)%nat ->
  exists Key lo hi,
    nth_error alphabet i = Some Key /\
    nth_error (map F32.of_Z [1209; 1336; 1477; 1633]) (i mod 4) = Some lo /\
    nth_error (map F32.of_Z [697; 770; 852; 941]) (i / 4) = Some hi /\
    ConvertKeyToFrequencies Key =
      Some {| Frequency0 := lo; Frequency1 := hi |}.
Proof.
  intro Hi.
  do 16 (destruct i as [|i];
         [do 3 eexists; repeat split; reflexivity|]).
  lia.
Qed.

Lemma ConvertKeyToFrequencies_alphabet_witness :
  exists Key lo hi,
    nth_error alphabet 7 = Some Key /\
    nth_error (map F32.of_Z [1209; 1336; 1477; 1633]) (7 mod 4) = Some lo /\
    nth_error (map F32.of_Z [697; 770; 852; 941]) (7 / 4) = Some hi /\
    ConvertKeyToFrequencies Key =
      Some {| Frequency0 := lo; Frequency1 := hi |}.
Proof. apply (ConvertKeyToFrequencies_alphabet 7). lia. Defined.

(** C3, as stated, fails: for the character [x], which is not in the
    alphabet, the lookup returns the pair of zero frequencies. *)
Lemma ConvertKeyToFrequencies_unknown_is_zero_pair :
  ~ In "x"%char alphabet /\
  ConvertKeyToFrequencies "x" =
    Some {| Frequency0 := F32.of_Z 0; Frequency1 := F32.of_Z 0 |}.
Proof.
  split; [|reflexivity].
  cbv [alphabet list_ascii_of_string In].
  intro H. repeat (destruct H as [H|H]; [discriminate H|]). exact H.
Qed.

Lemma valid_alphabet (Key : ascii) :
  In Key alphabet ->
  exists F, ConvertKeyToFrequencies Key = Some F /\ is_valid_key F = true /\
            F <> zero_pair.
Proof.
  cbv [alphabet list_ascii_of_string In]. intro H.
  repeat (destruct H as [<-|H];
          [eexists; split; [reflexivity|split; [reflexivity|discriminate]]|]).
  destruct H.
Qed.

(** C3, amended.  For a character that is neither in the alphabet nor NUL
    the lookup returns the pair (0, 0); the caller's test
    [Frequency[0] != 0] rejects it and accepts the pair of every symbol of
    the alphabet, none of which is (0, 0). *)
Theorem ConvertKeyToFrequencies_unknown (Key : ascii) :
  ~ In Key alphabet -> Key <> NUL ->
  ConvertKeyToFrequencies Key = Some zero_pair /\
  is_valid_key zero_pair = false /\
  forall Key', In Key' alphabet ->
    exists F, ConvertKeyToFrequencies Key' = Some F /\
              is_valid_key F = true /\ F <> zero_pair.
Proof.
  intros Hnot Hnul. split; [|split; [reflexivity|exact valid_alphabet]].
  unfold ConvertKeyToFrequencies. rewrite strchr_absent; [reflexivity|].
  unfold Keys. fold alphabet. intro H. apply in_app_or in H.
  destruct H as [H|[H|[]]]; [exact (Hnot H)|]. apply Hnul; symmetry; exact H.
Qed.

Lemma ConvertKeyToFrequencies_unknown_witness :
  ConvertKeyToFrequencies "x" = Some zero_pair /\
  is_valid_key zero_pair = false /\
  forall Key', In Key' alphabet ->
    exists F, ConvertKeyToFrequencies Key' = Some F /\
              is_valid_key F = true /\ F <> zero_pair.
Proof.
  apply (ConvertKeyToFrequencies_unknown "x").
  - cbv [alphabet list_ascii_of_string In].
    intro H. repeat (destruct H as [H|H]; [discriminate H|]). exact H.
  - discriminate.
Defined.




(** ** The order of the comparison [<] on floats *)

Lemma SFcompare_lex (x y : spec_float) :
  is_nan x = false -> is_nan y = false ->
  match SFcompare x y with
  | Some Lt => lex_lt (SFkey x) (SFkey y)
  | Some Eq => SFkey x = SFkey y
  | Some Gt => lex_lt (SFkey y) (SFkey x)
  | None => False
  end.
Proof.
  destruct x as [sx|sx| |sx mx ex], y as [sy|sy| |sy my ey];
    try discriminate; intros _ _;
    try (destruct sx, sy; cbn; first [reflexivity | lia]);
    try (destruct sx; cbn; first [reflexivity | lia]);
    try (destruct sy; cbn; first [reflexivity | lia]).
  unfold SFcompare.
  change (Pos.compare_cont Eq mx my) with (Pos.compare mx my).
  destruct sx, sy; cbn [SFkey lex_lt]; try lia;
    destruct (Z.compare_spec ex ey); try lia;
    destruct (Pos.compare_spec mx my); cbn [CompOpp]; subst;
    try reflexivity; lia.
Qed.

Lemma SFltb_lex (x y : spec_float) :
  SFltb x y = true <->
  is_nan x = false /\ is_nan y = false /\ lex_lt (SFkey x) (SFkey y).
Proof.
  unfold SFltb. split.
  - intro H.
    assert (Nx : is_nan x = false) by (destruct x; try reflexivity; discriminate H).
    assert (Ny : is_nan y = false) by (destruct x, y; try reflexivity; discriminate H).
    pose proof (SFcompare_lex x y Nx Ny) as C.
    destruct (SFcompare x y) as [[]|]; try discriminate H. auto.
  - intros (Nx & Ny & L). pose proof (SFcompare_lex x y Nx Ny) as C.
    destruct (SFcompare x y) as [[]|]; try reflexivity; try contradiction;
      exfalso; destruct (SFkey x) as [[? ?] ?], (SFkey y) as [[? ?] ?];
      cbn [lex_lt] in *; try (injection C as -> -> ->); lia.
Qed.

Lemma SFleb_lex (x y : spec_float) :
  SFleb x y = true <->
  is_nan x = false /\ is_nan y = false /\
  (lex_lt (SFkey x) (SFkey y) \/ SFkey x = SFkey y).
Proof.
  unfold SFleb. split.
  - intro H.
    assert (Nx : is_nan x = false) by (destruct x; try reflexivity; discriminate H).
    assert (Ny : is_nan y = false) by (destruct x, y; try reflexivity; discriminate H).
    pose proof (SFcompare_lex x y Nx Ny) as C.
    destruct (SFcompare x y) as [[]|]; try discriminate H; auto.
  - intros (Nx & Ny & L). pose proof (SFcompare_lex x y Nx Ny) as C.
    destruct (SFcompare x y) as [[]|]; try reflexivity; try contradiction.
    exfalso; destruct (SFkey x) as [[? ?] ?], (SFkey y) as [[? ?] ?];
      cbn [lex_lt] in *. destruct L as [L|L]; [lia|]. injection L as -> -> ->. lia.
Qed.

Lemma lex_lt_trans a b c : lex_lt a b -> lex_lt b c -> lex_lt a c.
Proof.
  destruct a as [[? ?] ?], b as [[? ?] ?], c as [[? ?] ?]; cbn [lex_lt]; lia.
Qed.

Lemma lex_lt_irrefl a : ~ lex_lt a a.
Proof. destruct a as [[? ?] ?]; cbn [lex_lt]; lia. Qed.

Lemma lex_total a b : lex_lt a b \/ a = b \/ lex_lt b a.
Proof.
  destruct a as [[a1 a2] a3], b as [[b1 b2] b3]; cbn [lex_lt].
  destruct (Z.lt_total a1 b1) as [|[|]]; try lia.
  destruct (Z.lt_total a2 b2) as [|[|]]; try lia.
  destruct (Z.lt_total a3 b3) as [|[|]]; try lia.
  subst. auto.
Qed.

Lemma F32_ltb_trans x y z :
  F32.ltb x y = true -> F32.ltb y z = true -> F32.ltb x z = true.
Proof.
  unfold F32.ltb. rewrite !SFltb_lex. intros (? & ? & ?) (? & ? & ?).
  eauto using lex_lt_trans.
Qed.

Lemma F32_ltb_leb_trans x y z :
  F32.ltb x y = true -> SFleb y z = true -> F32.ltb x z = true.
Proof.
  unfold F32.ltb. rewrite !SFltb_lex, SFleb_lex.
  intros (? & ? & ?) (? & ? & [?|E]); repeat split; auto.
  - eauto using lex_lt_trans.
  - rewrite <- E. assumption.
Qed.

Lemma F32_ltb_irrefl x : F32.ltb x x = false.
Proof.
  destruct (F32.ltb x x) eqn:E; [|reflexivity].
  apply SFltb_lex in E. destruct E as (_ & _ & L).
  destruct (lex_lt_irrefl _ L).
Qed.

Lemma F32_not_ltb_leb x y :
  is_nan x = false -> is_nan y = false ->
  F32.ltb x y = false -> SFleb y x = true.
Proof.
  intros Nx Ny H. apply SFleb_lex. repeat split; auto.
  destruct (lex_total (SFkey y) (SFkey x)) as [|[|L]]; auto.
  assert (F32.ltb x y = true) by (apply SFltb_lex; auto). congruence.
Qed.

Lemma F32_not_leb_ltb x y :
  is_nan x = false -> is_nan y = false ->
  SFleb x y = false -> F32.ltb y x = true.
Proof.
  intros Nx Ny H. apply SFltb_lex. repeat split; auto.
  destruct (lex_total (SFkey y) (SFkey x)) as [|[E|L]]; auto;
    assert (SFleb x y = true) by (apply SFleb_lex; auto); congruence.
Qed.

(** ** Signs *)

Lemma binary_round_aux_signed prec emax s m e l :
  signed_as s (binary_round_aux prec emax s m e l).
Proof.
  unfold binary_round_aux.
  destruct (shr_fexp prec emax m e l) as [mrs' e'].
  destruct (shr_fexp prec emax _ e' loc_Exact) as [mrs'' e''].
  destruct (shr_m mrs''); [reflexivity | | exact I].
  destruct (e'' <=? emax - prec); reflexivity.
Qed.

Lemma binary_round_signed prec emax s m e :
  signed_as s (binary_round prec emax s m e).
Proof.
  unfold binary_round. destruct (shl_align _ _ _) as [mz ez].
  apply binary_round_aux_signed.
Qed.

Lemma SFmul_signed prec emax s x y :
  signed_as s x -> signed_as false y -> signed_as s (SFmul prec emax x y).
Proof.
  destruct x as [sx|sx| |sx mx ex], y as [sy|sy| |sy my ey];
    cbn [signed_as SFmul]; intros; subst; trivial;
    try (destruct s; reflexivity).
  rewrite xorb_false_r. apply binary_round_aux_signed.
Qed.

Lemma SFmul_self_signed prec emax x : signed_as false (SFmul prec emax x x).
Proof.
  destruct x as [s|s| |s m e]; cbn [signed_as SFmul];
    try (destruct s; reflexivity); trivial.
  rewrite xorb_nilpotent. apply binary_round_aux_signed.
Qed.

Lemma SFdiv_signed prec emax s x y :
  signed_as s x -> signed_as false y -> signed_as s (SFdiv prec emax x y).
Proof.
  destruct x as [sx|sx| |sx mx ex], y as [sy|sy| |sy my ey];
    cbn [signed_as SFdiv]; intros; subst; trivial;
    try (destruct s; reflexivity).
  rewrite xorb_false_r.
  destruct (SFdiv_core_binary _ _ _ _ _ _) as [[mz ez] lz].
  apply binary_round_aux_signed.
Qed.

Lemma SFadd_signed prec emax x y :
  signed_as false x -> signed_as false y ->
  signed_as false (SFadd prec emax x y).
Proof.
  destruct x as [sx|sx| |sx mx ex], y as [sy|sy| |sy my ey];
    cbn [signed_as]; intros Hx Hy; subst; try exact I; try reflexivity.
  unfold SFadd. cbn [cond_Zopp Z.add binary_normalize].
  apply binary_round_signed.
Qed.

Lemma amplitude2_signed (re im : float32) :
  signed_as false (amplitude2 re im).
Proof.
  unfold amplitude2, F32.add, F32.mul.
  apply SFadd_signed; apply SFmul_self_signed.
Qed.

Lemma minus_one_below (x : float32) :
  signed_as false x -> is_nan x = false ->
  F32.ltb (F32.of_Z (-1)) x = true.
Proof.
  destruct x as [s|s| |s m e]; cbn [signed_as is_nan]; intros; subst;
    try discriminate; reflexivity.
Qed.

Lemma ltb_nan_r (x : float32) : F32.ltb x S754_nan = false.
Proof. destruct x; reflexivity. Qed.

Lemma leb_nan_r (x : float32) : SFleb x S754_nan = false.
Proof. destruct x; reflexivity. Qed.

Lemma is_nan_true (x : spec_float) : is_nan x = true -> x = S754_nan.
Proof. destruct x; try discriminate; reflexivity. Qed.

(** ** The loop of [FindTone] *)

Lemma firstn_snoc {A} (l : list A) (k : nat) (x : A) :
  nth_error l k = Some x -> firstn (S k) l = firstn k l ++ [x].
Proof.
  revert k; induction l as [|y l IH]; intros [|k] H; try discriminate.
  - injection H as ->. reflexivity.
  - cbn [firstn app]. f_equal. apply IH. exact H.
Qed.

Section FindTone.
Variable Buffer : DSPSplitComplex.
Variable Frequencies : list float32.

Local Abbreviation cs := (candidate_score Buffer Frequencies).
Local Abbreviation Inv := (FindTone_inv Buffer Frequencies).

Lemma FindTone_body_inv (k : nat) (st : ToneState) :
  Inv k st -> cs k <> None ->
  exists st', FindTone_body Buffer Frequencies (Z.of_nat k) st = Some st' /\
              Inv (S k) st'.
Proof.
  intros (Hmax & Hidx & Hread) Hk.
  unfold candidate_score in Hk.
  destruct (nth_error Frequencies k) as [f|] eqn:Ef; [|congruence].
  unfold score in Hk.
  destruct (bin_index f) as [index|] eqn:Eb; [|congruence].
  destruct (load (realp Buffer) index) as [re|] eqn:Ere; [|congruence].
  destruct (load (imagp Buffer) index) as [im|] eqn:Eim; [|congruence].
  assert (Ecs : cs k = Some (amplitude2 re im)).
  { unfold candidate_score, score. rewrite Ef, Eb, Ere, Eim. reflexivity. }
  assert (Hread' : Forall2 (fun f index => bin_index f = Some index)
                     (firstn (S k) Frequencies) (bins_read st ++ [index])).
  { rewrite (firstn_snoc _ _ _ Ef). apply Forall2_app; [exact Hread|].
    constructor; [exact Eb | constructor]. }
  unfold FindTone_body.
  replace (Z.of_nat k <? 0) with false by (symmetry; apply Z.ltb_ge; lia).
  rewrite Nat2Z.id, Ef, Eb, Ere, Eim.
  destruct (F32.ltb (MaximumValue st) (amplitude2 re im)) eqn:Elt;
    eexists; (split; [reflexivity|]); (split; [|split]);
    cbn [MaximumValue MaximumIndex bins_read]; try exact Hread'.
  - intros j v Hj Ej.
    destruct (Nat.eq_dec j k) as [->|Hne].
    + rewrite Ecs in Ej. injection Ej as <-. apply F32_ltb_irrefl.
    + destruct (F32.ltb (amplitude2 re im) v) eqn:E; [|reflexivity].
      pose proof (F32_ltb_trans _ _ _ Elt E) as T.
      rewrite (Hmax j v ltac:(lia) Ej) in T. discriminate.
  - right. exists k. repeat split; try lia; try exact Ecs.
    intros j v Hj Ej. destruct (SFleb (amplitude2 re im) v) eqn:E; [|reflexivity].
    pose proof (F32_ltb_leb_trans _ _ _ Elt E) as T.
    rewrite (Hmax j v Hj Ej) in T. discriminate.
  - intros j v Hj Ej.
    destruct (Nat.eq_dec j k) as [->|Hne].
    + rewrite Ecs in Ej. injection Ej as <-. exact Elt.
    + apply (Hmax j v); [lia | exact Ej].
  - destruct Hidx as [H0 | (m & Hm & Hi & Hv & Hlow)]; [left; exact H0|].
    right. exists m. repeat split; try lia; assumption.
Qed.

Lemma FindTone_loop_inv (n k : nat) (st : ToneState) :
  Inv k st ->
  (forall j, (k <= j < k + n)%nat -> cs j <> None) ->
  exists st', FindTone_loop Buffer Frequencies n (Z.of_nat k) st = Some st' /\
              Inv (k + n) st'.
Proof.
  revert k st; induction n as [|n IH]; intros k st Hinv Hdef.
  - exists st. rewrite Nat.add_0_r. split; [reflexivity | exact Hinv].
  - destruct (FindTone_body_inv k st Hinv) as (st1 & E1 & Hinv1).
    { apply Hdef; lia. }
    destruct (IH (S k) st1 Hinv1) as (st' & E' & Hinv').
    { intros j Hj; apply Hdef; lia. }
    exists st'. cbn [FindTone_loop]. rewrite E1.
    replace (Z.of_nat k + 1) with (Z.of_nat (S k)) by lia.
    rewrite E'. split; [reflexivity|].
    replace (k + S n)%nat with (S k + n)%nat by lia. exact Hinv'.
Qed.

Lemma FindTone_run_inv (n : nat) :
  (forall j, (j < n)%nat -> cs j <> None) ->
  exists st, FindTone_run Buffer Frequencies (Z.of_nat n) = Some st /\
             Inv n st.
Proof.
  intro Hdef. unfold FindTone_run. rewrite Nat2Z.id.
  apply (FindTone_loop_inv n 0).
  - split; [|split].
    + intros j v Hj; lia.
    + left; split; reflexivity.
    + rewrite firstn_O. constructor.
  - intros j Hj; apply Hdef; lia.
Qed.
End FindTone.

Lemma candidate_score_signed Buffer Frequencies j v :
  candidate_score Buffer Frequencies j = Some v -> signed_as false v.
Proof.
  unfold candidate_score, score.
  destruct (nth_error Frequencies j) as [f|]; [|discriminate].
  destruct (bin_index f) as [index|]; [|discriminate].
  destruct (load (realp Buffer) index) as [re|]; [|discriminate].
  destruct (load (imagp Buffer) index) as [im|]; [|discriminate].
  intro H; injection H as <-. apply amplitude2_signed.
Qed.

Lemma candidate_score_In Buffer Frequencies j :
  (forall f, In f Frequencies -> score Buffer f <> None) ->
  (j < List.length Frequencies)%nat ->
  candidate_score Buffer Frequencies j <> None.
Proof.
  intros H Hj. unfold candidate_score.
  destruct (nth_error Frequencies j) as [f|] eqn:E.
  - apply H. eapply nth_error_In; eassumption.
  - apply nth_error_None in E. lia.
Qed.

(** ** Truncation and floor *)

Lemma to_int_floor (x : float64) (n : Z) :
  signed_as false x -> F64.to_int x = Some n -> n = Qfloor (SF2Q x).
Proof.
  destruct x as [s|s| |s m e]; cbn [signed_as F64.to_int]; intros Hs H;
    try discriminate.
  - injection H as <-. reflexivity.
  - subst s. cbn [cond_Zopp] in H.
    destruct (_ && _) in H; [|discriminate]. injection H as <-.
    destruct e as [|p|p]; cbn [SF2Q cond_Zopp].
    + rewrite Qfloor_Z. reflexivity.
    + rewrite Qfloor_Z. reflexivity.
    + cbn [Qfloor]. rewrite Pos2Z.inj_pow_pos. reflexivity.
Qed.

Lemma bin_sum_signed (f : float32) :
  signed_as false f -> signed_as false (bin_sum f).
Proof.
  intro Hf. unfold bin_sum, F64.add. apply SFadd_signed; [|reflexivity].
  assert (Hs : signed_as false (scaled f)).
  { unfold scaled, F32.mul, F32.div.
    apply SFmul_signed; [|reflexivity]. apply SFdiv_signed; [exact Hf|reflexivity]. }
  unfold F64.of_f32. destruct (scaled f); try exact Hs.
  cbn [signed_as] in Hs. subst. apply binary_round_signed.
Qed.

Lemma bin_index_floor (f : float32) (index : Z) :
  F32.ltb f (F32.of_Z 0) = false -> bin_index f = Some index ->
  index = bin_floor f.
Proof.
  intros Hf H.
  destruct f as [s|s| |s m e].
  - destruct s; vm_compute in H; injection H as <-; reflexivity.
  - destruct s; discriminate.
  - discriminate.
  - destruct s; [discriminate|].
    apply to_int_floor; [|exact H]. apply bin_sum_signed. reflexivity.
Qed.

Lemma readable_spec_score (Buffer : DSPSplitComplex)
    (Frequencies : list float32) (j : nat) :
  readable Buffer Frequencies j ->
  (forall f, In f Frequencies -> F32.ltb f (F32.of_Z 0) = false) ->
  exists f v,
    nth_error Frequencies j = Some f /\
    bin_index f = Some (spec_bin f) /\
    candidate_score Buffer Frequencies j = Some v /\
    spec_candidate_score Buffer Frequencies j = Some v.
Proof.
  intros (f & index & re & im & Ef & Eb & Er & Ei) Hpos.
  assert (Hi : index = spec_bin f).
  { apply (bin_index_floor f index); [|exact Eb].
    apply Hpos. eapply nth_error_In; eassumption. }
  subst index. exists f, (amplitude2 re im).
  split; [exact Ef|]. split; [exact Eb|].
  unfold candidate_score, spec_candidate_score, score, spec_score.
  rewrite Ef, Eb, Er, Ei. split; reflexivity.
Qed.

Lemma FindTone_body_not_nan (Buffer : DSPSplitComplex)
    (Frequencies : list float32) (i : Z) (st st' : ToneState) :
  FindTone_body Buffer Frequencies i st = Some st' ->
  is_nan (MaximumValue st) = false -> is_nan (MaximumValue st') = false.
Proof.
  unfold FindTone_body. destruct (i <? 0); [discriminate|].
  destruct (nth_error Frequencies (Z.to_nat i)) as [f|]; [|discriminate].
  destruct (bin_index f) as [index|]; [|discriminate].
  destruct (load (realp Buffer) index) as [re|]; [|discriminate].
  destruct (load (imagp Buffer) index) as [im|]; [|discriminate].
  destruct (F32.ltb (MaximumValue st) (amplitude2 re im)) eqn:E;
    intro H; injection H as <-; cbn [MaximumValue]; intro Hn; [|exact Hn].
  destruct (amplitude2 re im); try reflexivity.
  rewrite ltb_nan_r in E. discriminate.
Qed.

Lemma FindTone_loop_not_nan (Buffer : DSPSplitComplex)
    (Frequencies : list float32) (n : nat) (i : Z) (st st' : ToneState) :
  FindTone_loop Buffer Frequencies n i st = Some st' ->
  is_nan (MaximumValue st) = false -> is_nan (MaximumValue st') = false.
Proof.
  revert i st; induction n as [|n IH]; intros i st; cbn [FindTone_loop].
  - intro H; injection H as <-. auto.
  - destruct (FindTone_body Buffer Frequencies i st) as [st1|] eqn:E1;
      [|discriminate].
    intros H Hn. apply (IH _ _ H).
    apply (FindTone_body_not_nan _ _ _ _ _ E1 Hn).
Qed.

(** C1 as stated fails in three ways.  On the buffer of [Demonstrate] the
    bin of the candidate 1633 Hz of [DTMF0] cannot be read and the
    behaviour is undefined: no index is returned.  On a buffer of NaNs
    the index returned is 0, whose score is neither greater than nor equal
    to that of candidate 1.  For the candidate -8 Hz the sum is about
    -0.127, whose floor is -1, and the code reads bin 0. *)
Lemma FindTone_not_as_stated :
  (FindTone ones_buffer DTMF0 (Z.of_nat (List.length DTMF0)) = None /\
   spec_bin (F32.of_Z 1633) = 128 /\
   load (imagp ones_buffer) 128 = None) /\
  (FindTone nan_buffer DTMF1 (Z.of_nat (List.length DTMF1)) = Some 0 /\
   spec_candidate_score nan_buffer DTMF1 0 = Some S754_nan /\
   spec_candidate_score nan_buffer DTMF1 1 = Some S754_nan /\
   F32.ltb S754_nan S754_nan = false /\ F32.eqb S754_nan S754_nan = false) /\
  (option_map bins_read
     (FindTone_run flat_buffer [F32.of_Z (-8)] 1) = Some [0] /\
   spec_bin (F32.of_Z (-8)) = -1).
Proof. vm_compute. repeat split. Qed.

(** C1, amended.  For a non-empty list of candidate frequencies, none
    negative, whose bins can all be read, [FindTone] reads for each
    candidate [f] the bin [floor (f / SamplingFrequency * SampleLength +
    0.5)] of the specification, scores it [re*re + im*im] with [(re, im)]
    read at that bin, and returns an index [k] of the list such that no
    candidate scores strictly more than candidate [k] and no earlier
    candidate scores as much (the lower index on equal scores).  When no
    score is NaN, candidate [k] has the greatest score: every score is at
    most that of [k] and every earlier one strictly less.  The score of the
    candidate returned is NaN only when every score is NaN, and the index
    returned is then 0. *)
Theorem FindTone_spec (Buffer : DSPSplitComplex) (Frequencies : list float32) :
  Frequencies <> [] ->
  (forall f, In f Frequencies -> F32.ltb f (F32.of_Z 0) = false) ->
  (forall j, (j < List.length Frequencies)%nat ->
             readable Buffer Frequencies j) ->
  let cs := spec_candidate_score Buffer Frequencies in
  exists (k : nat) (v : float32) (st : ToneState),
    FindTone_run Buffer Frequencies (Z.of_nat (List.length Frequencies))
      = Some st /\
    FindTone Buffer Frequencies (Z.of_nat (List.length Frequencies))
      = Some (Z.of_nat k) /\
    (k < List.length Frequencies)%nat /\
    bins_read st = map spec_bin Frequencies /\
    cs k = Some v /\
    (forall j vj, cs j = Some vj -> F32.ltb v vj = false) /\
    (forall j vj, (j < k)%nat -> cs j = Some vj -> SFleb v vj = false) /\
    ((forall j vj, cs j = Some vj -> is_nan vj = false) ->
     (forall j vj, cs j = Some vj -> SFleb vj v = true) /\
     (forall j vj, (j < k)%nat -> cs j = Some vj -> F32.ltb vj v = true)) /\
    (is_nan v = true ->
     k = 0%nat /\ forall j vj, cs j = Some vj -> is_nan vj = true).
Proof.
  intros Hne Hpos Hread cs.
  set (cs' := candidate_score Buffer Frequencies).
  assert (Hlen : forall j vj, cs j = Some vj ->
                              (j < List.length Frequencies)%nat).
  { intros j vj E. unfold cs, spec_candidate_score in E.
    destruct (nth_error Frequencies j) eqn:En; [|discriminate].
    apply nth_error_Some. congruence. }
  assert (Heq : forall j, (j < List.length Frequencies)%nat -> cs j = cs' j).
  { intros j Hj.
    destruct (readable_spec_score _ _ _ (Hread j Hj) Hpos)
      as (f & v & _ & _ & E1 & E2).
    unfold cs, cs'. congruence. }
  assert (Hcs : forall j, (j < List.length Frequencies)%nat -> cs' j <> None).
  { intros j Hj.
    destruct (readable_spec_score _ _ _ (Hread j Hj) Hpos)
      as (f & v & _ & _ & E1 & _).
    unfold cs'. congruence. }
  assert (Hcs' : forall j vj, cs j = Some vj -> cs' j = Some vj).
  { intros j vj E. rewrite <- Heq; [exact E | eapply Hlen; eassumption]. }
  destruct (FindTone_run_inv Buffer Frequencies _ Hcs)
    as (st & Erun & Hmax & Hidx & Hbins).
  rewrite firstn_all in Hbins.
  assert (Hb : bins_read st = map spec_bin Frequencies).
  { clear - Hbins Hread Hpos.
    assert (Hall : forall f, In f Frequencies ->
                             bin_index f <> None ->
                             bin_index f = Some (spec_bin f)).
    { intros f Hin Hd. destruct (bin_index f) as [index|] eqn:Eb;
        [|congruence].
      f_equal. apply (bin_index_floor f index); [apply Hpos; exact Hin|].
      exact Eb. }
    clear Hread Hpos. revert Hall.
    induction Hbins as [|f index l l' Hf _ IH]; intro Hall; [reflexivity|].
    cbn [map]. f_equal.
    - rewrite (Hall f) in Hf; [congruence | left; reflexivity | congruence].
    - apply IH. intros g Hg. apply Hall. right. exact Hg. }
  assert (Hnn : is_nan (MaximumValue st) = false).
  { unfold FindTone_run in Erun.
    apply (FindTone_loop_not_nan _ _ _ _ _ _ Erun). reflexivity. }
  assert (Hposn : (0 < List.length Frequencies)%nat)
    by (destruct Frequencies; [congruence | cbn; lia]).
  destruct Hidx as [(Hi & Hv) | (m & Hm & Hi & Hv & Hlow)].
  - (* no candidate exceeded the initial -1: every score is NaN *)
    assert (Hnan : forall j vj, cs j = Some vj -> vj = S754_nan).
    { intros j vj E. apply is_nan_true.
      destruct (is_nan vj) eqn:N; [reflexivity|].
      pose proof (minus_one_below vj
                    (candidate_score_signed _ _ _ _ (Hcs' _ _ E)) N) as L.
      rewrite <- Hv, (Hmax j vj (Hlen _ _ E) (Hcs' _ _ E)) in L.
      discriminate. }
    destruct (cs 0%nat) as [v|] eqn:E0.
    2:{ exfalso. apply (Hcs 0%nat Hposn). rewrite <- Heq by exact Hposn.
        exact E0. }
    exists 0%nat, v, st. unfold FindTone. rewrite Erun. cbn [option_map].
    rewrite Hi.
    split; [reflexivity|]. split; [reflexivity|]. split; [exact Hposn|].
    split; [exact Hb|]. split; [exact E0|].
    split; [|split; [|split]].
    + intros j vj E. rewrite (Hnan _ _ E). apply ltb_nan_r.
    + intros j vj Hj. lia.
    + intro Hn. specialize (Hn 0%nat v E0).
      rewrite (Hnan _ _ E0) in Hn. discriminate.
    + intros _. split; [reflexivity|].
      intros j vj E. rewrite (Hnan _ _ E). reflexivity.
  - exists m, (MaximumValue st), st. unfold FindTone. rewrite Erun.
    cbn [option_map]. rewrite Hi.
    split; [reflexivity|]. split; [reflexivity|]. split; [exact Hm|].
    split; [exact Hb|]. split; [rewrite Heq by exact Hm; exact Hv|].
    split; [|split; [|split]].
    + intros j vj E. apply (Hmax j vj); [eapply Hlen; eassumption|].
      apply Hcs'. exact E.
    + intros j vj Hj E. apply (Hlow j vj Hj). apply Hcs'. exact E.
    + intro Hn. split.
      * intros j vj E.
        apply F32_not_ltb_leb; [exact Hnn | exact (Hn j vj E) |].
        apply (Hmax j vj); [eapply Hlen; eassumption | apply Hcs'; exact E].
      * intros j vj Hj E.
        apply F32_not_leb_ltb; [exact Hnn | exact (Hn j vj E) |].
        apply (Hlow j vj Hj). apply Hcs'. exact E.
    + intro Hn. rewrite Hnn in Hn. discriminate.
Qed.

Lemma FindTone_spec_witness :
  let cs := spec_candidate_score flat_buffer DTMF0 in
  exists (k : nat) (v : float32) (st : ToneState),
    FindTone_run flat_buffer DTMF0 (Z.of_nat (List.length DTMF0))
      = Some st /\
    FindTone flat_buffer DTMF0 (Z.of_nat (List.length DTMF0))
      = Some (Z.of_nat k) /\
    (k < List.length DTMF0)%nat /\
    bins_read st = map spec_bin DTMF0 /\
    cs k = Some v /\
    (forall j vj, cs j = Some vj -> F32.ltb v vj = false) /\
    (forall j vj, (j < k)%nat -> cs j = Some vj -> SFleb v vj = false) /\
    ((forall j vj, cs j = Some vj -> is_nan vj = false) ->
     (forall j vj, cs j = Some vj -> SFleb vj v = true) /\
     (forall j vj, (j < k)%nat -> cs j = Some vj -> F32.ltb vj v = true)) /\
    (is_nan v = true ->
     k = 0%nat /\ forall j vj, cs j = Some vj -> is_nan vj = true).
Proof.
  apply (FindTone_spec flat_buffer DTMF0).
  - discriminate.
  - intros f [<-|[<-|[<-|[<-|[]]]]]; reflexivity.
  - intros j Hj.
    destruct j as [|[|[|[|j]]]]; [| | | |cbn in Hj; lia].
    + exists (F32.of_Z 1209), 95, (F32.of_Z 1), (F32.of_Z 1).
      repeat split; vm_compute; reflexivity.
    + exists (F32.of_Z 1336), 105, (F32.of_Z 1), (F32.of_Z 1).
      repeat split; vm_compute; reflexivity.
    + exists (F32.of_Z 1477), 116, (F32.of_Z 1), (F32.of_Z 1).
      repeat split; vm_compute; reflexivity.
    + exists (F32.of_Z 1633), 128, (F32.of_Z 1), (F32.of_Z 1).
      repeat split; vm_compute; reflexivity.
Defined.

(** C10.  When the bins of the first [n] candidates can be read,
    [FindTone] with [N = n] returns, and for [n >= 1] the index returned is
    in [0, n); the bins read are exactly those of candidates 0..n-1, one
    each, in order.  With [N <= 0] it returns 0 and reads no bin, whatever
    the buffer and the list. *)
Theorem FindTone_index_in_range (Buffer : DSPSplitComplex)
    (Frequencies : list float32) (n : nat) :
  (forall j, (j < n)%nat -> candidate_score Buffer Frequencies j <> None) ->
  (exists st,
     FindTone_run Buffer Frequencies (Z.of_nat n) = Some st /\
     FindTone Buffer Frequencies (Z.of_nat n) = Some (MaximumIndex st) /\
     ((1 <= n)%nat -> 0 <= MaximumIndex st < Z.of_nat n) /\
     Forall2 (fun f index => bin_index f = Some index)
             (firstn n Frequencies) (bins_read st)) /\
  (forall (B : DSPSplitComplex) (Fs : list float32) (N : Z), N <= 0 ->
     FindTone B Fs N = Some 0 /\
     option_map bins_read (FindTone_run B Fs N) = Some []).
Proof.
  intro Hdef. split.
  - destruct (FindTone_run_inv Buffer Frequencies n Hdef)
      as (st & Erun & _ & Hidx & Hread).
    exists st. unfold FindTone. rewrite Erun.
    split; [reflexivity|]. split; [reflexivity|]. split; [|exact Hread].
    intro Hn. destruct Hidx as [(-> & _) | (m & Hm & -> & _)]; lia.
  - intros B Fs N HN. unfold FindTone, FindTone_run.
    replace (Z.to_nat N) with 0%nat by lia. split; reflexivity.
Qed.

Lemma FindTone_index_in_range_witness :
  (exists st,
     FindTone_run flat_buffer DTMF0 (Z.of_nat 4) = Some st /\
     FindTone flat_buffer DTMF0 (Z.of_nat 4) = Some (MaximumIndex st) /\
     ((1 <= 4)%nat -> 0 <= MaximumIndex st < Z.of_nat 4) /\
     Forall2 (fun f index => bin_index f = Some index)
             (firstn 4 DTMF0) (bins_read st)) /\
  (forall (B : DSPSplitComplex) (Fs : list float32) (N : Z), N <= 0 ->
     FindTone B Fs N = Some 0 /\
     option_map bins_read (FindTone_run B Fs N) = Some []).
Proof.
  apply (FindTone_index_in_range flat_buffer DTMF0 4).
  intros j Hj.
  do 4 (destruct j as [|j]; [vm_compute; discriminate|]). lia.
Defined.

(** C10 as stated fails on the call that [Demonstrate] makes for the low
    group: the list has four candidates, the bin of the last one, 1633 Hz,
    is 128, and [imagp[128]] is one past the end of the buffer; the
    behaviour is undefined and no index is returned. *)
Lemma FindTone_returns_no_index :
  (1 <= List.length DTMF0)%nat /\
  bin_index (F32.of_Z 1633) = Some 128 /\
  load (imagp ones_buffer) 128 = None /\
  FindTone ones_buffer DTMF0 (Z.of_nat (List.length DTMF0)) = None.
Proof. vm_compute. repeat split. apply Nat.leb_le. reflexivity. Qed.

(** ** Rounding a value that the format represents *)

Lemma digits2_pos_shift (m A : positive) (k : Z) :
  0 <= k -> Zpos m = Zpos A * 2 ^ k ->
  Zpos (digits2_pos m) = Zpos (digits2_pos A) + k.
Proof.
  intros Hk H. destruct k as [|n|n]; try lia.
  - rewrite Z.pow_0_r, Z.mul_1_r in H. injection H as ->. lia.
  - assert (E : m = (A * 2 ^ n)%positive).
    { apply Pos2Z.inj. rewrite Pos2Z.inj_mul, Pos2Z.inj_pow. exact H. }
    rewrite E, digits2_pos_xO_iter. lia.
Qed.

Lemma pos_of_shift (m A : positive) (n : positive) :
  Zpos m = Zpos A * 2 ^ Zpos n -> m = (A * 2 ^ n)%positive.
Proof.
  intro H. apply Pos2Z.inj. rewrite Pos2Z.inj_mul, Pos2Z.inj_pow. exact H.
Qed.

Section Representation.
Variables prec emax : Z.

(** If [m * 2^e = A * 2^B] and [(A, B)] fits the format, rounding
    [(m, e)] yields the canonical form of that value. *)
Lemma binary_round_repr (s : bool) (m : positive) (e : Z)
    (A : positive) (B : Z) :
  Zpos m * 2 ^ (e - Z.min e B) = Zpos A * 2 ^ (B - Z.min e B) ->
  fexp prec emax (Zpos (digits2_pos A) + B) <= B ->
  exists M : positive,
    Zpos M = Zpos A * 2 ^ (B - fexp prec emax (Zpos (digits2_pos A) + B)) /\
    binary_round prec emax s m e =
      if fexp prec emax (Zpos (digits2_pos A) + B) <=? emax - prec
      then S754_finite s M (fexp prec emax (Zpos (digits2_pos A) + B))
      else S754_infinity s.
Proof.
  intros Hv Ht. set (t := fexp prec emax (Zpos (digits2_pos A) + B)) in *.
  assert (Hd : Zpos (digits2_pos m) + e = Zpos (digits2_pos A) + B).
  { destruct (Z_le_gt_dec e B) as [L|G].
    - rewrite Z.min_l, Z.sub_diag, Z.pow_0_r, Z.mul_1_r in Hv by lia.
      rewrite (digits2_pos_shift m A (B - e)); [lia | lia | exact Hv].
    - rewrite Z.min_r, Z.sub_diag, Z.pow_0_r, Z.mul_1_r in Hv by lia.
      rewrite (digits2_pos_shift A m (e - B)); [lia | lia | symmetry; exact Hv]. }
  assert (HM : 0 < Zpos A * 2 ^ (B - t)).
  { apply Z.mul_pos_pos; [lia | apply Z.pow_pos_nonneg; lia]. }
  exists (Z.to_pos (Zpos A * 2 ^ (B - t))).
  split; [rewrite Z2Pos.id by exact HM; reflexivity|].
  assert (Hm : Zpos m * 2 ^ (e - Z.min e t) = Zpos A * 2 ^ (B - t) * 2 ^ (t - Z.min e t)).
  { destruct (Z_le_gt_dec e B) as [L|G].
    - rewrite Z.min_l, Z.sub_diag, Z.pow_0_r, Z.mul_1_r in Hv by lia.
      rewrite Hv, <- !Z.mul_assoc, <- !Z.pow_add_r by lia. f_equal. f_equal. lia.
    - rewrite Z.min_r, Z.sub_diag, Z.pow_0_r, Z.mul_1_r in Hv by lia.
      rewrite <- Hv, <- !Z.mul_assoc, <- !Z.pow_add_r by lia. f_equal. f_equal. lia. }
  destruct (Z.lt_total t e) as [L | [E | G]].
  - (* the mantissa is shifted left *)
    rewrite Z.min_r, Z.sub_diag, Z.pow_0_r, Z.mul_1_r in Hm by lia.
    remember (Z.to_pos (e - t)) as n eqn:En.
    assert (Hn : Zpos n = e - t) by lia.
    rewrite (binary_round_shl prec emax s m e n) by (rewrite Hd; fold t; lia).
    replace (e - Zpos n) with t by lia.
    destruct (t <=? emax - prec); [|reflexivity].
    f_equal. apply Pos2Z.inj.
    rewrite Z2Pos.id by exact HM. rewrite Pos2Z.inj_mul, Pos2Z.inj_pow, Hn.
    exact Hm.
  - (* the mantissa is kept *)
    rewrite E, Z.min_id, Z.sub_diag, Z.pow_0_r, !Z.mul_1_r in Hm.
    rewrite (binary_round_keep prec emax s m e) by (rewrite Hd; fold t; lia).
    rewrite <- E. destruct (t <=? emax - prec); [|reflexivity].
    f_equal. apply Pos2Z.inj. rewrite Z2Pos.id by exact HM.
    rewrite Hm, E. reflexivity.
  - (* the mantissa is shifted right, losing only zeros *)
    rewrite Z.min_l, Z.sub_diag, Z.pow_0_r, Z.mul_1_r in Hm by lia.
    remember (Z.to_pos (t - e)) as n eqn:En.
    assert (Hn : Zpos n = t - e) by lia.
    rewrite <- Hn in Hm.
    rewrite <- (Z2Pos.id (Zpos A * 2 ^ (B - t))) in Hm by exact HM.
    apply pos_of_shift in Hm. rewrite Hm.
    rewrite (binary_round_shr prec emax s _ e n).
    + replace (e + Zpos n) with t by lia. reflexivity.
    + rewrite <- Pos2Z.inj_add, <- digits2_pos_xO_iter, <- Hm, Hd. fold t. lia.
Qed.
End Representation.

(** ** The mantissa of a rounded result has at most [prec] bits *)

Lemma shr_1_m (r : shr_record) :
  0 <= shr_m r -> shr_m (shr_1 r) = shr_m r / 2 /\ 0 <= shr_m (shr_1 r).
Proof.
  destruct r as [m b s]. cbn [shr_m]. intro Hm.
  destruct m as [|[p|p|]|p]; cbn [shr_1 shr_m]; try lia.
  all: split; [|lia].
  all: first [ reflexivity
             | apply Z.div_unique with (r := 1); lia
             | apply Z.div_unique with (r := 0); lia ].
Qed.

Lemma iter_shr_1_m (n : positive) (r : shr_record) :
  0 <= shr_m r ->
  shr_m (iter_pos shr_1 n r) = shr_m r / 2 ^ Zpos n /\
  0 <= shr_m (iter_pos shr_1 n r).
Proof.
  revert r; induction n as [n IH | n IH | ]; intros r Hr; cbn [iter_pos].
  - destruct (shr_1_m r Hr) as [E1 P1].
    destruct (IH _ P1) as [E2 P2]. destruct (IH _ P2) as [E3 P3].
    split; [|exact P3]. rewrite E3, E2, E1.
    rewrite !Z.div_div by (try apply Z.pow_pos_nonneg; lia).
    f_equal. replace (Zpos n~1) with (Zpos n + Zpos n + 1) by lia.
    rewrite !Z.pow_add_r by lia. change (2 ^ 1) with 2. ring.
  - destruct (IH _ Hr) as [E2 P2]. destruct (IH _ P2) as [E3 P3].
    split; [|exact P3]. rewrite E3, E2.
    rewrite !Z.div_div by (try apply Z.pow_pos_nonneg; lia).
    f_equal. replace (Zpos n~0) with (Zpos n + Zpos n) by lia.
    rewrite Z.pow_add_r by lia. ring.
  - apply shr_1_m. exact Hr.
Qed.

Lemma shr_m_of_loc (m : Z) (l : location) : shr_m (shr_record_of_loc m l) = m.
Proof. destruct l as [|[]]; reflexivity. Qed.

Lemma shr_m_le (r : shr_record) (e n : Z) :
  0 <= shr_m r ->
  0 <= shr_m (fst (shr r e n)) <= shr_m r.
Proof.
  intro Hr. destruct n as [|p|p]; cbn [shr fst]; try lia.
  destruct (iter_shr_1_m p r Hr) as [E P]. split; [exact P|].
  rewrite E. apply Z.div_le_upper_bound; [apply Z.pow_pos_nonneg; lia|].
  assert (0 < 2 ^ Zpos p) by (apply Z.pow_pos_nonneg; lia). nia.
Qed.

Lemma round_nearest_even_le (m : Z) (l : location) :
  round_nearest_even m l <= m + 1.
Proof. destruct l as [|[]]; cbn; try lia. destruct (Z.even m); lia. Qed.

Section MantissaBound.
Variables prec emax : Z.
Hypothesis prec_pos : 0 < prec.

Lemma shr_fexp_bound (M : positive) (E : Z) (l : location) :
  0 <= shr_m (fst (shr_fexp prec emax (Zpos M) E l)) < 2 ^ prec.
Proof.
  unfold shr_fexp, Zdigits2.
  pose proof (digits2_pos_bounds M) as [_ HM].
  set (d := Zpos (digits2_pos M)) in *.
  assert (Hf : d + E - prec <= fexp prec emax (d + E)) by (unfold fexp; lia).
  destruct (fexp prec emax (d + E) - E) as [|n|n] eqn:En; cbn [shr fst];
    rewrite ?shr_m_of_loc.
  - split; [lia|]. apply Z.lt_le_trans with (2 ^ d); [exact HM|].
    apply Z.pow_le_mono_r; lia.
  - destruct (iter_shr_1_m n (shr_record_of_loc (Zpos M) l)) as [Eq P];
      [rewrite shr_m_of_loc; lia|].
    split; [exact P|]. rewrite Eq, shr_m_of_loc.
    apply Z.div_lt_upper_bound; [apply Z.pow_pos_nonneg; lia|].
    rewrite <- Z.pow_add_r by lia.
    apply Z.lt_le_trans with (2 ^ d); [exact HM|].
    apply Z.pow_le_mono_r; lia.
  - split; [lia|]. apply Z.lt_le_trans with (2 ^ d); [exact HM|].
    apply Z.pow_le_mono_r; lia.
Qed.

Lemma binary_round_aux_bound (s : bool) (M : positive) (E : Z) (l : location)
    (s' : bool) (m : positive) (e : Z) :
  binary_round_aux prec emax s (Zpos M) E l = S754_finite s' m e ->
  Zpos m <= 2 ^ prec.
Proof.
  unfold binary_round_aux.
  pose proof (shr_fexp_bound M E l) as B1.
  destruct (shr_fexp prec emax (Zpos M) E l) as [mrs' e']. cbn [fst] in B1.
  pose proof (round_nearest_even_le (shr_m mrs') (loc_of_shr_record mrs')) as B2.
  set (m1 := round_nearest_even (shr_m mrs') (loc_of_shr_record mrs')) in *.
  assert (P1 : 0 <= m1).
  { unfold m1. destruct (loc_of_shr_record mrs') as [|[]]; cbn; try lia.
    destruct (Z.even (shr_m mrs')); lia. }
  unfold shr_fexp.
  pose proof (shr_m_le (shr_record_of_loc m1 loc_Exact) e'
                (fexp prec emax (Zdigits2 m1 + e') - e')) as B3.
  rewrite shr_m_of_loc in B3. specialize (B3 P1).
  destruct (shr _ e' _) as [mrs'' e'']. cbn [fst] in B3.
  destruct (shr_m mrs'') as [|q|q]; try discriminate.
  destruct (e'' <=? emax - prec); [|discriminate].
  intro H; injection H as _ <- _. lia.
Qed.
End MantissaBound.

Lemma scaled_mantissa_bound (f : float32) (s : bool) (m : positive) (e : Z) :
  scaled f = S754_finite s m e -> Zpos m <= 2 ^ 24.
Proof.
  unfold scaled, F32.mul.
  change (F32.of_Z SampleLength) with (S754_finite false 8388608 (-15)).
  destruct (F32.div f (F32.of_Z SamplingFrequency)) as [sq|sq| |sq mq eq];
    cbn [SFmul]; try discriminate.
  apply (binary_round_aux_bound F32.prec F32.emax); reflexivity.
Qed.

(** A scaled value of the form [x + 1/2] is small: [x + 1] is an [int]. *)
Lemma scaled_half_range (f : float32) (x : Z) :
  (SF2Q (scaled f) == inject_Z x + (1 # 2))%Q ->
  -2147483648 <= x + 1 <= 2147483647.
Proof.
  intro Hq. destruct (scaled f) as [s0|s0| |s m e] eqn:Es;
    try (exfalso; cbn [SF2Q] in Hq; unfold Qeq, Qplus, inject_Z in Hq;
         cbn [Qnum Qden] in Hq; lia).
  pose proof (scaled_mantissa_bound f s m e Es) as Hm.
  change (2 ^ 24) with 16777216 in Hm.
  destruct e as [|p|p]; cbn [SF2Q] in Hq; unfold Qeq, Qplus, inject_Z in Hq;
    cbn [Qnum Qden] in Hq.
  - exfalso. lia.
  - exfalso. remember (cond_Zopp s (Zpos m) * Z.pow_pos 2 p) as z. lia.
  - rewrite Pos2Z.inj_pow in Hq.
    assert (HP : 2 <= 2 ^ Zpos p).
    { change 2 with (2 ^ 1) at 1. apply Z.pow_le_mono_r; lia. }
    destruct s; cbn [cond_Zopp] in Hq; nia.
Qed.

Lemma shl_align_fst (mx : positive) (ex ex' : Z) :
  ex' <= ex -> Zpos (fst (shl_align mx ex ex')) = Zpos mx * 2 ^ (ex - ex').
Proof.
  intro H. unfold shl_align.
  destruct (ex' - ex) as [|d|d] eqn:E; try lia.
  - replace (ex - ex') with 0 by lia. cbn [fst]. lia.
  - cbn [fst]. rewrite iter_xO_pow, Pos2Z.inj_mul, Pos2Z.inj_pow.
    f_equal. f_equal. lia.
Qed.

Lemma F64_to_int_repr (s : bool) (A M : positive) (t : Z) :
  t < 0 -> Zpos M = Zpos A * 2 ^ (- t) ->
  -2147483648 <= cond_Zopp s (Zpos A) <= 2147483647 ->
  F64.to_int (S754_finite s M t) = Some (cond_Zopp s (Zpos A)).
Proof.
  intros Ht HM Hr. unfold F64.to_int.
  destruct t as [|p|p]; try lia.
  rewrite HM. change (- Zneg p) with (Zpos p).
  rewrite Z.pow_pos_fold, Z.div_mul by (apply Z.pow_nonzero; lia).
  replace (_ && _) with true; [reflexivity|].
  symmetry; apply andb_true_intro; split; apply Z.leb_le; lia.
Qed.

(** An [int] held as a multiple of [2^-53] normalises to a [double] that
    converts back to it. *)
Lemma F64_normalize_int (n : Z) :
  -2147483648 <= n <= 2147483647 ->
  F64.to_int (binary_normalize F64.prec F64.emax (n * 2 ^ 53) (-53) false)
  = Some n.
Proof.
  intro Hn.
  assert (K : forall (s : bool) (q A : positive),
             Zpos q = Zpos A * 2 ^ 53 -> Zpos A <= 2147483648 ->
             -2147483648 <= cond_Zopp s (Zpos A) <= 2147483647 ->
             F64.to_int (binary_round F64.prec F64.emax s q (-53))
             = Some (cond_Zopp s (Zpos A))).
  { intros s q A Hq HA Hr.
    assert (Hd : Zpos (digits2_pos A) <= 32) by (apply digits2_pos_le; lia).
    destruct (binary_round_repr F64.prec F64.emax s q (-53) A 0)
      as (M & HM & ->).
    - rewrite Z.min_l by lia. rewrite Z.sub_diag, Z.pow_0_r, Z.mul_1_r.
      exact Hq.
    - unfold fexp, emin, F64.prec, F64.emax. lia.
    - assert (Ht : fexp F64.prec F64.emax (Zpos (digits2_pos A) + 0)
                   = Zpos (digits2_pos A) - 53)
        by (unfold fexp, emin, F64.prec, F64.emax; lia).
      rewrite Ht in *.
      replace (Zpos (digits2_pos A) - 53 <=? F64.emax - F64.prec) with true
        by (symmetry; apply Z.leb_le; unfold F64.emax, F64.prec; lia).
      apply F64_to_int_repr; [lia | | exact Hr].
      rewrite HM; f_equal; f_equal; lia. }
  destruct n as [|a|a].
  - reflexivity.
  - remember (Z.to_pos (Zpos a * 2 ^ 53)) as q eqn:Eq.
    assert (Hq : Zpos q = Zpos a * 2 ^ 53) by lia.
    rewrite <- Hq. cbn [binary_normalize].
    apply (K false q a Hq); cbn [cond_Zopp]; lia.
  - remember (Z.to_pos (Zpos a * 2 ^ 53)) as q eqn:Eq.
    assert (Hq : Zpos q = Zpos a * 2 ^ 53) by lia.
    replace (Zneg a * 2 ^ 53) with (Zneg q) by lia.
    cbn [binary_normalize].
    apply (K true q a Hq); cbn [cond_Zopp]; lia.
Qed.

Lemma F64_half_eq : F64.half = S754_finite false (1 * 2 ^ 52) (-53).
Proof. reflexivity. Qed.

(** The sum [y + .5] for a [float] [y] whose value is [x + 1/2]. *)
Lemma bin_sum_half (y : float32) (x : Z) :
  (SF2Q y == inject_Z x + (1 # 2))%Q ->
  -2147483648 <= x + 1 <= 2147483647 ->
  F64.add (F64.of_f32 y) F64.half =
  binary_normalize F64.prec F64.emax ((x + 1) * 2 ^ 53) (-53) false.
Proof.
  intros Hq Hx.
  destruct y as [s0|s0| |s m e];
    try (exfalso; cbn [SF2Q] in Hq; unfold Qeq, Qplus, inject_Z in Hq;
         cbn [Qnum Qden] in Hq; lia).
  destruct e as [|p|p].
  - exfalso. cbn [SF2Q] in Hq. unfold Qeq, Qplus, inject_Z in Hq. cbn [Qnum Qden] in Hq. lia.
  - exfalso. cbn [SF2Q] in Hq. unfold Qeq, Qplus, inject_Z in Hq. cbn [Qnum Qden] in Hq.
    remember (cond_Zopp s (Zpos m) * Z.pow_pos 2 p) as z. lia.
  - cbn [SF2Q] in Hq. unfold Qeq, Qplus, inject_Z in Hq. cbn [Qnum Qden] in Hq.
    rewrite Pos2Z.inj_pow in Hq.
    assert (Hp : Zpos p = Z.succ (Zpos p - 1)) by lia.
    rewrite Hp, Z.pow_succ_r in Hq by lia.
    set (P := 2 ^ (Zpos p - 1)) in *.
    assert (HP : 0 < P) by (apply Z.pow_pos_nonneg; lia).
    set (W := 2 * x + 1).
    assert (HW : cond_Zopp s (Zpos m) = W * P) by (unfold W; lia).
    assert (HW0 : W <> 0) by (unfold W; lia).
    remember (Z.to_pos (Z.abs W)) as A eqn:EA.
    assert (HA : Zpos A = Z.abs W) by lia.
    assert (HsW : W = cond_Zopp s (Zpos A)).
    { destruct s; cbn [cond_Zopp] in *; nia. }
    assert (HmA : Zpos m = Zpos A * P).
    { destruct s; cbn [cond_Zopp] in *; nia. }
    assert (HdA : Zpos (digits2_pos A) <= 33).
    { apply digits2_pos_le. unfold W in HA. lia. }
    pose proof (digits2_pos_bounds A) as [_ HdA1].
    assert (Hd1 : 1 <= Zpos (digits2_pos A)) by lia.
    assert (Ht : fexp F64.prec F64.emax (Zpos (digits2_pos A) + -1)
                 = Zpos (digits2_pos A) - 54)
      by (unfold fexp, emin, F64.prec, F64.emax; lia).
    unfold F64.of_f32.
    destruct (binary_round_repr F64.prec F64.emax s m (Zneg p) A (-1))
      as (M & HM & ->).
    + rewrite Z.min_l by lia. rewrite Z.sub_diag, Z.pow_0_r, Z.mul_1_r.
      rewrite HmA; unfold P; f_equal; f_equal; lia.
    + rewrite Ht. lia.
    + rewrite Ht in *.
      replace (Zpos (digits2_pos A) - 54 <=? F64.emax - F64.prec) with true
        by (symmetry; apply Z.leb_le; unfold F64.emax, F64.prec; lia).
      rewrite F64_half_eq. unfold F64.add, SFadd.
      rewrite Z.min_r by lia.
      f_equal.
      rewrite !shl_align_fst by lia.
      rewrite Z.sub_diag, Z.pow_0_r, Z.mul_1_r. cbn [cond_Zopp].
      rewrite Pos2Z.inj_mul, Pos2Z.inj_pow, Z.mul_1_l.
      assert (E : Zpos M * 2 ^ (Zpos (digits2_pos A) - 54 - -53) = Zpos A * 2 ^ 52).
      { rewrite HM, <- Z.mul_assoc, <- Z.pow_add_r by lia. f_equal. f_equal. lia. }
      set (D := 2 ^ (Zpos (digits2_pos A) - 54 - -53)) in *.
      replace ((x + 1) * 2 ^ 53) with ((W + 1) * 2 ^ 52) by (unfold W; lia).
      destruct s; cbn [cond_Zopp] in *; lia.
Qed.

(** C7.  With [SamplingFrequency] 3266 and [SampleLength] 256 the
    frequency 1209 Hz is scaled to a value between 94.765 and 94.775
    (94.77 to two decimals) and falls in bin 95; and whenever the scaled
    value of a frequency is exactly [x + 1/2], its bin is [x + 1]. *)
Theorem bin_index_rounding :
  bin_index (F32.of_Z 1209) = Some 95 /\
  (94765 # 1000 < SF2Q (scaled (F32.of_Z 1209)))%Q /\
  (SF2Q (scaled (F32.of_Z 1209)) < 94775 # 1000)%Q /\
  forall (f : float32) (x : Z),
    (SF2Q (scaled f) == inject_Z x + (1 # 2))%Q ->
    bin_index f = Some (x + 1).
Proof.
  split; [reflexivity|]. split; [reflexivity|]. split; [reflexivity|].
  intros f x Hq. pose proof (scaled_half_range f x Hq) as Hx.
  unfold bin_index, bin_sum.
  rewrite (bin_sum_half _ x Hq Hx). apply F64_normalize_int. exact Hx.
Qed.

(** 1205.61328125 Hz = 308637 / 256 is scaled to 94.5 exactly. *)
Lemma bin_index_rounding_witness :
  let f := S754_finite false (308637 * 32) (-13) in
  (SF2Q (scaled f) == inject_Z 94 + (1 # 2))%Q /\
  bin_index f = Some (94 + 1).
Proof.
  intro f.
  assert (Hq : (SF2Q (scaled f) == inject_Z 94 + (1 # 2))%Q) by reflexivity.
  split; [exact Hq|].
  apply (proj2 (proj2 (proj2 bin_index_rounding)) f 94 Hq).
Defined.

(** ** Signal synthesis *)

Lemma store_nat_spec (a : list float32) (i : nat) (v : float32) :
  (i < List.length a)%nat ->
  exists a', store_nat a i v = Some a' /\
             List.length a' = List.length a /\
             forall j, nth_error a' j =
                       if Nat.eqb j i then Some v else nth_error a j.
Proof.
  revert i; induction a as [|x a IH]; intros i Hi; cbn in Hi; [lia|].
  destruct i as [|i].
  - exists (v :: a). repeat split. intros [|j]; reflexivity.
  - destruct (IH i ltac:(lia)) as (a' & E & L & N).
    exists (x :: a'). cbn [store_nat]. rewrite E. repeat split.
    + cbn. lia.
    + intros [|j]; [reflexivity|]. cbn [nth_error Nat.eqb]. apply N.
Qed.

Lemma store_spec (a : list float32) (i : nat) (v : float32) :
  (i < List.length a)%nat ->
  exists a', store a (Z.of_nat i) v = Some a' /\
             List.length a' = List.length a /\
             forall j, nth_error a' j =
                       if Nat.eqb j i then Some v else nth_error a j.
Proof.
  intro Hi. unfold store.
  replace (Z.of_nat i <? 0) with false by (symmetry; apply Z.ltb_ge; lia).
  rewrite Nat2Z.id. apply store_nat_spec. exact Hi.
Qed.

Lemma load_block (a : list float32) (i : nat) :
  load {| block := a; offset := 0 |} (Z.of_nat i) = nth_error a i.
Proof.
  unfold load. cbn [offset block]. rewrite Z.add_0_l.
  replace (Z.of_nat i <? 0) with false by (symmetry; apply Z.ltb_ge; lia).
  rewrite Nat2Z.id. reflexivity.
Qed.

Lemma in_range_step (i n j : nat) :
  in_range i (S n) j = Nat.eqb j i || in_range (S i) n j.
Proof.
  unfold in_range.
  destruct (Nat.eqb_spec j i), (Nat.leb_spec i j), (Nat.ltb_spec j (i + S n)),
    (Nat.leb_spec (S i) j), (Nat.ltb_spec j (S i + n)); cbn; lia || reflexivity.
Qed.

Lemma noise_loop_spec (n i : nat) (Signal : list float32) (s : Z) :
  (i + n <= List.length Signal)%nat ->
  exists Signal',
    noise_loop n (Z.of_nat i) Signal s = Some (Signal', Seed_after n s) /\
    List.length Signal' = List.length Signal /\
    forall j, nth_error Signal' j =
              if in_range i n j
              then Some (F32.mul (F32.of_Z 4) (draw (j - i) s))
              else nth_error Signal j.
Proof.
  revert i Signal s; induction n as [|n IH]; intros i Signal s Hlen.
  - exists Signal. repeat split. intro j. unfold in_range.
    destruct (Nat.leb_spec i j), (Nat.ltb_spec j (i + 0)); cbn; lia || reflexivity.
  - cbn [noise_loop Seed_after]. destruct (Random s) as [s' r] eqn:ER.
    destruct (store_spec Signal i (F32.mul (F32.of_Z 4) r) ltac:(lia))
      as (S1 & E1 & L1 & N1).
    rewrite E1. replace (Z.of_nat i + 1) with (Z.of_nat (S i)) by lia.
    destruct (IH (S i) S1 s' ltac:(lia)) as (S2 & E2 & L2 & N2).
    exists S2. cbn [fst]. rewrite E2. repeat split; [congruence|].
    intro j. rewrite N2, N1, in_range_step.
    destruct (Nat.eqb_spec j i) as [->|Hne]; cbn [orb].
    + unfold in_range.
      replace (S i <=? i)%nat with false by (symmetry; apply Nat.leb_gt; lia).
      cbn [andb]. rewrite Nat.sub_diag. unfold draw. cbn [Seed_after].
      rewrite ER. reflexivity.
    + destruct (in_range (S i) n j) eqn:R; [|reflexivity].
      unfold in_range in R. apply andb_true_iff in R. destruct R as [R _].
      apply Nat.leb_le in R.
      replace (j - i)%nat with (S (j - S i)) by lia.
      unfold draw. cbn [Seed_after]. rewrite ER. reflexivity.
Qed.

Lemma TwoPi_eq : TwoPi = spec_two_pi.
Proof. vm_compute. reflexivity. Qed.

(** [spec_two_pi] is [2 pi] to 15 decimal places. *)
Lemma spec_two_pi_value :
  (6283185307179586 # 1000000000000000 < SF2Q spec_two_pi)%Q /\
  (SF2Q spec_two_pi < 6283185307179587 # 1000000000000000)%Q.
Proof. split; vm_compute; reflexivity. Qed.

Section SynthesisProperties.
Variable sin : float64 -> float64.

Lemma tone_loop_spec (n i : nat) (f Phase : float32) (Signal : list float32) :
  (i + n <= List.length Signal)%nat ->
  exists Signal',
    tone_loop sin n (Z.of_nat i) f Phase Signal = Some Signal' /\
    List.length Signal' = List.length Signal /\
    forall j, nth_error Signal' j =
              if in_range i n j
              then option_map
                     (fun x => add_assign x (tone sin (Z.of_nat j) f Phase))
                     (nth_error Signal j)
              else nth_error Signal j.
Proof.
  revert i Signal; induction n as [|n IH]; intros i Signal Hlen.
  - exists Signal. repeat split. intro j. unfold in_range.
    destruct (Nat.leb_spec i j), (Nat.ltb_spec j (i + 0)); cbn; lia || reflexivity.
  - cbn [tone_loop]. rewrite load_block.
    destruct (nth_error Signal i) as [x|] eqn:Ex;
      [|apply nth_error_None in Ex; lia].
    destruct (store_spec Signal i (add_assign x (tone sin (Z.of_nat i) f Phase))
                ltac:(lia)) as (S1 & E1 & L1 & N1).
    rewrite E1. replace (Z.of_nat i + 1) with (Z.of_nat (S i)) by lia.
    destruct (IH (S i) S1 ltac:(lia)) as (S2 & E2 & L2 & N2).
    exists S2. rewrite E2. repeat split; [congruence|].
    intro j. rewrite N2, N1, in_range_step.
    destruct (Nat.eqb_spec j i) as [->|Hne]; cbn [orb].
    + unfold in_range.
      replace (S i <=? i)%nat with false by (symmetry; apply Nat.leb_gt; lia).
      cbn [andb]. rewrite Ex. reflexivity.
    + reflexivity.
Qed.

Lemma tone_eq (i : Z) (f Phase : float32) :
  tone sin i f Phase = spec_tone sin i f Phase.
Proof. unfold tone, spec_tone. rewrite TwoPi_eq. reflexivity. Qed.

(** C6.  On a buffer of [len] samples the synthesis of lines 182-196
    returns a buffer of the same length, for every frequency pair and
    every state of the generator; sample [i] is the specification's
    [4 * noise_i + sin (2 pi (i f0 / 3266 + phase0))
                 + sin (2 pi (i f1 / 3266 + phase1))]
    ([spec_sample], the sums taken from left to right), where [noise_i] is
    draw number [i], [phase0] is the single draw number [len] and [phase1]
    the single draw number [len + 1], and the generator is left advanced
    by [len + 2] draws.  The result is a function of the seed, the
    frequencies and [sin] alone: the previous content of the buffer does
    not matter. *)
Theorem synthesize_spec (len : Z) (F : FrequencyPair)
    (Signal0 : list float32) (s : Z) :
  List.length Signal0 = Z.to_nat len ->
  let n := Z.to_nat len in
  exists Signal,
    synthesize sin len F Signal0 s = Some (Signal, Seed_after (n + 2) s) /\
    List.length Signal = n /\
    forall i, (i < n)%nat ->
      nth_error Signal i =
      Some (spec_sample sin (Z.of_nat i) (Frequency0 F) (Frequency1 F)
              (draw i s) (draw n s) (draw (S n) s)).
Proof.
  intros Hlen n. unfold synthesize. fold n.
  destruct (noise_loop_spec n 0 Signal0 s ltac:(lia)) as (S1 & E1 & L1 & N1).
  change (Z.of_nat 0) with 0 in E1. rewrite E1.
  destruct (Random (Seed_after n s)) as [s2 Phase0] eqn:R1.
  destruct (tone_loop_spec n 0 (Frequency0 F) Phase0 S1 ltac:(lia))
    as (S2 & E2 & L2 & N2).
  change (Z.of_nat 0) with 0 in E2. rewrite E2.
  destruct (Random s2) as [s3 Phase1] eqn:R2.
  destruct (tone_loop_spec n 0 (Frequency1 F) Phase1 S2 ltac:(lia))
    as (S3 & E3 & L3 & N3).
  change (Z.of_nat 0) with 0 in E3. rewrite E3.
  assert (Es2 : s2 = Seed_after (S n) s)
    by (rewrite Seed_after_S, R1; reflexivity).
  assert (Es3 : s3 = Seed_after (n + 2) s).
  { replace (n + 2)%nat with (S (S n)) by lia.
    rewrite (Seed_after_S (S n)), <- Es2, R2. reflexivity. }
  assert (EP0 : Phase0 = draw n s) by (unfold draw; rewrite R1; reflexivity).
  assert (EP1 : Phase1 = draw (S n) s)
    by (unfold draw; rewrite <- Es2, R2; reflexivity).
  exists S3. rewrite Es3. split; [reflexivity|]. split; [lia|].
  intros i Hi. rewrite N3, N2, N1.
  assert (R : in_range 0 n i = true).
  { unfold in_range. apply andb_true_iff; split;
      [apply Nat.leb_le | apply Nat.ltb_lt]; lia. }
  rewrite R, Nat.sub_0_r, EP0, EP1. cbn [option_map].
  rewrite !tone_eq. reflexivity.
Qed.
End SynthesisProperties.

Lemma synthesize_spec_witness :
  let sin := fun x : float64 => x in
  let F := {| Frequency0 := F32.of_Z 1209; Frequency1 := F32.of_Z 697 |} in
  let Signal0 := repeat S754_nan 4 in
  exists Signal,
    synthesize sin 4 F Signal0 1 = Some (Signal, Seed_after (4 + 2) 1) /\
    List.length Signal = 4%nat /\
    forall i, (i < 4)%nat ->
      nth_error Signal i =
      Some (spec_sample sin (Z.of_nat i) (Frequency0 F) (Frequency1 F)
              (draw i 1) (draw 4 1) (draw 5 1)).
Proof.
  intros sin F Signal0.
  apply (synthesize_spec sin 4 F Signal0 1). reflexivity.
Defined.

(** ** The key loops of [main] *)

Lemma ConvertKeyToFrequencies_absent (Key : ascii) :
  ~ In Key alphabet -> Key <> NUL ->
  ConvertKeyToFrequencies Key = Some zero_pair.
Proof.
  intros Hnot Hnul.
  unfold ConvertKeyToFrequencies. rewrite strchr_absent; [reflexivity|].
  unfold Keys. fold alphabet. intro H. apply in_app_or in H.
  destruct H as [H|[H|[]]]; [exact (Hnot H)|]. apply Hnul; symmetry; exact H.
Qed.

Lemma toupper_NUL (c : ascii) : toupper c = NUL -> c = NUL.
Proof.
  destruct c as [[] [] [] [] [] [] [] []]; vm_compute; intro H;
    first [reflexivity | discriminate H].
Qed.

Section MainProperties.
Variable sin : float64 -> float64.
Variable vDSP_ctoz : list float32 -> list float32 -> list float32.
Variable vDSP_fft_zrip : list float32 -> list float32.
Variable indeterminate : float32.

(** The program with its library routines fixed. *)
Local Abbreviation demonstrate :=
  (Demonstrate sin vDSP_ctoz vDSP_fft_zrip indeterminate).
Local Abbreviation arguments :=
  (argument_loop sin vDSP_ctoz vDSP_fft_zrip indeterminate).
Local Abbreviation interactive :=
  (interactive_loop sin vDSP_ctoz vDSP_fft_zrip indeterminate).

(** C8, amended.  In the loop over the command-line argument, a
    character whose upper-case form is not in the alphabet makes the
    program print "Error, key c not recognized." on the standard error
    and nothing else happens for it: the generator is not advanced, no
    memory is allocated and no library routine is called (neither
    synthesis nor transform); the loop goes on with the remaining
    characters. *)
Theorem argument_loop_unknown_key (c : ascii) (rest : list ascii)
    (w : World) :
  c <> NUL -> ~ In (toupper c) alphabet ->
  arguments (c :: rest) w =
  arguments rest (logged w (Stderr (NotRecognized c))).
Proof.
  intros Hc Hnot. cbn [argument_loop].
  destruct (Ascii.eqb_spec c NUL) as [E|_]; [contradiction|].
  unfold bind at 1. unfold defined.
  rewrite (ConvertKeyToFrequencies_absent (toupper c) Hnot)
    by (intro E; apply Hc, toupper_NUL, E).
  reflexivity.
Qed.

(** C9.  A lower-case letter [a]..[d] is not in the alphabet but its
    upper-case form is; the lookup of the upper-case form gives a valid
    pair [F], and both loops call [Demonstrate F] for the letter: the
    argument loop after announcing the key as typed, the interactive
    loop exactly as if the upper-case letter had been typed. *)
Theorem lowercase_keys_accepted (c : ascii) :
  In c ["a"; "b"; "c"; "d"]%char ->
  ~ In c alphabet /\
  In (toupper c) ["A"; "B"; "C"; "D"]%char /\
  N_of_ascii (toupper c) = (N_of_ascii c - 32)%N /\
  exists F,
    ConvertKeyToFrequencies (toupper c) = Some F /\
    is_valid_key F = true /\
    (forall rest w,
       arguments (c :: rest) w =
       (printf (Simulating c) ;; demonstrate F ;; arguments rest)%prog w) /\
    (forall fuel input w,
       interactive (S fuel) (with_stdin w (c :: input)) =
       (printf Prompt ;;
        scan (fun _ => (tt, input)) ;;
        demonstrate F ;;
        c' <- scan skip_line ;;
        match c' with
        | None => ret c'
        | Some _ => interactive fuel
        end)%prog (with_stdin w (c :: input))) /\
    (forall fuel input w,
       interactive (S fuel) (with_stdin w (c :: input)) =
       interactive (S fuel) (with_stdin w (toupper c :: input))).
Proof.
  intro Hc.
  assert (Hnot : ~ In c alphabet).
  { cbv [alphabet list_ascii_of_string In]. intro H.
    destruct Hc as [<-|[<-|[<-|[<-|[]]]]];
      repeat (destruct H as [H|H]; [discriminate H|]); exact H. }
  split; [exact Hnot|].
  destruct Hc as [<-|[<-|[<-|[<-|[]]]]];
    (split; [cbv; tauto|]); (split; [reflexivity|]);
    eexists; (split; [reflexivity|]); (split; [reflexivity|]);
    (split; [|split]).
  all: try (intros rest w; reflexivity).
  all: intros fuel input w; reflexivity.
Qed.
End MainProperties.

(** C8, as stated, fails: [a] is not in the alphabet, yet for the
    argument "a" the signal is synthesised (the generator advances), the
    transform is called and no error is reported. *)
Lemma argument_loop_lowercase_is_demonstrated :
  let w := fst (argument_loop (fun x => x) (fun s b => s) (fun b => b)
                  S754_nan ["a"%char] quiet_world) in
  ~ In "a"%char alphabet /\
  In (Call FFT) (trace w) /\
  ~ In (Stderr (NotRecognized "a")) (trace w) /\
  Seed w <> Seed quiet_world.
Proof.
  split; [|split; [|split]].
  - cbv [alphabet list_ascii_of_string In].
    intro H. repeat (destruct H as [H|H]; [discriminate H|]). exact H.
  - vm_compute. tauto.
  - vm_compute. intro H. repeat (destruct H as [H|H]; [discriminate H|]). exact H.
  - vm_compute. discriminate.
Qed.

Lemma argument_loop_unknown_key_witness :
  let run := argument_loop (fun x => x) (fun s b => s) (fun b => b) S754_nan in
  run ["?"; "1"]%char quiet_world =
  run ["1"]%char (logged quiet_world (Stderr (NotRecognized "?"))).
Proof.
  intro run.
  apply (argument_loop_unknown_key (fun x => x) (fun s b => s) (fun b => b)
           S754_nan "?"%char ["1"%char] quiet_world).
  - discriminate.
  - cbv [toupper N_of_ascii N.leb N.compare andb alphabet
         list_ascii_of_string In].
    vm_compute. intro H.
    repeat (destruct H as [H|H]; [discriminate H|]). exact H.
Defined.

Lemma lowercase_keys_accepted_witness :
  let sin := fun x : float64 => x in
  let ctoz := fun s b : list float32 => s in
  let fft := fun b : list float32 => b in
  let c := "b"%char in
  ~ In c alphabet /\
  In (toupper c) ["A"; "B"; "C"; "D"]%char /\
  N_of_ascii (toupper c) = (N_of_ascii c - 32)%N /\
  exists F,
    ConvertKeyToFrequencies (toupper c) = Some F /\
    is_valid_key F = true /\
    (forall rest w,
       argument_loop sin ctoz fft S754_nan (c :: rest) w =
       (printf (Simulating c) ;; Demonstrate sin ctoz fft S754_nan F ;;
        argument_loop sin ctoz fft S754_nan rest)%prog w) /\
    (forall fuel input w,
       interactive_loop sin ctoz fft S754_nan (S fuel)
         (with_stdin w (c :: input)) =
       (printf Prompt ;;
        scan (fun _ => (tt, input)) ;;
        Demonstrate sin ctoz fft S754_nan F ;;
        c' <- scan skip_line ;;
        match c' with
        | None => ret c'
        | Some _ => interactive_loop sin ctoz fft S754_nan fuel
        end)%prog (with_stdin w (c :: input))) /\
    (forall fuel input w,
       interactive_loop sin ctoz fft S754_nan (S fuel)
         (with_stdin w (c :: input)) =
       interactive_loop sin ctoz fft S754_nan (S fuel)
         (with_stdin w (toupper c :: input))).
Proof.
  intros sin ctoz fft c.
  apply (lowercase_keys_accepted sin ctoz fft S754_nan c).
  right; left; reflexivity.
Defined.

(** ** The interactive loop never runs out of fuel *)

Lemma safe_ret {A} (a : A) : input_safe (ret a).
Proof. intro w. split; [reflexivity | discriminate]. Qed.

Lemma safe_bind {A B} (c : M A) (k : A -> M B) :
  input_safe c -> (forall a, input_safe (k a)) -> input_safe (bind c k).
Proof.
  intros Hc Hk w. unfold bind. destruct (Hc w) as [H1 H2].
  destruct (c w) as [w' [a| | |]]; cbn in *;
    try (split; [exact H1 | discriminate]); [|congruence].
  destruct (Hk a w') as [H3 H4]. split; [congruence | exact H4].
Qed.

Lemma bind_no_loop {A B} (c : M A) (k : A -> M B) (w : World) :
  snd (c w) <> OutOfFuel ->
  (forall w' a, c w = (w', Done a) -> snd (k a w') <> OutOfFuel) ->
  snd (bind c k w) <> OutOfFuel.
Proof.
  intros Hc Hk. unfold bind. destruct (c w) as [w' [a| | |]];
    cbn [snd] in *; try discriminate; [|congruence].
  apply (Hk w' a). reflexivity.
Qed.

Lemma safe_log (e : Event) : input_safe (log e).
Proof. intro w. split; [reflexivity | discriminate]. Qed.

Lemma safe_exit {A} (status : Z) : input_safe (@exit A status).
Proof. intro w. split; [reflexivity | discriminate]. Qed.

Lemma safe_defined {A} (o : option A) : input_safe (defined o).
Proof. intro w. destruct o; split; (reflexivity || discriminate). Qed.

Lemma safe_with_Seed {A} (f : Z -> option (A * Z)) : input_safe (with_Seed f).
Proof.
  intro w. unfold with_Seed. destruct (f (Seed w)) as [[a s]|];
    split; (reflexivity || discriminate).
Qed.

Lemma safe_malloc (indeterminate : float32) (n : Z) :
  input_safe (malloc indeterminate n).
Proof.
  intro w. unfold malloc. destruct (heap w) as [|[] h];
    split; (reflexivity || discriminate).
Qed.

Section Fuel.
Variable sin : float64 -> float64.
Variable vDSP_ctoz : list float32 -> list float32 -> list float32.
Variable vDSP_fft_zrip : list float32 -> list float32.
Variable indeterminate : float32.

Lemma Demonstrate_input_safe (F : FrequencyPair) :
  input_safe (Demonstrate sin vDSP_ctoz vDSP_fft_zrip indeterminate F).
Proof.
  unfold Demonstrate.
  apply safe_bind; [apply safe_malloc|]. intros [Signal|].
  - apply safe_bind; [apply safe_log|]. intros _.
    apply safe_bind; [apply safe_with_Seed|]. intro Signal'.
    apply safe_bind; [apply safe_malloc|]. intros [BufferMemory|].
    + do 3 (apply safe_bind; [apply safe_log|]; intros _; cbv zeta).
      do 5 (apply safe_bind; [apply safe_defined|]; intro).
      apply safe_log.
    + apply safe_bind; [apply safe_log | intros _; apply safe_exit].
  - apply safe_bind; [apply safe_log | intros _; apply safe_exit].
Qed.

Lemma skip_spaces_length (input : list ascii) :
  match skip_spaces input with
  | (Some _, rest) => (List.length rest < List.length input)%nat
  | (None, rest) => rest = []
  end.
Proof.
  induction input as [|c input IH]; [reflexivity|]. cbn [skip_spaces].
  destruct (negb (Ascii.eqb c newline) && isspace c).
  - destruct (skip_spaces input) as [[k|] rest]; cbn in *; [lia | exact IH].
  - cbn. lia.
Qed.

Lemma skip_line_length (input : list ascii) :
  (List.length (snd (skip_line input)) <= List.length input)%nat.
Proof.
  induction input as [|c input IH]; [cbn; lia|]. cbn [skip_line].
  destruct (Ascii.eqb c newline); cbn in *; lia.
Qed.

(** With more fuel than there are characters to read, the loop ends by
    itself. *)
Lemma interactive_loop_fuel (fuel : nat) (w : World) :
  (List.length (stdin w) < fuel)%nat ->
  snd (interactive_loop sin vDSP_ctoz vDSP_fft_zrip indeterminate fuel w)
  <> OutOfFuel.
Proof.
  revert w; induction fuel as [|fuel IH]; intros w Hw; [lia|].
  cbn [interactive_loop].
  apply bind_no_loop; [discriminate|]. intros w1 [] E1.
  injection E1 as <-.
  apply bind_no_loop; [unfold scan; destruct (skip_spaces _); discriminate|].
  intros w2 c E2. unfold scan in E2. cbn [stdin] in E2.
  pose proof (skip_spaces_length (stdin w)) as Hs.
  destruct (skip_spaces (stdin w)) as [c0 rest]. injection E2 as <- <-.
  destruct c0 as [k|]; [|discriminate].
  destruct (Ascii.eqb k newline); [discriminate|].
  apply bind_no_loop; [apply safe_defined|]. intros w3 F E3.
  unfold defined in E3.
  destruct (ConvertKeyToFrequencies (toupper k)); [|discriminate].
  injection E3 as <- _.
  apply bind_no_loop.
  { destruct (is_valid_key F);
      [apply Demonstrate_input_safe | discriminate]. }
  intros w4 [] E4.
  assert (H4 : stdin w4 = rest).
  { destruct (is_valid_key F).
    - match type of E4 with
      | _ ?w0 = _ =>
          pose proof (proj1 (Demonstrate_input_safe F w0)) as H
      end.
      rewrite E4 in H. exact H.
    - injection E4 as <-. reflexivity. }
  apply bind_no_loop; [unfold scan; destruct (skip_line _); discriminate|].
  intros w5 c' E5. unfold scan in E5.
  pose proof (skip_line_length (stdin w4)) as Hl.
  destruct (skip_line (stdin w4)) as [c1 rest']. injection E5 as <- <-.
  destruct c1; [|discriminate].
  apply IH. cbn [stdin snd] in *. rewrite H4 in Hl. lia.
Qed.
End Fuel.

(** ** The transform buffer of [Demonstrate]

    The bin of 1633 Hz is 128 = SampleLength/2: for the buffer of
    [SampleLength] floats that [Demonstrate] allocates, with the imaginary
    parts in its second half, [imagp[128]] is one past the end. *)
Lemma FindTone_DTMF0_past_buffer (BufferMemory : list float32) :
  List.length BufferMemory = Z.to_nat SampleLength ->
  bin_index (F32.of_Z 1633) = Some (SampleLength / 2) /\
  FindTone {| realp := {| block := BufferMemory; offset := 0 |};
              imagp := {| block := BufferMemory;
                          offset := SampleLength / 2 |} |}
           DTMF0 (Z.of_nat (List.length DTMF0)) = None.
Proof.
  intro Hlen. split; [reflexivity|].
  set (B := {| realp := _; imagp := _ |}).
  assert (H3 : forall st, FindTone_body B DTMF0 3 st = None).
  { intro st.
    assert (Him : load (imagp B) 128 = None).
    { unfold load, B. cbn [imagp offset block].
      change (SampleLength / 2 + 128 <? 0) with false. cbv iota.
      apply nth_error_None. rewrite Hlen. reflexivity. }
    unfold FindTone_body. change (3 <? 0) with false. cbv iota.
    change (nth_error DTMF0 (Z.to_nat 3)) with (Some (F32.of_Z 1633)).
    cbv iota. change (bin_index (F32.of_Z 1633)) with (Some 128). cbv iota.
    rewrite Him. destruct (load (realp B) 128); reflexivity. }
  unfold FindTone, FindTone_run.
  change (Z.to_nat (Z.of_nat (List.length DTMF0))) with 4%nat.
  cbn [FindTone_loop].
  destruct (FindTone_body B DTMF0 0 _) as [st1|]; [|reflexivity].
  destruct (FindTone_body B DTMF0 (0 + 1) st1) as [st2|]; [|reflexivity].
  destruct (FindTone_body B DTMF0 (0 + 1 + 1) st2) as [st3|]; [|reflexivity].
  change (0 + 1 + 1 + 1) with 3. rewrite H3. reflexivity.
Qed.

(** * Further properties of the program *)

(** ** The key lookup *)

Lemma accepted_keys_bool (c : ascii) :
  match ConvertKeyToFrequencies (toupper c) with
  | Some F => is_valid_key F
  | None => false
  end = existsb (Ascii.eqb c) accepted_keys.
Proof.
  destruct c as [[] [] [] [] [] [] [] []]; vm_compute; reflexivity.
Qed.

(** X1.  The characters for which the loops of [main] call [Demonstrate]
    (the lookup of the upper-case form is defined and passes the test
    [Frequency[0] != 0]) are exactly the 16 symbols and the letters
    [a]..[d]. *)
Theorem accepted_keys_spec (c : ascii) :
  (exists F, ConvertKeyToFrequencies (toupper c) = Some F /\
             is_valid_key F = true) <->
  In c accepted_keys.
Proof.
  pose proof (accepted_keys_bool c) as B. split.
  - intros (F & E & V). rewrite E, V in B. symmetry in B.
    apply existsb_exists in B. destruct B as (x & Hx & Ex).
    apply Ascii.eqb_eq in Ex. subst. exact Hx.
  - intro Hin.
    assert (T : existsb (Ascii.eqb c) accepted_keys = true).
    { apply existsb_exists. exists c. split; [exact Hin | apply Ascii.eqb_refl]. }
    rewrite T in B.
    destruct (ConvertKeyToFrequencies (toupper c)) as [F|]; [|discriminate].
    exists F. split; [reflexivity | exact B].
Qed.

(** ** The generator *)

(** X2.  The state stays a 32-bit value, and a step of the generator can
    be undone: 4276115653 is the inverse of the multiplier modulo 2^32.
    So two different states never have the same successor. *)
Theorem Random_state_invertible (s : Z) :
  0 <= s < 2 ^ 32 ->
  0 <= fst (Random s) < 2 ^ 32 /\
  (4276115653 * (fst (Random s) - 1013904223)) mod 2 ^ 32 = s /\
  forall t, 0 <= t < 2 ^ 32 -> fst (Random t) = fst (Random s) -> t = s.
Proof.
  intro Hs.
  assert (Inv : forall u, 0 <= u < 2 ^ 32 ->
            (4276115653 * (fst (Random u) - 1013904223)) mod 2 ^ 32 = u).
  { intros u Hu. unfold Random, fst.
    rewrite <- Zmult_mod_idemp_r, <- Zminus_mod_idemp_l, Zmod_mod,
      Zminus_mod_idemp_l, Zmult_mod_idemp_r.
    replace (4276115653 * (1664525 * u + 1013904223 - 1013904223))
      with (u + (1657219 * u) * 2 ^ 32) by ring.
    rewrite Z_mod_plus_full. apply Z.mod_small. exact Hu. }
  split; [|split].
  - unfold Random, fst. apply Z.mod_pos_bound. lia.
  - apply Inv. exact Hs.
  - intros t Ht E. rewrite <- (Inv t Ht), E. apply Inv. exact Hs.
Qed.

Lemma Random_state_invertible_witness :
  0 <= fst (Random 1) < 2 ^ 32 /\
  (4276115653 * (fst (Random 1) - 1013904223)) mod 2 ^ 32 = 1 /\
  forall t, 0 <= t < 2 ^ 32 -> fst (Random t) = fst (Random 1) -> t = 1.
Proof. apply (Random_state_invertible 1). lia. Defined.

(** The shape of the value of [Random]: zero, or a 24-bit mantissa with an
    exponent in -48..-24. *)
Lemma Random_shape (m : Z) :
  0 <= m < 2 ^ 24 ->
  F32.mul (F32.of_Z m) inv_2_24 = S754_zero false \/
  exists (P : positive) (E : Z),
    F32.mul (F32.of_Z m) inv_2_24 = S754_finite false P (E - 24) /\
    digits2_pos P = 24%positive /\ -24 < E <= 0 /\
    Zpos P = m * 2 ^ (- E).
Proof.
  intro Hm. destruct m as [|p|p]; try lia.
  - left. reflexivity.
  - right. destruct (F32_of_Z_24 p) as (P & E & -> & HP & HE & HPp); [lia|].
    exists P, E. rewrite F32_mul_inv_2_24 by assumption. auto.
Qed.

Lemma F32_mul_4 (P : positive) (E : Z) :
  digits2_pos P = 24%positive -> -24 < E <= 0 ->
  F32.mul (F32.of_Z 4) (S754_finite false P (E - 24))
  = S754_finite false P (E - 22).
Proof.
  intros HP HE.
  change (F32.of_Z 4) with (S754_finite false (1 * 2 ^ 23) (-21)).
  unfold F32.mul, SFmul. change (xorb false false) with false.
  replace (1 * 2 ^ 23 * P)%positive with (P * 2 ^ 23)%positive by lia.
  rewrite binary_round_aux_shift.
  - replace (-21 + (E - 24) + 23) with (E - 22) by lia.
    replace (E - 22 <=? F32.emax - F32.prec) with true; [reflexivity|].
    symmetry; apply Z.leb_le. unfold F32.emax, F32.prec. lia.
  - rewrite HP. unfold fexp, emin, F32.prec, F32.emax. lia.
Qed.

(** The noise sample [4 * Random()] is four times the value drawn,
    without rounding, hence a finite number in [0, 4). *)
Lemma noise_value (s : Z) :
  let v := F32.mul (F32.of_Z 4) (snd (Random s)) in
  is_finite v = true /\
  (SF2Q v == 4 * SF2Q (snd (Random s)))%Q /\
  (0 <= SF2Q v)%Q /\ (SF2Q v < 4)%Q.
Proof.
  pose proof (Random_high_bits s) as Hb.
  change (snd (Random s))
    with (F32.mul (F32.of_Z (Z.shiftr (fst (Random s)) 8)) inv_2_24).
  destruct (Random_shape _ Hb) as [-> | (P & E & -> & HP & HE & HPm)].
  - cbv zeta. repeat split; try reflexivity; discriminate.
  - cbv zeta. rewrite F32_mul_4 by assumption.
    pose proof (digits2_pos_bounds P) as [_ HPb]. rewrite HP in HPb.
    assert (H2 : 2 ^ 22 <= 2 ^ (- (E - 22))) by (apply Z.pow_le_mono_r; lia).
    change (2 ^ 24) with (4 * 2 ^ 22) in HPb.
    split; [reflexivity|].
    rewrite !SF2Q_neg_exp by lia. unfold Qeq, Qle, Qlt, Qmult.
    cbn [Qnum Qden cond_Zopp].
    rewrite Pos2Z.inj_mul, !Z2Pos.id by (apply Z.pow_pos_nonneg; lia).
    replace (- (E - 24)) with (- (E - 22) + 2) by lia.
    rewrite Z.pow_add_r by lia. change (2 ^ 2) with 4.
    set (D := 2 ^ (- (E - 22))) in *.
    change (Zpos 1) with 1. repeat split; nia.
Qed.

(** X3.  After the noise loop of [Demonstrate] has filled [n] samples,
    each of them is a finite number in [0, 4): four times draw number [i],
    without rounding. *)
Theorem noise_loop_range (n : nat) (Signal : list float32) (s : Z) :
  (n <= List.length Signal)%nat ->
  exists Signal',
    noise_loop n 0 Signal s = Some (Signal', Seed_after n s) /\
    forall i, (i < n)%nat ->
      exists v, nth_error Signal' i = Some v /\
                is_finite v = true /\
                (SF2Q v == 4 * SF2Q (draw i s))%Q /\
                (0 <= SF2Q v)%Q /\ (SF2Q v < 4)%Q.
Proof.
  intro Hn.
  destruct (noise_loop_spec n 0 Signal s ltac:(lia)) as (S1 & E1 & _ & N1).
  exists S1. split; [exact E1|]. intros i Hi.
  exists (F32.mul (F32.of_Z 4) (draw i s)). split.
  - rewrite N1. unfold in_range.
    replace ((0 <=? i)%nat && (i <? 0 + n)%nat) with true.
    + rewrite Nat.sub_0_r. reflexivity.
    + symmetry. apply andb_true_iff.
      split; [apply Nat.leb_le | apply Nat.ltb_lt]; lia.
  - apply (noise_value (Seed_after i s)).
Qed.

Lemma noise_loop_range_witness :
  exists Signal',
    noise_loop 3 0 (repeat S754_nan 3) 1 = Some (Signal', Seed_after 3 1) /\
    forall i, (i < 3)%nat ->
      exists v, nth_error Signal' i = Some v /\
                is_finite v = true /\
                (SF2Q v == 4 * SF2Q (draw i 1))%Q /\
                (0 <= SF2Q v)%Q /\ (SF2Q v < 4)%Q.
Proof. apply (noise_loop_range 3 (repeat S754_nan 3) 1). cbn. lia. Defined.

(** ** More on [FindTone] *)

Lemma readable_score (Buffer : DSPSplitComplex) (Frequencies : list float32)
    (j : nat) :
  readable Buffer Frequencies j <->
  candidate_score Buffer Frequencies j <> None.
Proof.
  unfold readable, candidate_score, score. split.
  - intros (f & index & re & im & -> & -> & -> & ->). discriminate.
  - destruct (nth_error Frequencies j) as [f|] eqn:Ef;
      [|intro H; destruct (H eq_refl)].
    destruct (bin_index f) as [index|] eqn:Eb;
      [|intro H; destruct (H eq_refl)].
    destruct (load (realp Buffer) index) as [re|] eqn:Er;
      [|intro H; destruct (H eq_refl)].
    destruct (load (imagp Buffer) index) as [im|] eqn:Ei;
      [|intro H; destruct (H eq_refl)].
    intros _. exists f, index, re, im. repeat split; assumption.
Qed.

Lemma FindTone_body_defined (Buffer : DSPSplitComplex)
    (Frequencies : list float32) (k : nat) (st st' : ToneState) :
  FindTone_body Buffer Frequencies (Z.of_nat k) st = Some st' ->
  candidate_score Buffer Frequencies k <> None.
Proof.
  unfold FindTone_body, candidate_score, score.
  destruct (Z.of_nat k <? 0); [discriminate|]. rewrite Nat2Z.id.
  destruct (nth_error Frequencies k) as [f|]; [|discriminate].
  destruct (bin_index f) as [index|]; [|discriminate].
  destruct (load (realp Buffer) index) as [re|]; [|discriminate].
  destruct (load (imagp Buffer) index) as [im|]; discriminate.
Qed.

Lemma FindTone_loop_defined (Buffer : DSPSplitComplex)
    (Frequencies : list float32) (n k : nat) (st st' : ToneState) :
  FindTone_loop Buffer Frequencies n (Z.of_nat k) st = Some st' ->
  forall j, (k <= j < k + n)%nat ->
            candidate_score Buffer Frequencies j <> None.
Proof.
  revert k st; induction n as [|n IH]; intros k st H j Hj; [lia|].
  cbn [FindTone_loop] in H.
  destruct (FindTone_body Buffer Frequencies (Z.of_nat k) st) as [st1|] eqn:E1;
    [|discriminate].
  destruct (Nat.eq_dec j k) as [->|Hne].
  - eapply FindTone_body_defined; eassumption.
  - replace (Z.of_nat k + 1) with (Z.of_nat (S k)) in H by lia.
    apply (IH (S k) st1 H). lia.
Qed.

(** X4.  [FindTone] over the first [n] candidates is defined exactly when
    every one of them exists, has a bin that is an [int], and both parts of
    that bin lie inside the buffer: nothing else is read, and nothing is
    checked. *)
Theorem FindTone_defined_iff (Buffer : DSPSplitComplex)
    (Frequencies : list float32) (n : nat) :
  FindTone Buffer Frequencies (Z.of_nat n) <> None <->
  forall j, (j < n)%nat -> readable Buffer Frequencies j.
Proof.
  split.
  - intros H j Hj. apply readable_score.
    unfold FindTone in H.
    destruct (FindTone_run Buffer Frequencies (Z.of_nat n)) as [st|] eqn:E;
      [|exfalso; apply H; reflexivity].
    unfold FindTone_run in E. rewrite Nat2Z.id in E.
    apply (FindTone_loop_defined Buffer Frequencies n 0 _ st E). lia.
  - intro H.
    destruct (FindTone_run_inv Buffer Frequencies n) as (st & E & _).
    + intros j Hj. apply readable_score, H, Hj.
    + unfold FindTone. rewrite E. discriminate.
Qed.

Lemma FindTone_loop_local (B1 B2 : DSPSplitComplex)
    (Frequencies : list float32) (n : nat) (i : Z) (st : ToneState) :
  (forall f index, In f Frequencies -> bin_index f = Some index ->
     load (realp B1) index = load (realp B2) index /\
     load (imagp B1) index = load (imagp B2) index) ->
  FindTone_loop B1 Frequencies n i st = FindTone_loop B2 Frequencies n i st.
Proof.
  intro H. revert i st; induction n as [|n IH]; intros i st; [reflexivity|].
  cbn [FindTone_loop].
  assert (E : FindTone_body B1 Frequencies i st
              = FindTone_body B2 Frequencies i st).
  { unfold FindTone_body. destruct (i <? 0); [reflexivity|].
    destruct (nth_error Frequencies (Z.to_nat i)) as [f|] eqn:Ef; [|reflexivity].
    destruct (bin_index f) as [index|] eqn:Eb; [|reflexivity].
    destruct (H f index (nth_error_In _ _ Ef) Eb) as [-> ->]. reflexivity. }
  rewrite E. destruct (FindTone_body B2 Frequencies i st); [apply IH | reflexivity].
Qed.

(** X5.  [FindTone] depends on the buffer only through the bins of the
    candidates: two buffers that agree there give the same result (or are
    both undefined), whatever else they hold. *)
Theorem FindTone_local (B1 B2 : DSPSplitComplex)
    (Frequencies : list float32) (N : Z) :
  (forall f index, In f Frequencies -> bin_index f = Some index ->
     load (realp B1) index = load (realp B2) index /\
     load (imagp B1) index = load (imagp B2) index) ->
  FindTone B1 Frequencies N = FindTone B2 Frequencies N.
Proof.
  intro H. unfold FindTone, FindTone_run.
  rewrite (FindTone_loop_local B1 B2 Frequencies _ _ _ H). reflexivity.
Qed.

Lemma FindTone_local_witness :
  FindTone flat_buffer DTMF1 4 =
  FindTone {| realp := {| block := repeat (F32.of_Z 1) 129 ++ [S754_nan];
                          offset := 0 |};
              imagp := imagp flat_buffer |} DTMF1 4.
Proof.
  apply (FindTone_local flat_buffer _ DTMF1 4).
  intros f index [<-|[<-|[<-|[<-|[]]]]] E; vm_compute in E;
    injection E as <-; split; reflexivity.
Defined.

(** X6.  When the first [n] candidates are readable and candidate [k]
    scores strictly more than each of the others, [FindTone] returns
    [k]. *)
Theorem FindTone_strict_winner (Buffer : DSPSplitComplex)
    (Frequencies : list float32) (n k : nat) (v : float32) :
  (forall j, (j < n)%nat -> readable Buffer Frequencies j) ->
  (k < n)%nat ->
  candidate_score Buffer Frequencies k = Some v ->
  (forall j vj, (j < n)%nat -> j <> k ->
     candidate_score Buffer Frequencies j = Some vj ->
     F32.ltb vj v = true) ->
  FindTone Buffer Frequencies (Z.of_nat n) = Some (Z.of_nat k).
Proof.
  intros Hread Hk Ev Hwin.
  destruct (FindTone_run_inv Buffer Frequencies n)
    as (st & E & Hmax & Hidx & _).
  { intros j Hj. apply readable_score, Hread, Hj. }
  unfold FindTone. rewrite E. cbn [option_map]. f_equal.
  pose proof (Hmax k v Hk Ev) as Hkmax.
  destruct Hidx as [(Hi & Hv) | (m & Hm & Hi & Hvm & _)].
  - (* nothing exceeded -1: every score is NaN *)
    rewrite Hv in Hkmax.
    assert (Nv : is_nan v = true).
    { destruct (is_nan v) eqn:N; [reflexivity|].
      rewrite (minus_one_below v (candidate_score_signed _ _ _ _ Ev) N)
        in Hkmax. discriminate. }
    destruct (Nat.eq_dec k 0) as [->|Hne]; [rewrite Hi; reflexivity|].
    exfalso.
    destruct (candidate_score Buffer Frequencies 0) as [v0|] eqn:E0.
    + pose proof (Hwin 0%nat v0 ltac:(lia) ltac:(lia) E0) as L.
      apply is_nan_true in Nv. subst v. rewrite ltb_nan_r in L. discriminate.
    + apply (proj1 (readable_score Buffer Frequencies 0)) in E0;
        [exact E0 | apply Hread; lia].
  - destruct (Nat.eq_dec m k) as [->|Hne]; [exact Hi|].
    exfalso. pose proof (Hwin m _ Hm Hne Hvm) as L.
    rewrite Hkmax in L. discriminate.
Qed.

Lemma FindTone_strict_winner_witness :
  FindTone peak_buffer DTMF0 (Z.of_nat 4) = Some (Z.of_nat 2).
Proof.
  apply (FindTone_strict_winner peak_buffer DTMF0 4 2
           (amplitude2 (F32.of_Z 3) (F32.of_Z 1))).
  - intros j Hj. apply readable_score.
    do 4 (destruct j as [|j]; [vm_compute; discriminate|]). lia.
  - lia.
  - reflexivity.
  - intros j vj Hj Hne E.
    do 4 (destruct j as [|j];
          [first [ congruence
                 | vm_compute in E; injection E as <-; reflexivity ]|]).
    lia.
Defined.

(** ** The buffer of [Demonstrate] *)

Lemma load_split_realp (BufferMemory : list float32) (i : Z) :
  0 <= i < Z.of_nat (List.length BufferMemory) ->
  load (realp (split_buffer BufferMemory)) i <> None.
Proof.
  intro Hi. unfold load, split_buffer. cbn [realp offset block].
  rewrite Z.add_0_l.
  replace (i <? 0) with false by (symmetry; apply Z.ltb_ge; lia).
  apply nth_error_Some. lia.
Qed.

Lemma load_split_imagp (BufferMemory : list float32) (i : Z) :
  0 <= 128 + i < Z.of_nat (List.length BufferMemory) ->
  load (imagp (split_buffer BufferMemory)) i <> None.
Proof.
  intro Hi. unfold load, split_buffer. cbn [imagp offset block].
  change (SampleLength / 2) with 128.
  replace (128 + i <? 0) with false by (symmetry; apply Z.ltb_ge; lia).
  apply nth_error_Some. lia.
Qed.

(** X7.  On the buffer of [Demonstrate], whatever its [SampleLength]
    floats are, the search among the frequencies of [DTMF1] stays inside
    the buffer (bins 55, 60, 67 and 74) and returns an index of
    [DTMF1]. *)
Theorem FindTone_DTMF1_in_buffer (BufferMemory : list float32) :
  List.length BufferMemory = Z.to_nat SampleLength ->
  exists st,
    FindTone_run (split_buffer BufferMemory) DTMF1
      (Z.of_nat (List.length DTMF1)) = Some st /\
    bins_read st = [55; 60; 67; 74] /\
    0 <= MaximumIndex st < 4 /\
    element DTMF1 (MaximumIndex st) <> None.
Proof.
  intro Hlen.
  assert (Hl : Z.of_nat (List.length BufferMemory) = 256)
    by (rewrite Hlen; reflexivity).
  destruct (FindTone_run_inv (split_buffer BufferMemory) DTMF1 4)
    as (st & E & _ & Hidx & Hread).
  { intros j Hj. unfold candidate_score, score.
    do 4 (destruct j as [|j];
          [cbn [nth_error DTMF1 map];
           match goal with
           | |- context [bin_index ?f] =>
               let b := eval vm_compute in (bin_index f) in
               change (bin_index f) with b
           end; cbv iota;
           match goal with
           | |- context [load (realp ?B) ?i] =>
               pose proof (load_split_realp BufferMemory i ltac:(lia));
               pose proof (load_split_imagp BufferMemory i ltac:(lia));
               destruct (load (realp B) i); [|congruence];
               destruct (load (imagp B) i); [discriminate|congruence]
           end|]).
    lia. }
  exists st. split; [exact E|].
  assert (Hi : 0 <= MaximumIndex st < 4)
    by (destruct Hidx as [(-> & _) | (m & Hm & -> & _)]; lia).
  split; [|split; [exact Hi|]].
  - cbn [firstn DTMF1 map] in Hread.
    repeat match goal with
           | H : Forall2 _ (_ :: _) _ |- _ => inversion H; subst; clear H
           | H : Forall2 _ [] _ |- _ => inversion H; subst; clear H
           end.
    repeat match goal with
           | H : bin_index _ = Some _ |- _ =>
               vm_compute in H; injection H as <-
           end.
    reflexivity.
  - unfold element.
    replace (MaximumIndex st <? 0) with false by (symmetry; apply Z.ltb_ge; lia).
    apply nth_error_Some. cbn. lia.
Qed.

Lemma FindTone_DTMF1_in_buffer_witness :
  exists st,
    FindTone_run (split_buffer (repeat (F32.of_Z 1) 256)) DTMF1
      (Z.of_nat (List.length DTMF1)) = Some st /\
    bins_read st = [55; 60; 67; 74] /\
    0 <= MaximumIndex st < 4 /\
    element DTMF1 (MaximumIndex st) <> None.
Proof.
  apply (FindTone_DTMF1_in_buffer (repeat (F32.of_Z 1) 256)). reflexivity.
Defined.

(** ** [Demonstrate] *)

Lemma bind_done {A B} (c : M A) (k : A -> M B) (w w' : World) (a : A) :
  c w = (w', Done a) -> bind c k w = k a w'.
Proof. intro E. unfold bind. rewrite E. reflexivity. Qed.

Lemma synthesize_defined (sin : float64 -> float64) (len : Z)
    (F : FrequencyPair) (Signal0 : list float32) (s : Z) :
  List.length Signal0 = Z.to_nat len ->
  exists Signal,
    synthesize sin len F Signal0 s
    = Some (Signal, Seed_after (Z.to_nat len + 2) s) /\
    List.length Signal = Z.to_nat len.
Proof.
  intro Hlen. unfold synthesize.
  destruct (noise_loop_spec (Z.to_nat len) 0 Signal0 s ltac:(lia))
    as (S1 & E1 & L1 & _).
  change (Z.of_nat 0) with 0 in E1. rewrite E1.
  destruct (Random (Seed_after (Z.to_nat len) s)) as [s2 Phase0] eqn:R1.
  destruct (tone_loop_spec sin (Z.to_nat len) 0 (Frequency0 F) Phase0 S1
              ltac:(lia)) as (S2 & E2 & L2 & _).
  change (Z.of_nat 0) with 0 in E2. rewrite E2.
  destruct (Random s2) as [s3 Phase1] eqn:R2.
  destruct (tone_loop_spec sin (Z.to_nat len) 0 (Frequency1 F) Phase1 S2
              ltac:(lia)) as (S3 & E3 & L3 & _).
  change (Z.of_nat 0) with 0 in E3. rewrite E3.
  exists S3. split; [|lia]. f_equal. f_equal.
  replace (Z.to_nat len + 2)%nat with (S (S (Z.to_nat len))) by lia.
  rewrite !Seed_after_S, R1. cbn [fst]. rewrite R2. reflexivity.
Qed.

Section DemonstrateProperties.
Variable sin : float64 -> float64.
Variable vDSP_ctoz : list float32 -> list float32 -> list float32.
Variable vDSP_fft_zrip : list float32 -> list float32.
Variable indeterminate : float32.

Local Abbreviation demonstrate :=
  (Demonstrate sin vDSP_ctoz vDSP_fft_zrip indeterminate).

(** X8.  When the first allocation fails, [Demonstrate] reports it on the
    standard error and exits with [EXIT_FAILURE] before anything else:
    nothing is printed on the standard output and the generator is not
    touched.  When the second fails, the signal has been announced and
    synthesised ([SampleLength + 2] draws) and the program exits the same
    way, before any library call. *)
Theorem Demonstrate_allocation_failure (F : FrequencyPair) (w : World) :
  (forall h, heap w = false :: h ->
     demonstrate F w =
     ({| Seed := Seed w; stdin := stdin w; heap := h;
         trace := trace w ++ [Stderr NoMemory] |}, Exit EXIT_FAILURE)) /\
  (forall h, heap w = true :: false :: h ->
     demonstrate F w =
     (demonstrated w 2 [Stdout Generating; Stderr NoMemory],
      Exit EXIT_FAILURE)).
Proof.
  split; intros h Hh.
  - unfold Demonstrate, bind, malloc. rewrite Hh. reflexivity.
  - unfold Demonstrate.
    rewrite (bind_done _ _ w
               {| Seed := Seed w; stdin := stdin w; heap := false :: h;
                  trace := trace w |}
               (Some (repeat indeterminate (Z.to_nat SampleLength))))
      by (unfold malloc; rewrite Hh; reflexivity).
    erewrite bind_done by reflexivity.
    destruct (synthesize_defined sin SampleLength F
                (repeat indeterminate (Z.to_nat SampleLength)) (Seed w))
      as (Signal & Es & _); [apply repeat_length|].
    erewrite bind_done
      by (unfold with_Seed; cbn [Seed]; rewrite Es; reflexivity).
    unfold bind, malloc, fprintf_stderr, log, exit, demonstrated.
    cbn [heap Seed stdin trace]. rewrite Hh, <- app_assoc. reflexivity.
Qed.

(** X9.  When both allocations succeed and the transform leaves
    [SampleLength] floats in the buffer, [Demonstrate] synthesises the
    signal ([SampleLength + 2] draws), calls [vDSP_ctoz] and
    [vDSP_fft_zrip], and then reads outside the buffer: the last candidate
    of [DTMF0], 1633 Hz, has bin 128 = SampleLength/2, and [imagp[128]] is
    one past the end of [BufferMemory].  The behaviour is undefined from
    there; "Found frequencies" is not reached in a defined way. *)
Theorem Demonstrate_reads_past_buffer (F : FrequencyPair) (w : World) :
  ~ In false (firstn 2 (heap w)) ->
  (forall b, List.length (vDSP_fft_zrip b) = Z.to_nat SampleLength) ->
  demonstrate F w =
  (demonstrated w 2
     [Stdout Generating; Call Ctoz; Stdout Analyzing; Call FFT],
   Undefined).
Proof.
  intros Hheap Hfft. unfold Demonstrate.
  set (w1 := {| Seed := Seed w; stdin := stdin w; heap := tl (heap w);
                trace := trace w |}).
  rewrite (bind_done _ _ w w1
             (Some (repeat indeterminate (Z.to_nat SampleLength)))).
  2:{ unfold malloc. destruct (heap w) as [|[] h] eqn:Eh; try reflexivity.
      exfalso. apply Hheap. left. reflexivity. }
  subst w1. erewrite bind_done by reflexivity.
  destruct (synthesize_defined sin SampleLength F
              (repeat indeterminate (Z.to_nat SampleLength)) (Seed w))
    as (Signal & Es & _); [apply repeat_length|].
  erewrite bind_done
    by (unfold with_Seed; cbn [Seed]; rewrite Es; reflexivity).
  cbn [Seed stdin heap trace].
  set (w2 := {| Seed := _; stdin := _; heap := tl (heap w); trace := _ |}).
  rewrite (bind_done _ _ w2
             {| Seed := Seed w2; stdin := stdin w2; heap := tl (heap w2);
                trace := trace w2 |}
             (Some (repeat indeterminate (Z.to_nat SampleLength)))).
  2:{ unfold malloc. subst w2. cbn [heap].
      destruct (heap w) as [|b [|[] h]] eqn:Eh; try reflexivity.
      exfalso. apply Hheap. right. left. reflexivity. }
  erewrite bind_done by reflexivity. cbv zeta.
  erewrite bind_done by reflexivity.
  erewrite bind_done by reflexivity.
  unfold bind at 1. unfold defined at 1.
  pose proof (FindTone_DTMF0_past_buffer
                (vDSP_fft_zrip
                   (vDSP_ctoz Signal
                      (repeat indeterminate (Z.to_nat SampleLength))))
                (Hfft _)) as [_ Hnone].
  rewrite Hnone. unfold demonstrated. subst w2. cbn [Seed stdin heap trace].
  f_equal. f_equal.
  - destruct (heap w) as [|b [|b' h]]; reflexivity.
  - rewrite <- !app_assoc. reflexivity.
Qed.
End DemonstrateProperties.

Lemma Demonstrate_reads_past_buffer_witness :
  Demonstrate (fun x => x) (fun s b => s)
    (fun _ => repeat (F32.of_Z 0) 256) S754_nan
    {| Frequency0 := F32.of_Z 1209; Frequency1 := F32.of_Z 697 |}
    quiet_world =
  (demonstrated quiet_world 2
     [Stdout Generating; Call Ctoz; Stdout Analyzing; Call FFT],
   Undefined).
Proof.
  apply (Demonstrate_reads_past_buffer (fun x => x) (fun s b => s)
           (fun _ => repeat (F32.of_Z 0) 256) S754_nan).
  - intros [].
  - intro b. reflexivity.
Defined.

(** ** The life of the FFT setup and the exit status *)

Lemma orderly_quiet {A} (c : M A) :
  (forall w, trace (fst (c w)) = trace w) ->
  (forall w status, snd (c w) = Exit status -> status = EXIT_FAILURE) ->
  orderly c.
Proof.
  intros Ht He w. split; [|apply He].
  exists []. rewrite app_nil_r. repeat split; auto.
Qed.

Lemma orderly_ret {A} (a : A) : orderly (ret a).
Proof. apply orderly_quiet; [reflexivity | discriminate]. Qed.

Lemma orderly_defined {A} (o : option A) : orderly (defined o).
Proof.
  apply orderly_quiet; intro w; unfold defined; destruct o;
    try reflexivity; discriminate.
Qed.

Lemma orderly_scan {A} (f : list ascii -> A * list ascii) : orderly (scan f).
Proof.
  apply orderly_quiet; intro w; unfold scan; destruct (f (stdin w));
    try reflexivity; discriminate.
Qed.

Lemma orderly_with_Seed {A} (f : Z -> option (A * Z)) : orderly (with_Seed f).
Proof.
  apply orderly_quiet; intro w; unfold with_Seed;
    destruct (f (Seed w)) as [[a s]|]; try reflexivity; discriminate.
Qed.

Lemma orderly_malloc (indeterminate : float32) (n : Z) :
  orderly (malloc indeterminate n).
Proof.
  apply orderly_quiet; intro w; unfold malloc;
    destruct (heap w) as [|[] h]; try reflexivity; discriminate.
Qed.

Lemma orderly_exit {A} : orderly (@exit A EXIT_FAILURE).
Proof.
  apply orderly_quiet; [reflexivity|]. intros w status H.
  injection H as <-. reflexivity.
Qed.

Lemma orderly_log (e : Event) :
  e <> Call CreateSetup -> e <> Call DestroySetup -> orderly (log e).
Proof.
  intros H1 H2 w. split; [|discriminate].
  exists [e]. split; [reflexivity|].
  split; intros [E|[]]; congruence.
Qed.

Lemma orderly_bind {A B} (c : M A) (k : A -> M B) :
  orderly c -> (forall a, orderly (k a)) -> orderly (bind c k).
Proof.
  intros Hc Hk w. destruct (Hc w) as [(ev1 & T1 & C1 & D1) X1].
  unfold bind. destruct (c w) as [w1 [a| | |]]; cbn [fst snd] in *.
  - destruct (Hk a w1) as [(ev2 & T2 & C2 & D2) X2]. split; [|exact X2].
    exists (ev1 ++ ev2). rewrite T2, T1, app_assoc. split; [reflexivity|].
    split; intro H; apply in_app_or in H; tauto.
  - split; [exists ev1; auto|].
    intros st E. injection E as <-. apply X1. reflexivity.
  - split; [exists ev1; auto | discriminate].
  - split; [exists ev1; auto | discriminate].
Qed.

Section Lifecycle.
Variable sin : float64 -> float64.
Variable vDSP_ctoz : list float32 -> list float32 -> list float32.
Variable vDSP_fft_zrip : list float32 -> list float32.
Variable indeterminate : float32.

Lemma orderly_Demonstrate (F : FrequencyPair) :
  orderly (Demonstrate sin vDSP_ctoz vDSP_fft_zrip indeterminate F).
Proof.
  unfold Demonstrate, printf, fprintf_stderr.
  apply orderly_bind; [apply orderly_malloc|]. intros [Signal|].
  - apply orderly_bind; [apply orderly_log; discriminate|]. intros _.
    apply orderly_bind; [apply orderly_with_Seed|]. intro Signal'.
    apply orderly_bind; [apply orderly_malloc|]. intros [BufferMemory|].
    + do 3 (apply orderly_bind; [apply orderly_log; discriminate|];
            intros _; cbv zeta).
      do 5 (apply orderly_bind; [apply orderly_defined|]; intro).
      apply orderly_log; discriminate.
    + apply orderly_bind;
        [apply orderly_log; discriminate | intros _; apply orderly_exit].
  - apply orderly_bind;
      [apply orderly_log; discriminate | intros _; apply orderly_exit].
Qed.

Lemma orderly_argument_loop (p : list ascii) :
  orderly (argument_loop sin vDSP_ctoz vDSP_fft_zrip indeterminate p).
Proof.
  induction p as [|c p IH]; cbn [argument_loop]; [apply orderly_ret|].
  destruct (Ascii.eqb c NUL); [apply orderly_ret|].
  apply orderly_bind; [apply orderly_defined|]. intro F.
  apply orderly_bind; [|intros _; exact IH].
  destruct (is_valid_key F).
  - apply orderly_bind;
      [apply orderly_log; discriminate | intros _; apply orderly_Demonstrate].
  - apply orderly_log; discriminate.
Qed.

Lemma orderly_interactive_loop (fuel : nat) :
  orderly (interactive_loop sin vDSP_ctoz vDSP_fft_zrip indeterminate fuel).
Proof.
  induction fuel as [|fuel IH]; cbn [interactive_loop].
  - apply orderly_quiet; [reflexivity | discriminate].
  - apply orderly_bind; [apply orderly_log; discriminate|]. intros _.
    apply orderly_bind; [apply orderly_scan|]. intros [k|];
      [|apply orderly_ret].
    destruct (Ascii.eqb k newline); [apply orderly_ret|].
    apply orderly_bind; [apply orderly_defined|]. intro F.
    apply orderly_bind.
    { destruct (is_valid_key F);
        [apply orderly_Demonstrate | apply orderly_ret]. }
    intros _. apply orderly_bind; [apply orderly_scan|].
    intros [k'|]; [exact IH | apply orderly_ret].
Qed.

(** X10.  [main] creates the FFT setup exactly once, before any output;
    it destroys it exactly when it returns, as its last action, and then
    returns 0.  When it stops through [exit] (setup or allocation failure,
    too many arguments) the status is [EXIT_FAILURE] and the setup is never
    destroyed. *)
Theorem main_setup_lifecycle (argv : list (list ascii)) (now : Z)
    (setup_ok : bool) (fuel : nat) (w : World) :
  let w' := fst (main sin vDSP_ctoz vDSP_fft_zrip indeterminate
                   argv now setup_ok fuel w) in
  let outcome := snd (main sin vDSP_ctoz vDSP_fft_zrip indeterminate
                        argv now setup_ok fuel w) in
  exists events,
    trace w' = trace w ++ Call CreateSetup :: events /\
    ~ In (Call CreateSetup) events /\
    (forall status, outcome = Exit status -> status = EXIT_FAILURE) /\
    match outcome with
    | Done r =>
        r = 0 /\
        exists body, events = body ++ [Call DestroySetup] /\
                     ~ In (Call DestroySetup) body
    | _ => ~ In (Call DestroySetup) events
    end.
Proof.
  cbv zeta. unfold main, InitializeRandom.
  rewrite (bind_done _ _ w
             {| Seed := now mod 2 ^ 32; stdin := stdin w; heap := heap w;
                trace := trace w |} tt) by reflexivity.
  erewrite bind_done by reflexivity. cbn [Seed stdin heap trace].
  set (w1 := {| Seed := _; stdin := _; heap := _; trace := _ |}).
  destruct setup_ok.
  2:{ exists [Stderr NoSetup]. cbn. rewrite <- app_assoc.
      split; [reflexivity|]. split; [intros [E|[]]; discriminate|].
      split; [intros status E; injection E as <-; reflexivity|].
      intros [E|[]]; discriminate. }
  erewrite bind_done by reflexivity.
  set (body := if Z.of_nat (List.length argv) <=? 1 then _ else _).
  assert (Hb : orderly body).
  { subst body. destruct (Z.of_nat (List.length argv) <=? 1).
    - apply orderly_bind; [apply orderly_interactive_loop|].
      intros [k|]; [destruct (Ascii.eqb k newline)|];
        first [apply orderly_ret | apply orderly_log; discriminate].
    - destruct (Z.of_nat (List.length argv) =? 2);
        [apply orderly_argument_loop|].
      apply orderly_bind;
        [apply orderly_log; discriminate | intros _; apply orderly_exit]. }
  destruct (Hb w1) as [(ev & T & C & D) X]. unfold bind.
  destruct (body w1) as [w2 [[]| | |]]; cbn [fst snd] in *.
  - unfold log, ret. cbn [fst snd trace].
    exists (ev ++ [Call DestroySetup]).
    rewrite T. subst w1. cbn [trace]. rewrite <- !app_assoc.
    split; [reflexivity|].
    split; [intro H; apply in_app_or in H; destruct H as [H|[H|[]]];
            [tauto | discriminate H]|].
    split; [intros ? E; discriminate E|]. split; [reflexivity|]. exists ev. auto.
  - exists ev. rewrite T. subst w1. cbn [trace]. rewrite <- app_assoc.
    split; [reflexivity|]. split; [exact C|]. split; [|exact D].
    intros st E;
      first [discriminate E | injection E as <-; apply X; reflexivity].
  - exists ev. rewrite T. subst w1. cbn [trace]. rewrite <- app_assoc.
    split; [reflexivity|]. split; [exact C|]. split; [|exact D].
    intros st E;
      first [discriminate E | injection E as <-; apply X; reflexivity].
  - exists ev. rewrite T. subst w1. cbn [trace]. rewrite <- app_assoc.
    split; [reflexivity|]. split; [exact C|]. split; [|exact D].
    intros st E;
      first [discriminate E | injection E as <-; apply X; reflexivity].
Qed.
End Lifecycle.

(** ** The loops of [main] on whole inputs *)

Lemma skip_spaces_blank (spaces : list ascii) :
  Forall blank spaces -> skip_spaces spaces = (None, []).
Proof.
  induction 1 as [|c l [Hs Hn] _ IH]; [reflexivity|]. cbn [skip_spaces].
  destruct (Ascii.eqb_spec c newline) as [E|_]; [contradiction|].
  rewrite Hs. exact IH.
Qed.

Lemma skip_spaces_first (spaces : list ascii) (c : ascii)
    (rest : list ascii) :
  Forall blank spaces -> c = newline \/ isspace c = false ->
  skip_spaces (spaces ++ c :: rest) = (Some c, rest).
Proof.
  intros Hb Hc. induction Hb as [|b l [Hs Hn] _ IH].
  - cbn [app skip_spaces]. destruct Hc as [->|Hc].
    + rewrite Ascii.eqb_refl. reflexivity.
    + rewrite Hc, andb_false_r. reflexivity.
  - cbn [app skip_spaces].
    destruct (Ascii.eqb_spec b newline) as [E|_]; [contradiction|].
    rewrite Hs. exact IH.
Qed.

Lemma skip_line_first (line rest : list ascii) :
  ~ In newline line ->
  skip_line (line ++ newline :: rest) = (Some newline, rest).
Proof.
  induction line as [|c line IH]; intro H.
  - cbn [app skip_line]. rewrite Ascii.eqb_refl. reflexivity.
  - cbn [app skip_line].
    destruct (Ascii.eqb_spec c newline) as [E|_].
    + exfalso. apply H. left. exact E.
    + apply IH. intro Hin. apply H. right. exact Hin.
Qed.

Lemma not_accepted_lookup (c : ascii) :
  c <> NUL -> ~ In c accepted_keys ->
  ConvertKeyToFrequencies (toupper c) = Some zero_pair.
Proof.
  intros Hc Hn. apply ConvertKeyToFrequencies_absent.
  - intro Hin. destruct (valid_alphabet _ Hin) as (F & E & V & _).
    pose proof (accepted_keys_bool c) as B. rewrite E, V in B.
    symmetry in B. apply existsb_exists in B. destruct B as (x & Hx & Ex).
    apply Ascii.eqb_eq in Ex. subst x. exact (Hn Hx).
  - intro E. apply Hc. apply toupper_NUL. exact E.
Qed.

Section Runs.
Variable sin : float64 -> float64.
Variable vDSP_ctoz : list float32 -> list float32 -> list float32.
Variable vDSP_fft_zrip : list float32 -> list float32.
Variable indeterminate : float32.

Local Abbreviation run_main :=
  (main sin vDSP_ctoz vDSP_fft_zrip indeterminate).
Local Abbreviation interactive :=
  (interactive_loop sin vDSP_ctoz vDSP_fft_zrip indeterminate).
Local Abbreviation arguments :=
  (argument_loop sin vDSP_ctoz vDSP_fft_zrip indeterminate).

(** X11.  When the FFT setup cannot be created, and when there are two or
    more arguments, [main] only prints the corresponding message on the
    standard error and exits with [EXIT_FAILURE]: no input is read, no
    key is looked up, nothing is demonstrated. *)
Theorem main_refuses (argv : list (list ascii)) (now : Z) (fuel : nat)
    (w : World) :
  run_main argv now false fuel w =
    (after_main w now (stdin w) [Call CreateSetup; Stderr NoSetup],
     Exit EXIT_FAILURE) /\
  ((3 <= List.length argv)%nat ->
   run_main argv now true fuel w =
     (after_main w now (stdin w)
        [Call CreateSetup; Stderr (Usage (nth 0 argv []))],
      Exit EXIT_FAILURE)).
Proof.
  split.
  - unfold main, after_main, InitializeRandom, bind, with_Seed, log,
      fprintf_stderr, exit. cbn. rewrite <- app_assoc. reflexivity.
  - intro H. unfold main.
    replace (Z.of_nat (List.length argv) <=? 1) with false
      by (symmetry; apply Z.leb_gt; lia).
    replace (Z.of_nat (List.length argv) =? 2) with false
      by (symmetry; apply Z.eqb_neq; lia).
    unfold after_main, InitializeRandom, bind, with_Seed, log,
      fprintf_stderr, exit. cbn. rewrite <- !app_assoc. reflexivity.
Qed.

(** X12.  In interactive mode a blank line ends the session: [main]
    prompts once, reads the line and no further, and returns 0.  At the
    end of the input it also prints a newline after the prompt. *)
Theorem main_blank_line (argv : list (list ascii)) (now : Z) (fuel : nat)
    (w : World) (spaces rest : list ascii) :
  (List.length argv <= 1)%nat -> Forall blank spaces ->
  (stdin w = spaces ++ newline :: rest ->
   run_main argv now true (S fuel) w =
     (after_main w now rest
        [Call CreateSetup; Stdout Prompt; Call DestroySetup], Done 0)) /\
  (stdin w = spaces ->
   run_main argv now true (S fuel) w =
     (after_main w now []
        [Call CreateSetup; Stdout Prompt; Stdout Newline; Call DestroySetup],
      Done 0)).
Proof.
  intros Hargc Hb. unfold main.
  replace (Z.of_nat (List.length argv) <=? 1) with true
    by (symmetry; apply Z.leb_le; lia).
  split; intro Hin.
  - unfold after_main, InitializeRandom, bind, with_Seed, log, printf, ret,
      scan. cbn [interactive_loop bind fst snd Seed stdin heap trace].
    unfold bind, printf, log, scan, ret. cbn [stdin].
    rewrite Hin, (skip_spaces_first spaces newline rest Hb (or_introl eq_refl)).
    rewrite Ascii.eqb_refl. cbn [Seed stdin heap trace].
    rewrite Ascii.eqb_refl. cbn [Seed stdin heap trace].
    rewrite <- !app_assoc. reflexivity.
  - unfold after_main, InitializeRandom, bind, with_Seed, log, printf, ret,
      scan. cbn [interactive_loop bind fst snd Seed stdin heap trace].
    unfold bind, printf, log, scan, ret. cbn [stdin].
    rewrite Hin, (skip_spaces_blank spaces Hb). cbn [Seed stdin heap trace].
    rewrite <- !app_assoc. reflexivity.
Qed.

(** X13.  In interactive mode a line whose first character other than
    white space is not an accepted key is skipped in silence: after the
    prompt nothing is printed, nothing is demonstrated, the rest of the
    line is discarded and the loop goes on with the next line. *)
Theorem interactive_loop_unknown_key (fuel : nat) (w : World)
    (spaces line rest : list ascii) (k : ascii) :
  Forall blank spaces -> isspace k = false -> k <> NUL ->
  ~ In k accepted_keys -> ~ In newline line ->
  stdin w = spaces ++ k :: line ++ newline :: rest ->
  interactive (S fuel) w =
  interactive fuel (with_stdin (logged w (Stdout Prompt)) rest).
Proof.
  intros Hb Hk Hnul Hna Hline Hin. cbn [interactive_loop].
  unfold printf. erewrite bind_done by reflexivity.
  erewrite bind_done.
  2:{ unfold scan, log. cbn [stdin fst].
      rewrite Hin, (skip_spaces_first spaces k _ Hb (or_intror Hk)).
      reflexivity. }
  assert (Hnl : Ascii.eqb k newline = false).
  { apply Ascii.eqb_neq. intros ->. discriminate Hk. }
  cbv beta iota. rewrite Hnl.
  erewrite bind_done
    by (unfold defined; rewrite (not_accepted_lookup k Hnul Hna); reflexivity).
  change (is_valid_key zero_pair) with false. cbv iota.
  erewrite bind_done by reflexivity.
  erewrite bind_done.
  2:{ unfold scan. cbn [stdin]. rewrite (skip_line_first line rest Hline).
      reflexivity. }
  reflexivity.
Qed.

(** X14.  With one argument none of whose characters is an accepted key,
    [main] reports each character on the standard error, in order, does
    nothing else (no input read, no signal made, no transform) and
    returns 0. *)
Theorem main_all_unknown (program p : list ascii) (now : Z) (fuel : nat)
    (w : World) :
  Forall (fun c => c <> NUL /\ ~ In c accepted_keys) p ->
  run_main [program; p] now true fuel w =
  (after_main w now (stdin w)
     (Call CreateSetup :: map (fun c => Stderr (NotRecognized c)) p
      ++ [Call DestroySetup]),
   Done 0).
Proof.
  intro Hp.
  assert (L : forall w0,
             arguments p w0 =
             ({| Seed := Seed w0; stdin := stdin w0; heap := heap w0;
                 trace := trace w0
                          ++ map (fun c => Stderr (NotRecognized c)) p |},
              Done tt)).
  { induction Hp as [|c p [Hc Hn] _ IH]; intro w0.
    - cbn [argument_loop map]. rewrite app_nil_r. destruct w0; reflexivity.
    - cbn [argument_loop map].
      destruct (Ascii.eqb_spec c NUL) as [E|_]; [contradiction|].
      erewrite bind_done
        by (unfold defined; rewrite (not_accepted_lookup c Hc Hn);
            reflexivity).
      change (is_valid_key zero_pair) with false. cbv iota.
      erewrite bind_done by reflexivity.
      rewrite IH. cbn [Seed stdin heap trace]. rewrite <- app_assoc.
      reflexivity. }
  unfold main. cbn [List.length Z.of_nat Pos.of_succ_nat Pos.succ Z.leb
                    Z.eqb Z.compare Pos.compare Pos.compare_cont Pos.eqb nth].
  unfold InitializeRandom.
  erewrite bind_done by reflexivity.
  erewrite bind_done by reflexivity.
  erewrite bind_done by reflexivity.
  erewrite bind_done by apply L.
  unfold after_main, bind, log, ret. cbn [Seed stdin heap trace].
  rewrite <- !app_assoc. reflexivity.
Qed.

Lemma input_safe_argument_loop (p : list ascii) : input_safe (arguments p).
Proof.
  induction p as [|c p IH]; cbn [argument_loop]; [apply safe_ret|].
  destruct (Ascii.eqb c NUL); [apply safe_ret|].
  apply safe_bind; [apply safe_defined|]. intro F.
  apply safe_bind; [|intros _; exact IH].
  destruct (is_valid_key F).
  - apply safe_bind; [apply safe_log | intros _; apply Demonstrate_input_safe].
  - apply safe_log.
Qed.

(** X15.  [main] terminates on every finite input: with one unit of fuel
    more than there are characters to read, the interactive loop ends by
    itself, whatever the keys, the allocations and the library routines
    do. *)
Theorem main_terminates (argv : list (list ascii)) (now : Z)
    (setup_ok : bool) (w : World) :
  snd (run_main argv now setup_ok (S (List.length (stdin w))) w)
  <> OutOfFuel.
Proof.
  unfold main, InitializeRandom.
  apply bind_no_loop; [discriminate|]. intros w1 [] E1.
  injection E1 as <-.
  apply bind_no_loop; [discriminate|]. intros w2 [] E2.
  injection E2 as <-.
  apply bind_no_loop; [destruct setup_ok; discriminate|]. intros w3 [] E3.
  destruct setup_ok; [|discriminate]. injection E3 as <-.
  apply bind_no_loop; [|intros; discriminate].
  destruct (Z.of_nat (List.length argv) <=? 1).
  - apply bind_no_loop.
    + apply interactive_loop_fuel. cbn [stdin]. lia.
    + intros w4 [k|] _; [destruct (Ascii.eqb k newline)|]; discriminate.
  - destruct (Z.of_nat (List.length argv) =? 2).
    + apply input_safe_argument_loop.
    + discriminate.
Qed.
End Runs.

(** ** DemonstrateFFT.c: the comparison of two vectors *)

(** *** Rounding without underflow *)

Section NoUnderflow.
Variables prec emax : Z.
Hypothesis prec_pos : 0 < prec.

Lemma shr_fexp_pos (M : positive) (E : Z) (l : location) :
  emin prec emax <= E ->
  1 <= shr_m (fst (shr_fexp prec emax (Zpos M) E l)) /\
  emin prec emax <= snd (shr_fexp prec emax (Zpos M) E l).
Proof.
  intro HE. unfold shr_fexp, Zdigits2.
  pose proof (digits2_pos_bounds M) as [HM _].
  set (d := Zpos (digits2_pos M)) in *.
  destruct (fexp prec emax (d + E) - E) as [|n|n] eqn:En; cbn [shr fst snd];
    rewrite ?shr_m_of_loc; try (split; lia).
  destruct (iter_shr_1_m n (shr_record_of_loc (Zpos M) l)) as [Eq _];
    [rewrite shr_m_of_loc; lia|].
  rewrite Eq, shr_m_of_loc.
  assert (Hn : Zpos n = d - prec) by (unfold fexp in En; lia).
  split; [|lia].
  apply Z.div_le_lower_bound; [apply Z.pow_pos_nonneg; lia|].
  rewrite Z.mul_1_r. apply Z.le_trans with (2 ^ (d - 1)); [|exact HM].
  apply Z.pow_le_mono_r; lia.
Qed.

Lemma binary_round_aux_pos (M : positive) (E : Z) (l : location) :
  emin prec emax <= E ->
  match binary_round_aux prec emax false (Zpos M) E l with
  | S754_infinity false => True
  | S754_finite false _ e => emin prec emax <= e
  | _ => False
  end.
Proof.
  intro HE. unfold binary_round_aux.
  pose proof (shr_fexp_pos M E l HE) as [P1 Q1].
  destruct (shr_fexp prec emax (Zpos M) E l) as [mrs' e'].
  cbn [fst snd] in P1, Q1.
  set (m1 := round_nearest_even (shr_m mrs') (loc_of_shr_record mrs')).
  assert (H1 : 1 <= m1).
  { unfold m1. destruct (loc_of_shr_record mrs') as [|[]]; cbn; try lia.
    destruct (Z.even (shr_m mrs')); lia. }
  destruct m1 as [|M1|M1]; try lia.
  pose proof (shr_fexp_pos M1 e' loc_Exact Q1) as [P2 Q2].
  destruct (shr_fexp prec emax (Zpos M1) e' loc_Exact) as [mrs'' e''].
  cbn [fst snd] in P2, Q2.
  destruct (shr_m mrs'') as [|q|q]; try lia.
  destruct (e'' <=? emax - prec); [exact Q2 | exact I].
Qed.

Lemma binary_round_pos (m : positive) (e : Z) :
  emin prec emax <= e ->
  match binary_round prec emax false m e with
  | S754_infinity false => True
  | S754_finite false _ e' => emin prec emax <= e'
  | _ => False
  end.
Proof.
  intro He. unfold binary_round, shl_align.
  set (f := fexp prec emax (Zpos (digits2_pos m) + e)).
  assert (Hf : emin prec emax <= f) by (unfold f, fexp; lia).
  destruct (f - e); apply binary_round_aux_pos; assumption.
Qed.
End NoUnderflow.

Lemma F64_add_above_l (x y : float64) :
  above_emin x -> zero_or_above y -> above_emin (F64.add x y).
Proof.
  intros Hx [-> | Hy].
  - destruct x as [| [] | | [] m e]; try contradiction; exact Hx.
  - destruct x as [| [] | | [] mx ex], y as [| [] | | [] my ey];
      try contradiction; try exact I.
    unfold F64.add, SFadd. cbn [cond_Zopp Z.add binary_normalize].
    cbn [above_emin] in *.
    apply (binary_round_pos F64.prec F64.emax ltac:(reflexivity)).
    unfold emin, F64.prec, F64.emax. lia.
Qed.

Lemma F64_add_above_r (x y : float64) :
  zero_or_above x -> above_emin y -> above_emin (F64.add x y).
Proof.
  intros [-> | Hx] Hy.
  - destruct y as [| [] | | [] m e]; try contradiction; exact Hy.
  - apply F64_add_above_l; [exact Hx | right; exact Hy].
Qed.

Lemma F64_add_zero_or_above (x y : float64) :
  zero_or_above x -> zero_or_above y -> zero_or_above (F64.add x y).
Proof.
  intros Hx [-> | Hy].
  - destruct Hx as [-> | Hx]; [left; reflexivity|].
    right. apply F64_add_above_l; [exact Hx | left; reflexivity].
  - right. apply F64_add_above_r; assumption.
Qed.

(** A [float] converts to a [double] without rounding, and its square
    does not underflow. *)
Lemma F64_of_f32_valid (s : bool) (m : positive) (e : Z) :
  valid_binary 24 128 (S754_finite s m e) = true ->
  exists (M : positive) (E : Z),
    F64.of_f32 (S754_finite s m e) = S754_finite s M E /\ -201 <= E.
Proof.
  cbn [valid_binary]. unfold bounded, canonical_mantissa. intro H.
  apply andb_true_iff in H. destruct H as [Hc Hb].
  apply Z.eqb_eq in Hc. apply Z.leb_le in Hb.
  pose proof (Pos2Z.is_pos (digits2_pos m)) as Hd.
  set (d := Zpos (digits2_pos m)) in *.
  assert (He : -149 <= e /\ d <= 24 /\ e <= 104).
  { unfold fexp, emin in *. lia. }
  destruct (53 - d) as [|n|n] eqn:En; try lia.
  exists (m * 2 ^ n)%positive, (e - Zpos n).
  split; [|lia]. cbn [F64.of_f32].
  rewrite (binary_round_shl F64.prec F64.emax s m e n).
  - replace (e - Zpos n <=? F64.emax - F64.prec) with true; [reflexivity|].
    symmetry. apply Z.leb_le. unfold F64.emax, F64.prec. lia.
  - fold d. unfold fexp, emin, F64.prec, F64.emax. lia.
Qed.

Lemma square_above (x : float32) :
  valid_binary 24 128 x = true -> is_finite x = true ->
  is_zero x = false ->
  above_emin (F64.mul (F64.of_f32 x) (F64.of_f32 x)).
Proof.
  intros Hv Hf Hz. destruct x as [| | |s m e]; try discriminate.
  destruct (F64_of_f32_valid s m e Hv) as (M & E & -> & HE).
  unfold F64.mul, SFmul. rewrite xorb_nilpotent.
  apply (binary_round_aux_pos F64.prec F64.emax ltac:(reflexivity)).
  unfold emin, F64.prec, F64.emax. lia.
Qed.

Lemma square_zero (x : float32) :
  is_zero x = true ->
  F64.mul (F64.of_f32 x) (F64.of_f32 x) = S754_zero false.
Proof. destruct x as [[]| | |]; try discriminate; reflexivity. Qed.

Lemma square_zero_or_above (x : float32) :
  valid_binary 24 128 x = true -> is_finite x = true ->
  zero_or_above (F64.mul (F64.of_f32 x) (F64.of_f32 x)).
Proof.
  intros Hv Hf. destruct (is_zero x) eqn:Hz.
  - left. apply square_zero. exact Hz.
  - right. apply square_above; assumption.
Qed.

Lemma F32_sub_self (x : float32) :
  is_finite x = true -> F32_sub x x = S754_zero false.
Proof.
  destruct x as [[]|s| |s m e]; cbn [is_finite]; intro H;
    try discriminate; try reflexivity.
  unfold F32_sub, SFsub. rewrite Z.sub_diag. reflexivity.
Qed.

Lemma report_of_zero_error (m : float64) :
  zero_or_above m ->
  F64_sqrt (F64_div (S754_zero false) m)
  = if is_zero m then S754_nan else S754_zero false.
Proof.
  intros [-> | H]; [reflexivity|].
  destruct m as [| [] | | [] mm em]; try contradiction; reflexivity.
Qed.

Lemma Compare_loop_self (V : DSPSplitComplex) (n : nat) (k : nat)
    (st : CompareState) :
  (forall i, (k <= i < k + n)%nat ->
     exists re im, load (realp V) (Z.of_nat i) = Some re /\
                   load (imagp V) (Z.of_nat i) = Some im /\
                   is_finite re = true /\ is_finite im = true /\
                   valid_binary 24 128 re = true /\
                   valid_binary 24 128 im = true) ->
  Error st = S754_zero false -> zero_or_above (Magnitude st) ->
  exists st',
    Compare_loop V V n (Z.of_nat k) st = Some st' /\
    Error st' = S754_zero false /\ zero_or_above (Magnitude st') /\
    (above_emin (Magnitude st) -> above_emin (Magnitude st')) /\
    ((forall i, (k <= i < k + n)%nat ->
        exists re im, load (realp V) (Z.of_nat i) = Some re /\
                      load (imagp V) (Z.of_nat i) = Some im /\
                      is_zero re = true /\ is_zero im = true) ->
     Magnitude st' = Magnitude st) /\
    ((exists i re im, (k <= i < k + n)%nat /\
        load (realp V) (Z.of_nat i) = Some re /\
        load (imagp V) (Z.of_nat i) = Some im /\
        (is_zero re = false \/ is_zero im = false)) ->
     above_emin (Magnitude st')).
Proof.
  revert k st; induction n as [|n IH]; intros k st Hv He Hm.
  - exists st. repeat split; auto. intros (i & _ & _ & Hi & _). lia.
  - destruct (Hv k ltac:(lia)) as (re & im & Er & Ei & Fr & Fi & Vr & Vi).
    cbn [Compare_loop]. unfold Compare_body. rewrite Er, Ei.
    rewrite !F32_sub_self by assumption. rewrite He.
    set (sq := F64.add (F64.mul (F64.of_f32 re) (F64.of_f32 re))
                       (F64.mul (F64.of_f32 im) (F64.of_f32 im))).
    assert (Hsq : zero_or_above sq).
    { apply F64_add_zero_or_above; apply square_zero_or_above; assumption. }
    set (st1 := {| Error := _; Magnitude := _ |}).
    assert (He1 : Error st1 = S754_zero false) by reflexivity.
    assert (Hm1 : zero_or_above (Magnitude st1))
      by (apply F64_add_zero_or_above; assumption).
    replace (Z.of_nat k + 1) with (Z.of_nat (S k)) by lia.
    destruct (IH (S k) st1) as (st' & E' & He' & Hm' & Hup & Hz' & Hnz'); auto.
    { intros i Hi. apply Hv. lia. }
    exists st'. split; [exact E'|]. split; [exact He'|]. split; [exact Hm'|].
    split; [|split].
    + intro Ha. apply Hup. apply F64_add_above_l; assumption.
    + intros Hall. rewrite Hz' by (intros i Hi; apply Hall; lia).
      destruct (Hall k ltac:(lia)) as (re' & im' & Er' & Ei' & Zr & Zi).
      rewrite Er in Er'. rewrite Ei in Ei'.
      injection Er' as <-. injection Ei' as <-.
      change (Magnitude st1) with (F64.add (Magnitude st) sq).
      unfold sq. rewrite !square_zero by assumption.
      destruct Hm as [-> | Hm]; [reflexivity|].
      destruct (Magnitude st) as [| [] | | [] mm em]; try contradiction;
        reflexivity.
    + intros (i & re' & im' & Hi & Er' & Ei' & Hnz).
      destruct (Nat.eq_dec i k) as [-> | Hne].
      * apply Hup. rewrite Er in Er'. rewrite Ei in Ei'.
        injection Er' as <-. injection Ei' as <-.
        change (Magnitude st1) with (F64.add (Magnitude st) sq).
        apply F64_add_above_r; [exact Hm|]. unfold sq.
        destruct Hnz as [Hnz | Hnz].
        -- apply F64_add_above_l;
             [apply square_above | apply square_zero_or_above]; assumption.
        -- apply F64_add_above_r;
             [apply square_zero_or_above | apply square_above]; assumption.
      * apply Hnz'. exists i, re', im'. repeat split; auto; lia.
Qed.

(** X16.  Comparing a vector of [n] complex numbers with itself, the
    parts being finite [float]s (numbers of the binary32 format): the
    comparison is defined and the accumulated error is exactly 0.  When
    some part of some element is not zero, the accumulated magnitude is
    positive (the square of a [float] does not underflow in [double]) and
    the relative error printed is 0.  When every part is zero, in
    particular when [n] is 0, the magnitude is 0 and what is printed is
    0/0 = NaN. *)
Theorem CompareComplexVectors_self (V : DSPSplitComplex) (n : nat) :
  (forall i, (i < n)%nat ->
     exists re im, load (realp V) (Z.of_nat i) = Some re /\
                   load (imagp V) (Z.of_nat i) = Some im /\
                   is_finite re = true /\ is_finite im = true /\
                   valid_binary 24 128 re = true /\
                   valid_binary 24 128 im = true) ->
  (exists st, Compare_run V V (Z.of_nat n) = Some st /\
              Error st = S754_zero false) /\
  ((exists i re im, (i < n)%nat /\
      load (realp V) (Z.of_nat i) = Some re /\
      load (imagp V) (Z.of_nat i) = Some im /\
      (is_zero re = false \/ is_zero im = false)) ->
   CompareComplexVectors V V (Z.of_nat n) = Some (S754_zero false)) /\
  ((forall i, (i < n)%nat ->
      exists re im, load (realp V) (Z.of_nat i) = Some re /\
                    load (imagp V) (Z.of_nat i) = Some im /\
                    is_zero re = true /\ is_zero im = true) ->
   CompareComplexVectors V V (Z.of_nat n) = Some S754_nan).
Proof.
  intro Hv. unfold CompareComplexVectors, Compare_run. rewrite Nat2Z.id.
  destruct (Compare_loop_self V n 0
              {| Error := F64_of_Z 0; Magnitude := F64_of_Z 0 |})
    as (st & E & He & Hm & _ & Hz & Hnz);
    try reflexivity; try (left; reflexivity).
  { intros i Hi. apply Hv. lia. }
  change (Z.of_nat 0) with 0 in E. rewrite E. cbn [option_map].
  rewrite He, (report_of_zero_error _ Hm).
  split; [exists st; split; [reflexivity | exact He]|]. split.
  - intros (i & re & im & Hi & Er & Ei & Hne).
    assert (Ha : above_emin (Magnitude st)).
    { apply Hnz. exists i, re, im. repeat split; auto; lia. }
    destruct (Magnitude st) as [| [] | | [] mm em]; try contradiction;
      reflexivity.
  - intro Hall. rewrite Hz by (intros i Hi; apply Hall; lia). reflexivity.
Qed.

Lemma CompareComplexVectors_self_witness :
  (exists st, Compare_run flat_buffer flat_buffer (Z.of_nat 3) = Some st /\
              Error st = S754_zero false) /\
  ((exists i re im, (i < 3)%nat /\
      load (realp flat_buffer) (Z.of_nat i) = Some re /\
      load (imagp flat_buffer) (Z.of_nat i) = Some im /\
      (is_zero re = false \/ is_zero im = false)) ->
   CompareComplexVectors flat_buffer flat_buffer (Z.of_nat 3)
   = Some (S754_zero false)) /\
  ((forall i, (i < 3)%nat ->
      exists re im, load (realp flat_buffer) (Z.of_nat i) = Some re /\
                    load (imagp flat_buffer) (Z.of_nat i) = Some im /\
                    is_zero re = true /\ is_zero im = true) ->
   CompareComplexVectors flat_buffer flat_buffer (Z.of_nat 3)
   = Some S754_nan).
Proof.
  apply (CompareComplexVectors_self flat_buffer 3).
  intros i Hi.
  do 3 (destruct i as [|i];
        [exists (F32.of_Z 1), (F32.of_Z 1); repeat split|]).
  lia.
Defined.

(** ** DemonstrateFFT.c: the expected results *)

Lemma zero_loop_spec (n i : nat) (re im : list float32) :
  (i + n <= List.length re)%nat -> (i + n <= List.length im)%nat ->
  exists re' im',
    zero_loop n (Z.of_nat i) re im = Some (re', im') /\
    List.length re' = List.length re /\ List.length im' = List.length im /\
    (forall j, nth_error re' j =
               if in_range i n j then Some (F32.of_Z 0) else nth_error re j) /\
    (forall j, nth_error im' j =
               if in_range i n j then Some (F32.of_Z 0) else nth_error im j).
Proof.
  revert i re im; induction n as [|n IH]; intros i re im Hr Hi.
  - exists re, im. repeat split; intro j; unfold in_range;
      destruct (Nat.leb_spec i j), (Nat.ltb_spec j (i + 0)); cbn;
      lia || reflexivity.
  - cbn [zero_loop].
    destruct (store_spec im i (F32.of_Z 0) ltac:(lia)) as (im1 & E1 & L1 & N1).
    destruct (store_spec re i (F32.of_Z 0) ltac:(lia)) as (re1 & E2 & L2 & N2).
    rewrite E1, E2.
    replace (Z.of_nat i + 1) with (Z.of_nat (S i)) by lia.
    destruct (IH (S i) re1 im1 ltac:(lia) ltac:(lia))
      as (re' & im' & E & Lr & Li & Nr & Ni).
    exists re', im'. split; [exact E|].
    split; [congruence|]. split; [congruence|].
    split; intro j; rewrite in_range_step.
    + rewrite Nr, N2. destruct (Nat.eqb j i) eqn:Eq; cbn [orb].
      * destruct (in_range (S i) n j); reflexivity.
      * reflexivity.
    + rewrite Ni, N1. destruct (Nat.eqb j i) eqn:Eq; cbn [orb].
      * destruct (in_range (S i) n j); reflexivity.
      * reflexivity.
Qed.

Lemma add_frequency_spec (cos sin : float64 -> float64)
    (Frequency Phase : float32) (k : nat) (re im : list float32) :
  float_to_int Frequency = Some (Z.of_nat k) ->
  (k < List.length re)%nat -> (k < List.length im)%nat ->
  exists re' im',
    add_frequency cos sin Frequency Phase (re, im) = Some (re', im') /\
    List.length re' = List.length re /\ List.length im' = List.length im /\
    (forall j, nth_error re' j =
               if Nat.eqb j k then Some (peak cos Phase) else nth_error re j) /\
    (forall j, nth_error im' j =
               if Nat.eqb j k then Some (peak sin Phase) else nth_error im j).
Proof.
  intros Hk Hr Hi. unfold add_frequency. rewrite Hk. cbn [fst snd].
  destruct (store_spec re k (peak cos Phase) Hr) as (re' & E1 & L1 & N1).
  destruct (store_spec im k (peak sin Phase) Hi) as (im' & E2 & L2 & N2).
  rewrite E1, E2. exists re', im'. repeat split; assumption.
Qed.

Lemma prepare_Expected_cells (cos sin : float64 -> float64)
    (Frequency0 Frequency1 Frequency2 Phase0 Phase1 Phase2 : float32)
    (k0 k1 k2 : nat) (re im : list float32) :
  float_to_int Frequency0 = Some (Z.of_nat k0) ->
  float_to_int Frequency1 = Some (Z.of_nat k1) ->
  float_to_int Frequency2 = Some (Z.of_nat k2) ->
  (512 <= List.length re)%nat -> (512 <= List.length im)%nat ->
  (forall k, In k [k0; k1; k2] ->
             (k < List.length re)%nat /\ (k < List.length im)%nat) ->
  exists re' im',
    prepare_Expected cos sin Frequency0 Frequency1 Frequency2
      Phase0 Phase1 Phase2 re im = Some (re', im') /\
    List.length re' = List.length re /\ List.length im' = List.length im /\
    forall j,
      nth_error re' j =
        (if (j =? k2)%nat then Some (spec_peak cos Phase2)
         else if (j =? k1)%nat then Some (spec_peak cos Phase1)
         else if (j =? k0)%nat then Some (spec_peak cos Phase0)
         else if (j <? 512)%nat then Some (S754_zero false)
         else nth_error re j) /\
      nth_error im' j =
        (if (j =? k2)%nat then Some (spec_peak sin Phase2)
         else if (j =? k1)%nat then Some (spec_peak sin Phase1)
         else if (j =? k0)%nat then Some (spec_peak sin Phase0)
         else if (j <? 512)%nat then Some (S754_zero false)
         else nth_error im j).
Proof.
  intros H0 H1 H2 Lr Li Hk. unfold prepare_Expected.
  change (Z.to_nat (FFT.N / 2)) with 512%nat.
  destruct (zero_loop_spec 512 0 re im Lr Li)
    as (rz & iz & Ez & Lrz & Liz & Nrz & Niz).
  change (Z.of_nat 0) with 0 in Ez. rewrite Ez.
  destruct (Hk k0 ltac:(cbn; auto)) as [A0 B0].
  destruct (Hk k1 ltac:(cbn; auto)) as [A1 B1].
  destruct (Hk k2 ltac:(cbn; auto)) as [A2 B2].
  destruct (add_frequency_spec cos sin Frequency0 Phase0 k0 rz iz H0
              ltac:(lia) ltac:(lia)) as (r0 & i0 & E0 & Lr0 & Li0 & Nr0 & Ni0).
  rewrite E0.
  destruct (add_frequency_spec cos sin Frequency1 Phase1 k1 r0 i0 H1
              ltac:(lia) ltac:(lia)) as (r1 & i1 & E1 & Lr1 & Li1 & Nr1 & Ni1).
  rewrite E1.
  destruct (add_frequency_spec cos sin Frequency2 Phase2 k2 r1 i1 H2
              ltac:(lia) ltac:(lia)) as (r2 & i2 & E2 & Lr2 & Li2 & Nr2 & Ni2).
  rewrite E2. exists r2, i2. split; [reflexivity|].
  split; [congruence|]. split; [congruence|].
  intro j. rewrite Nr2, Ni2, Nr1, Ni1, Nr0, Ni0, Nrz, Niz.
  unfold in_range. cbn [Nat.leb andb Nat.add]. split; reflexivity.
Qed.

(** X17.  The expected results of the complex transforms, element by
    element: the elements at the three frequencies hold
    [N * cos(Phase * TwoPi)] and [N * sin(Phase * TwoPi)] for the phase of
    the frequency (the last one stored when two frequencies coincide);
    the other elements below [N/2] = 512 hold 0; every other element,
    that is every element from 512 on that is not one of the three
    frequencies, is left as [malloc] returned it. *)
Theorem prepare_Expected_spec (cos sin : float64 -> float64)
    (Frequency0 Frequency1 Frequency2 Phase0 Phase1 Phase2 : float32)
    (k0 k1 k2 : nat) (re im : list float32) :
  float_to_int Frequency0 = Some (Z.of_nat k0) ->
  float_to_int Frequency1 = Some (Z.of_nat k1) ->
  float_to_int Frequency2 = Some (Z.of_nat k2) ->
  (512 <= List.length re)%nat -> (512 <= List.length im)%nat ->
  (forall k, In k [k0; k1; k2] ->
             (k < List.length re)%nat /\ (k < List.length im)%nat) ->
  exists re' im',
    prepare_Expected cos sin Frequency0 Frequency1 Frequency2
      Phase0 Phase1 Phase2 re im = Some (re', im') /\
    List.length re' = List.length re /\ List.length im' = List.length im /\
    forall j,
      nth_error re' j =
        (if (j =? k2)%nat then Some (spec_peak cos Phase2)
         else if (j =? k1)%nat then Some (spec_peak cos Phase1)
         else if (j =? k0)%nat then Some (spec_peak cos Phase0)
         else if (j <? 512)%nat then Some (S754_zero false)
         else nth_error re j) /\
      nth_error im' j =
        (if (j =? k2)%nat then Some (spec_peak sin Phase2)
         else if (j =? k1)%nat then Some (spec_peak sin Phase1)
         else if (j =? k0)%nat then Some (spec_peak sin Phase0)
         else if (j <? 512)%nat then Some (S754_zero false)
         else nth_error im j).
Proof.
  apply prepare_Expected_cells.
Qed.

Lemma prepare_Expected_spec_witness :
  exists re' im',
    prepare_Expected (fun x => x) (fun x => x)
      (F32.of_Z 400) (F32.of_Z 623) (F32.of_Z 931)
      (F32.of_Z 0) (F32.of_Z 0) (F32.of_Z 0)
      (repeat S754_nan 1024) (repeat S754_nan 1024) = Some (re', im') /\
    List.length re' = List.length (repeat S754_nan 1024) /\
    List.length im' = List.length (repeat S754_nan 1024) /\
    forall j,
      nth_error re' j =
        (if (j =? 931)%nat
         then Some (spec_peak (fun x => x) (F32.of_Z 0))
         else if (j =? 623)%nat
         then Some (spec_peak (fun x => x) (F32.of_Z 0))
         else if (j =? 400)%nat
         then Some (spec_peak (fun x => x) (F32.of_Z 0))
         else if (j <? 512)%nat then Some (S754_zero false)
         else nth_error (repeat S754_nan 1024) j) /\
      nth_error im' j =
        (if (j =? 931)%nat
         then Some (spec_peak (fun x => x) (F32.of_Z 0))
         else if (j =? 623)%nat
         then Some (spec_peak (fun x => x) (F32.of_Z 0))
         else if (j =? 400)%nat
         then Some (spec_peak (fun x => x) (F32.of_Z 0))
         else if (j <? 512)%nat then Some (S754_zero false)
         else nth_error (repeat S754_nan 1024) j).
Proof.
  apply (prepare_Expected_spec (fun x => x) (fun x => x)
           (F32.of_Z 400) (F32.of_Z 623) (F32.of_Z 931)
           (F32.of_Z 0) (F32.of_Z 0) (F32.of_Z 0) 400 623 931
           (repeat S754_nan 1024) (repeat S754_nan 1024));
    try reflexivity.
  - rewrite repeat_length. apply Nat.leb_le. reflexivity.
  - rewrite repeat_length. apply Nat.leb_le. reflexivity.
  - rewrite repeat_length.
    intros k [<-|[<-|[<-|[]]]]; split; apply Nat.ltb_lt; reflexivity.
Defined.

(** A NaN among the expected values makes the report NaN. *)
Lemma Compare_loop_nan (Expected Observed : DSPSplitComplex) (n k : nat)
    (st : CompareState) :
  (forall i, (k <= i < k + n)%nat ->
     load (realp Expected) (Z.of_nat i) <> None /\
     load (imagp Expected) (Z.of_nat i) <> None /\
     load (realp Observed) (Z.of_nat i) <> None /\
     load (imagp Observed) (Z.of_nat i) <> None) ->
  exists st',
    Compare_loop Expected Observed n (Z.of_nat k) st = Some st' /\
    (Magnitude st = S754_nan -> Magnitude st' = S754_nan) /\
    (forall g, (k <= g < k + n)%nat ->
       load (realp Expected) (Z.of_nat g) = Some S754_nan \/
       load (imagp Expected) (Z.of_nat g) = Some S754_nan ->
       Magnitude st' = S754_nan).
Proof.
  revert k st; induction n as [|n IH]; intros k st Hv.
  - exists st. repeat split; auto. intros g Hg. lia.
  - cbn [Compare_loop]. unfold Compare_body.
    destruct (Hv k ltac:(lia)) as (A & B & C & D).
    destruct (load (realp Expected) (Z.of_nat k)) as [er|] eqn:Er;
      [|contradiction].
    destruct (load (imagp Expected) (Z.of_nat k)) as [ei|] eqn:Ei;
      [|contradiction].
    destruct (load (realp Observed) (Z.of_nat k)) as [or|] eqn:Eo;
      [|contradiction].
    destruct (load (imagp Observed) (Z.of_nat k)) as [oi|] eqn:Eoi;
      [|contradiction].
    set (st1 := {| Error := _; Magnitude := _ |}).
    replace (Z.of_nat k + 1) with (Z.of_nat (S k)) by lia.
    destruct (IH (S k) st1) as (st' & E' & Hm & Hg).
    { intros i Hi. apply Hv. lia. }
    exists st'. split; [exact E'|]. split.
    + intro H. apply Hm. subst st1. cbn [Magnitude]. rewrite H. reflexivity.
    + intros g Hg' Eg. destruct (Nat.eq_dec g k) as [->|Ne].
      * apply Hm. subst st1. cbn [Magnitude].
        rewrite Er, Ei in Eg. destruct Eg as [Eg | Eg]; injection Eg as ->.
        -- cbn. destruct (Magnitude st); reflexivity.
        -- cbn [F64.of_f32]. unfold F64.mul at 2. cbn [SFmul].
           unfold F64.add.
           destruct (F64.mul (F64.of_f32 er) (F64.of_f32 er)) as [| | |];
             destruct (Magnitude st); reflexivity.
      * apply (Hg g); [lia | exact Eg].
Qed.

Lemma CompareComplexVectors_nan (Expected Observed : DSPSplitComplex)
    (n g : nat) :
  (forall i, (i < n)%nat ->
     load (realp Expected) (Z.of_nat i) <> None /\
     load (imagp Expected) (Z.of_nat i) <> None /\
     load (realp Observed) (Z.of_nat i) <> None /\
     load (imagp Observed) (Z.of_nat i) <> None) ->
  (g < n)%nat ->
  load (realp Expected) (Z.of_nat g) = Some S754_nan \/
  load (imagp Expected) (Z.of_nat g) = Some S754_nan ->
  CompareComplexVectors Expected Observed (Z.of_nat n) = Some S754_nan.
Proof.
  intros Hv Hg Eg. unfold CompareComplexVectors, Compare_run.
  rewrite Nat2Z.id.
  destruct (Compare_loop_nan Expected Observed n 0
              {| Error := F64_of_Z 0; Magnitude := F64_of_Z 0 |})
    as (st & E & _ & Hn).
  { intros i Hi. apply Hv. lia. }
  change (Z.of_nat 0) with 0 in E. rewrite E. cbn [option_map].
  rewrite (Hn g ltac:(lia) Eg). unfold F64_div, SFdiv.
  destruct (Error st); reflexivity.
Qed.

(** X18.  [DemonstratevDSP_fft_zip] and [DemonstratevDSP_fft_zop] compare
    all [N] elements of the expected results, of which the upper half was
    never written: when the memory [malloc] returned holds a NaN in one of
    those elements, of [Expected.realp] or of [Expected.imagp], the
    relative error reported is NaN, whatever the transform computed. *)
Theorem Expected_garbage_reported (cos sin : float64 -> float64)
    (Frequency0 Frequency1 Frequency2 Phase0 Phase1 Phase2 : float32)
    (k0 k1 k2 g : nat) (re im : list float32) (Observed : DSPSplitComplex) :
  float_to_int Frequency0 = Some (Z.of_nat k0) ->
  float_to_int Frequency1 = Some (Z.of_nat k1) ->
  float_to_int Frequency2 = Some (Z.of_nat k2) ->
  (1024 <= List.length re)%nat -> (1024 <= List.length im)%nat ->
  (forall k, In k [k0; k1; k2] -> (k < 1024)%nat) ->
  (forall i, (i < 1024)%nat ->
     load (realp Observed) (Z.of_nat i) <> None /\
     load (imagp Observed) (Z.of_nat i) <> None) ->
  (512 <= g < 1024)%nat -> ~ In g [k0; k1; k2] ->
  nth_error re g = Some S754_nan \/ nth_error im g = Some S754_nan ->
  exists re' im',
    prepare_Expected cos sin Frequency0 Frequency1 Frequency2
      Phase0 Phase1 Phase2 re im = Some (re', im') /\
    CompareComplexVectors {| realp := array re'; imagp := array im' |}
      Observed FFT.N = Some S754_nan.
Proof.
  intros H0 H1 H2 Lr Li Hk Ho Hg Hng Eg.
  destruct (prepare_Expected_cells cos sin Frequency0 Frequency1 Frequency2
              Phase0 Phase1 Phase2 k0 k1 k2 re im H0 H1 H2
              ltac:(lia) ltac:(lia))
    as (re' & im' & E & Lr' & Li' & Hc).
  { intros k Hin. specialize (Hk k Hin). lia. }
  exists re', im'. split; [exact E|].
  change FFT.N with (Z.of_nat 1024).
  apply (CompareComplexVectors_nan _ Observed _ g).
  - intros i Hi. cbn [realp imagp]. unfold array. rewrite !load_block.
    destruct (Ho i Hi) as [A B]. repeat split; auto;
      apply nth_error_Some; lia.
  - lia.
  - cbn [realp imagp]. unfold array. rewrite !load_block.
    destruct (Hc g) as [-> ->].
    assert (D2 : Nat.eqb g k2 = false)
      by (apply Nat.eqb_neq; intro; apply Hng; cbn; auto).
    assert (D1 : Nat.eqb g k1 = false)
      by (apply Nat.eqb_neq; intro; apply Hng; cbn; auto).
    assert (D0 : Nat.eqb g k0 = false)
      by (apply Nat.eqb_neq; intro; apply Hng; cbn; auto).
    rewrite D2, D1, D0.
    replace (g <? 512)%nat with false by (symmetry; apply Nat.ltb_ge; lia).
    exact Eg.
Qed.

Lemma Expected_garbage_reported_witness :
  exists re' im',
    prepare_Expected (fun x => x) (fun x => x)
      (F32.of_Z 400) (F32.of_Z 623) (F32.of_Z 931)
      (F32.of_Z 0) (F32.of_Z 0) (F32.of_Z 0)
      (repeat (F32.of_Z 1) 1024) (repeat S754_nan 1024) = Some (re', im') /\
    CompareComplexVectors {| realp := array re'; imagp := array im' |}
      {| realp := array (repeat (F32.of_Z 1) 1024);
         imagp := array (repeat (F32.of_Z 1) 1024) |} FFT.N
    = Some S754_nan.
Proof.
  apply (Expected_garbage_reported (fun x => x) (fun x => x)
           (F32.of_Z 400) (F32.of_Z 623) (F32.of_Z 931)
           (F32.of_Z 0) (F32.of_Z 0) (F32.of_Z 0) 400 623 931 1000
           (repeat (F32.of_Z 1) 1024) (repeat S754_nan 1024)
           {| realp := array (repeat (F32.of_Z 1) 1024);
              imagp := array (repeat (F32.of_Z 1) 1024) |});
    try reflexivity.
  - intros k [<-|[<-|[<-|[]]]]; apply Nat.ltb_lt; reflexivity.
  - intros i Hi. cbn [realp imagp]. unfold array. rewrite !load_block.
    split; apply nth_error_Some; rewrite repeat_length; exact Hi.
  - split; [apply Nat.leb_le | apply Nat.ltb_lt]; reflexivity.
  - intros [H|[H|[H|[]]]]; discriminate H.
  - right. reflexivity.
Defined.

(** ** Instances *)

Lemma FindTone_defined_iff_witness : readable flat_buffer DTMF1 2.
Proof.
  apply (proj1 (FindTone_defined_iff flat_buffer DTMF1 4)).
  - vm_compute. discriminate.
  - apply Nat.ltb_lt. reflexivity.
Defined.

Lemma Demonstrate_allocation_failure_witness :
  Demonstrate (fun x => x) (fun s b => s) (fun b => b) S754_nan
    {| Frequency0 := F32.of_Z 1209; Frequency1 := F32.of_Z 697 |}
    {| Seed := 0; stdin := []; heap := [false]; trace := [] |} =
  ({| Seed := 0; stdin := []; heap := []; trace := [Stderr NoMemory] |},
   Exit EXIT_FAILURE) /\
  Demonstrate (fun x => x) (fun s b => s) (fun b => b) S754_nan
    {| Frequency0 := F32.of_Z 1209; Frequency1 := F32.of_Z 697 |}
    {| Seed := 0; stdin := []; heap := [true; false]; trace := [] |} =
  (demonstrated
     {| Seed := 0; stdin := []; heap := [true; false]; trace := [] |} 2
     [Stdout Generating; Stderr NoMemory],
   Exit EXIT_FAILURE).
Proof.
  split.
  - apply (proj1 (Demonstrate_allocation_failure
                    (fun x => x) (fun s b => s) (fun b => b) S754_nan
                    {| Frequency0 := F32.of_Z 1209;
                       Frequency1 := F32.of_Z 697 |}
                    {| Seed := 0; stdin := []; heap := [false];
                       trace := [] |}) []).
    reflexivity.
  - apply (proj2 (Demonstrate_allocation_failure
                    (fun x => x) (fun s b => s) (fun b => b) S754_nan
                    {| Frequency0 := F32.of_Z 1209;
                       Frequency1 := F32.of_Z 697 |}
                    {| Seed := 0; stdin := []; heap := [true; false];
                       trace := [] |}) []).
    reflexivity.
Defined.

Lemma main_refuses_witness :
  main (fun x => x) (fun s b => s) (fun b => b) S754_nan
    [[]; []; []] 0 true 0 quiet_world =
  (after_main quiet_world 0 []
     [Call CreateSetup; Stderr (Usage [])], Exit EXIT_FAILURE).
Proof.
  apply (proj2 (main_refuses (fun x => x) (fun s b => s) (fun b => b)
                  S754_nan [[]; []; []] 0 0 quiet_world)).
  cbn. lia.
Defined.

Lemma main_blank_line_witness :
  main (fun x => x) (fun s b => s) (fun b => b) S754_nan
    [[]] 0 true 1
    (with_stdin quiet_world [" "%char; newline; "1"%char]) =
  (after_main (with_stdin quiet_world [" "%char; newline; "1"%char]) 0
     ["1"%char] [Call CreateSetup; Stdout Prompt; Call DestroySetup],
   Done 0).
Proof.
  apply (proj1 (main_blank_line (fun x => x) (fun s b => s) (fun b => b)
                  S754_nan [[]] 0 0
                  (with_stdin quiet_world [" "%char; newline; "1"%char])
                  [" "%char] ["1"%char]
                  ltac:(cbn; lia)
                  ltac:(constructor;
                        [split; [reflexivity | discriminate]
                        | constructor]))).
  reflexivity.
Defined.

Lemma interactive_loop_unknown_key_witness :
  interactive_loop (fun x => x) (fun s b => s) (fun b => b) S754_nan 1
    (with_stdin quiet_world ["x"%char; newline]) =
  interactive_loop (fun x => x) (fun s b => s) (fun b => b) S754_nan 0
    (with_stdin
       (logged (with_stdin quiet_world ["x"%char; newline]) (Stdout Prompt))
       []).
Proof.
  apply (interactive_loop_unknown_key (fun x => x) (fun s b => s)
           (fun b => b) S754_nan 0
           (with_stdin quiet_world ["x"%char; newline]) [] [] [] "x"%char).
  - constructor.
  - reflexivity.
  - discriminate.
  - intro H. repeat (destruct H as [H|H]; [discriminate H|]). exact H.
  - intros [].
  - reflexivity.
Defined.

Lemma main_all_unknown_witness :
  main (fun x => x) (fun s b => s) (fun b => b) S754_nan
    [[]; ["x"%char; "y"%char]] 0 true 0 quiet_world =
  (after_main quiet_world 0 []
     [Call CreateSetup; Stderr (NotRecognized "x"%char);
      Stderr (NotRecognized "y"%char); Call DestroySetup],
   Done 0).
Proof.
  apply (main_all_unknown (fun x => x) (fun s b => s) (fun b => b) S754_nan
           [] ["x"%char; "y"%char] 0 0 quiet_world).
  repeat constructor; try discriminate;
    intro H; repeat (destruct H as [H|H]; [discriminate H|]); exact H.
Defined.
